(** * Safety-check WebSocket gateway: a shallow embedding of
      [src/cdk/backend/safetycheckflow/lambda/websocket.py]

    The development follows the Python module top to bottom:

    - [PyText]    Python [str] operations used by the response normaliser
                  ([replace], [split]/[join], [strip], [find], the two
                  regular expressions), on lists of characters;
    - [PyJson]    JSON values as [json.loads] produces them, with
                  [json.dumps], [str()], truthiness, [in], [.get], [x[k]];
    - the effect layer: a state-and-exception monad over a [world] (connection
      registry, work-order store, log of external calls) driven by an [env]
      of collaborators (clock, transport, key-set endpoint, the two backends);
    - the handlers of the module, under their own names;
    - the properties.

    A Python [str] is modelled by a Rocq [string] whose characters are the
    code points below 256. *)

From Stdlib Require Import ZArith Lia Bool.
From Stdlib Require Import Ascii String List.
From stdpp Require Import gmap strings pretty.

Import ListNotations.
Local Open Scope string_scope.
Local Open Scope list_scope.

(** ** Python [str] operations *)

Module PyText.

Abbreviation text := (list ascii).

(** Literal: [T "ab"] is the character list of ["ab"]. *)
Definition T (s : string) : text := list_ascii_of_string s.

(** [s.startswith(p)] *)
Fixpoint startswith (p s : text) : bool :=
  match p, s with
  | [], _ => true
  | _ :: _, [] => false
  | a :: p', b :: s' => Ascii.eqb a b && startswith p' s'
  end.

(** [s.find(p)], as an option: [None] is Python's [-1]. *)
Fixpoint find_opt (p s : text) : option nat :=
  match s with
  | [] => if startswith p [] then Some 0 else None
  | _ :: s' =>
      if startswith p s then Some 0
      else match find_opt p s' with
           | Some i => Some (S i)
           | None => None
           end
  end.

(** [s.find(p)] with Python's result convention. *)
Definition find (p s : text) : Z :=
  match find_opt p s with
  | Some i => Z.of_nat i
  | None => (-1)%Z
  end.

(** [p in s] for two strings. *)
Definition contains (p s : text) : bool :=
  match find_opt p s with Some _ => true | None => false end.

(** [s.replace(old, new)] for a non-empty [old]: left to right, without
    overlap. [skip] counts the characters of a match still to be dropped. *)
Fixpoint replace_from (old new : text) (skip : nat) (s : text) : text :=
  match s with
  | [] => []
  | c :: s' =>
      match skip with
      | S k => replace_from old new k s'
      | O =>
          if startswith old s
          then new ++ replace_from old new (length old - 1) s'
          else c :: replace_from old new 0 s'
      end
  end.

Definition replace (old new s : text) : text := replace_from old new 0 s.

(** Whitespace of [str.split()] and [str.strip()] among the code points
    below 256: TAB LF VT FF CR, FS GS RS US, SPACE, NEL, NBSP. *)
Definition isspace (c : ascii) : bool :=
  let n := nat_of_ascii c in
  (Nat.leb 9 n && Nat.leb n 13) || (Nat.leb 28 n && Nat.leb n 32)
  || Nat.eqb n 133 || Nat.eqb n 160.

(** [s.split()]: the maximal runs of non-whitespace characters. [word] is
    the run being read. *)
Fixpoint split_from (word s : text) : list text :=
  match s with
  | [] => match word with [] => [] | _ => [word] end
  | c :: s' =>
      if isspace c
      then match word with
           | [] => split_from [] s'
           | _ => word :: split_from [] s'
           end
      else split_from (word ++ [c]) s'
  end.

Definition split (s : text) : list text := split_from [] s.

(** [sep.join(ws)] *)
Fixpoint join (sep : text) (ws : list text) : text :=
  match ws with
  | [] => []
  | w :: ws' =>
      match ws' with
      | [] => w
      | _ => w ++ sep ++ join sep ws'
      end
  end.

(** [lstrip], [rstrip], [strip] for a set of characters given by [p]. *)
Fixpoint lstrip_by (p : ascii -> bool) (s : text) : text :=
  match s with
  | [] => []
  | c :: s' => if p c then lstrip_by p s' else s
  end.

Fixpoint rstrip_by (p : ascii -> bool) (s : text) : text :=
  match s with
  | [] => []
  | c :: s' =>
      match rstrip_by p s' with
      | [] => if p c then [] else [c]
      | r => c :: r
      end
  end.

Definition strip_by (p : ascii -> bool) (s : text) : text :=
  lstrip_by p (rstrip_by p s).

Definition among (chars : text) (c : ascii) : bool :=
  existsb (Ascii.eqb c) chars.

(** [s.rstrip(chars)], [s.strip(chars)], [s.strip()] *)
Definition rstrip (chars s : text) : text := rstrip_by (among chars) s.
Definition strip (chars s : text) : text := strip_by (among chars) s.
Definition strip_ws (s : text) : text := strip_by isspace s.

(** [s[i:]] and [s[:i]] for [0 <= i]. *)
Definition slice_from (i : Z) (s : text) : text := skipn (Z.to_nat i) s.
Definition slice_to (i : Z) (s : text) : text := firstn (Z.to_nat i) s.

Definition no_lt (s : text) : bool := forallb (fun c => negb (Ascii.eqb c "<")) s.

(** [re.sub(r'^[^<]*(?=<)', '', s)]: without [re.MULTILINE] the anchor
    matches at offset 0 only; [[^<]*] takes every character before the
    first ["<"] (newlines included) and the look-ahead needs that ["<"].
    So the text before the first ["<"] is dropped when there is a ["<"],
    and nothing changes otherwise. *)
Fixpoint drop_until_lt (s : text) : text :=
  match s with
  | [] => []
  | c :: s' => if Ascii.eqb c "<" then s else drop_until_lt s'
  end.

Definition sub_leading_text (s : text) : text :=
  if no_lt s then s else drop_until_lt s.

(** Offset of the first [">"] of [s]. *)
Fixpoint index_gt (s : text) : option nat :=
  match s with
  | [] => None
  | c :: s' =>
      if Ascii.eqb c ">" then Some 0
      else match index_gt s' with Some k => Some (S k) | None => None end
  end.

(** [</[^>]+>] matched at the head of [s]: the length of the match. After
    ["</"] come one or more characters other than [">"] and then the first
    [">"]; the greedy class cannot give a character back to [">"]. *)
Definition close_tag_len (s : text) : option nat :=
  match s with
  | a :: b :: c :: r =>
      if Ascii.eqb a "<" && Ascii.eqb b "/" && negb (Ascii.eqb c ">")
      then match index_gt r with
           | Some k => Some (4 + k)
           | None => None
           end
      else None
  | _ => None
  end.

(** [re.search(r'</[^>]+>(?=[^<]*$)', s)]: the leftmost offset at which
    a closing tag matches and no ["<"] follows it; the result is
    [m.end()]. *)
Fixpoint search_last_tag (s : text) : option nat :=
  match s with
  | [] => None
  | _ :: s' =>
      let later := match search_last_tag s' with
                   | Some e => Some (S e)
                   | None => None
                   end in
      match close_tag_len s with
      | Some n => if no_lt (skipn n s) then Some n else later
      | None => later
      end
  end.

(** [re.search(open ++ '.*?' ++ close, s, re.DOTALL).group(0)]: the
    leftmost [open] and the nearest [close] after it. *)
Fixpoint search_block (open close s : text) : option text :=
  match s with
  | [] => None
  | _ :: s' =>
      if startswith open s
      then match find_opt close (skipn (length open) s) with
           | Some j => Some (firstn (length open + j + length close) s)
           | None => search_block open close s'
           end
      else search_block open close s'
  end.

End PyText.

(** ** Response normaliser *)

Import PyText.

Definition html_start_patterns : list text :=
  [T "<div"; T "<html"; T "<body"; T "<section"; T "<h1"].

(** The loop of [clean_html_response] over [html_start_patterns]. *)
Definition earliest_start (patterns : list text) (s : text) : Z :=
  fold_left
    (fun start_index pattern =>
       let index := find pattern s in
       if (index =? -1)%Z then start_index
       else if (start_index =? -1)%Z || (index <? start_index)%Z
            then index else start_index)
    patterns (-1)%Z.

(** The body of [clean_html_response] on the characters of a non-empty
    [str]. A Rocq string literal has no escapes: [T "\n"] is the two
    characters backslash and [n] (Python's ['\\n']); LF, CR and TAB are
    written by their decimal codes 010, 013 and 009, the double quote by
    034. *)
Definition clean_text (raw_response : text) : text :=
  let response_text := raw_response in
  let response_text := replace (T "\n") [] response_text in
  let response_text := replace ["010"%char] (T " ") response_text in
  let response_text := replace ["013"%char] [] response_text in
  let response_text := replace ["009"%char] (T " ") response_text in
  let response_text := join (T " ") (split response_text) in
  let response_text := rstrip (T "}])") response_text in
  let response_text := strip ["034"%char; "'"%char] response_text in
  let start_index := earliest_start html_start_patterns response_text in
  let response_text :=
    if (0 <? start_index)%Z then slice_from start_index response_text
    else response_text in
  let response_text := sub_leading_text response_text in
  let response_text :=
    match response_text with
    | [] => response_text
    | _ :: _ =>
        if negb (startswith (T "<") response_text)
        then T "<div>" ++ response_text ++ T "</div>"
        else response_text
    end in
  let response_text :=
    match search_last_tag response_text with
    | Some e => firstn e response_text
    | None => response_text
    end in
  strip_ws response_text.

(** [clean_html_response(raw_response)] for a [str] argument (its only
    caller passes one). No step of the body raises on a [str], so the
    [except] branch is not entered. *)
Definition clean_html_response (raw_response : string) : string :=
  match raw_response with
  | EmptyString => EmptyString
  | _ => string_of_list_ascii (clean_text (list_ascii_of_string raw_response))
  end.

(** [extract_html_content(text)] *)
Definition extract_html_content (text : string) : string :=
  let s := list_ascii_of_string text in
  match search_block (T "<html>") (T "</html>") s with
  | Some m => string_of_list_ascii m
  | None =>
      match search_block (T "<body>") (T "</body>") s with
      | Some m => string_of_list_ascii m
      | None =>
          if contains (T "<div") s && contains (T "</div>") s
          then text
          else text
      end
  end.

(** ** JSON values and the Python operations applied to them *)

Module PyJson.

(** What [json.loads] returns: [None], [bool], [int], [str], [list],
    [dict]. Numbers are the integers (a JSON number with a fraction or
    an exponent is a Python [float], which no claim below inspects).
    A [dict] keeps its items in insertion order; [json.loads] leaves one
    item per key. *)
#[warnings="-register-all"]
Inductive json : Type :=
| JNull
| JBool (b : bool)
| JNum (n : Z)
| JStr (s : string)
| JArr (items : list json)
| JObj (fields : list (string * json)).

(** Exceptions, by the class the handlers of the module tell apart and
    with the text [str(e)] gives. *)
Inductive exn_class : Type :=
| GoneException
| JSONDecodeError
| KeyError
| AttributeError
| TypeError
| ValueError
| UnboundLocalError
| UnicodeDecodeError
| RequestException
| JWTError
| ClientError
| PlainException.

Record exn : Type := Exn { exn_cls : exn_class; exn_str : string }.

Inductive result (A : Type) : Type :=
| Ok (a : A)
| Raise (e : exn).
Arguments Ok {A} a.
Arguments Raise {A} e.

Definition lookup_field (k : string) (fields : list (string * json)) : option json :=
  match List.find (fun kv => String.eqb (fst kv) k) fields with
  | Some kv => Some (snd kv)
  | None => None
  end.

(** [type(v).__name__] *)
Definition type_name (v : json) : string :=
  match v with
  | JNull => "NoneType"
  | JBool _ => "bool"
  | JNum _ => "int"
  | JStr _ => "str"
  | JArr _ => "list"
  | JObj _ => "dict"
  end.

(** [bool(v)] *)
Definition truthy (v : json) : bool :=
  match v with
  | JNull => false
  | JBool b => b
  | JNum n => negb (n =? 0)%Z
  | JStr s => negb (String.eqb s EmptyString)
  | JArr items => match items with [] => false | _ => true end
  | JObj fields => match fields with [] => false | _ => true end
  end.

Definition truthy_opt (v : option json) : bool :=
  match v with Some x => truthy x | None => false end.

Definition is_str (v : json) (s : string) : bool :=
  match v with JStr t => String.eqb t s | _ => false end.

(** [k in v] for a [str] [k]: key of a dict, element of a list, substring
    of a str; the other types are not containers. *)
Definition py_in (k : string) (v : json) : result bool :=
  match v with
  | JObj fields =>
      Ok (match lookup_field k fields with Some _ => true | None => false end)
  | JArr items => Ok (existsb (fun x => is_str x k) items)
  | JStr s => Ok (contains (list_ascii_of_string k) (list_ascii_of_string s))
  | _ => Raise (Exn TypeError
                  ("argument of type '" +:+ type_name v +:+ "' is not iterable"))
  end.

(** [v.get(k)]: only a dict has the method. *)
Definition py_get (v : json) (k : string) : result (option json) :=
  match v with
  | JObj fields => Ok (lookup_field k fields)
  | _ => Raise (Exn AttributeError
                  ("'" +:+ type_name v +:+ "' object has no attribute 'get'"))
  end.

(** [v.get(k, default)] *)
Definition py_get_default (v : json) (k : string) (default : json) : result json :=
  match py_get v k with
  | Ok (Some x) => Ok x
  | Ok None => Ok default
  | Raise e => Raise e
  end.

(** ** [str()] and [json.dumps] *)

Definition hex_digit (n : nat) : ascii :=
  match n with
  | 0 => "0" | 1 => "1" | 2 => "2" | 3 => "3" | 4 => "4"
  | 5 => "5" | 6 => "6" | 7 => "7" | 8 => "8" | 9 => "9"
  | 10 => "a" | 11 => "b" | 12 => "c" | 13 => "d" | 14 => "e"
  | _ => "f"
  end%char.

Definition hex2 (c : ascii) : string :=
  let n := nat_of_ascii c in
  String (hex_digit (n / 16)) (String (hex_digit (n mod 16)) EmptyString).

Definition backslash : ascii := "092"%char.
Definition dquote : ascii := "034"%char.
Definition squote : ascii := "039"%char.

Definition esc (c : ascii) : string := String backslash (String c EmptyString).

(** One character inside a [json.dumps] string ([ensure_ascii=True]). *)
Definition json_escape_char (c : ascii) : string :=
  let n := nat_of_ascii c in
  if Ascii.eqb c dquote then esc dquote
  else if Ascii.eqb c backslash then esc backslash
  else if Nat.eqb n 10 then esc "n"
  else if Nat.eqb n 13 then esc "r"
  else if Nat.eqb n 9 then esc "t"
  else if Nat.eqb n 8 then esc "b"
  else if Nat.eqb n 12 then esc "f"
  else if Nat.ltb n 32 || Nat.leb 127 n then esc "u" +:+ "00" +:+ hex2 c
  else String c EmptyString.

Fixpoint concat_map_chars (f : ascii -> string) (s : string) : string :=
  match s with
  | EmptyString => EmptyString
  | String c s' => f c +:+ concat_map_chars f s'
  end.

Definition json_quote (s : string) : string :=
  String dquote (concat_map_chars json_escape_char s) +:+ String dquote EmptyString.

Fixpoint has_char (c : ascii) (s : string) : bool :=
  match s with
  | EmptyString => false
  | String d s' => Ascii.eqb c d || has_char c s'
  end.

(** One character inside [repr()] of a [str] quoted with [q]. *)
Definition repr_escape_char (q c : ascii) : string :=
  let n := nat_of_ascii c in
  if Ascii.eqb c backslash then esc backslash
  else if Ascii.eqb c q then esc q
  else if Nat.eqb n 10 then esc "n"
  else if Nat.eqb n 13 then esc "r"
  else if Nat.eqb n 9 then esc "t"
  else if Nat.ltb n 32 || (Nat.leb 127 n && Nat.leb n 160) || Nat.eqb n 173
       then esc "x" +:+ hex2 c
  else String c EmptyString.

(** [repr(s)] of a [str]: single quotes unless the text has a single quote
    and no double quote. *)
Definition repr_str (s : string) : string :=
  let q := if has_char squote s && negb (has_char dquote s) then dquote else squote in
  String q (concat_map_chars (repr_escape_char q) s) +:+ String q EmptyString.

Definition str_of_int (n : Z) : string := pretty n.

Section Separated.
Context {A : Type} (show : A -> string) (sep : string).

(** [sep.join(show(x) for x in l)] *)
Fixpoint separated (l : list A) : string :=
  match l with
  | [] => EmptyString
  | x :: r =>
      match r with
      | [] => show x
      | _ => show x +:+ sep +:+ separated r
      end
  end.

End Separated.

(** [repr(v)] *)
Fixpoint py_repr (v : json) : string :=
  match v with
  | JNull => "None"
  | JBool true => "True"
  | JBool false => "False"
  | JNum n => str_of_int n
  | JStr s => repr_str s
  | JArr items => "[" +:+ separated py_repr ", " items +:+ "]"
  | JObj fields =>
      "{" +:+ separated (fun kv => repr_str (fst kv) +:+ ": " +:+ py_repr (snd kv))
                ", " fields +:+ "}"
  end.

(** [str(v)] *)
Definition py_str (v : json) : string :=
  match v with
  | JStr s => s
  | _ => py_repr v
  end.

(** [json.dumps(v)] with the default separators. *)
Fixpoint json_dumps (v : json) : string :=
  match v with
  | JNull => "null"
  | JBool true => "true"
  | JBool false => "false"
  | JNum n => str_of_int n
  | JStr s => json_quote s
  | JArr items => "[" +:+ separated json_dumps ", " items +:+ "]"
  | JObj fields =>
      "{" +:+ separated (fun kv => json_quote (fst kv) +:+ ": " +:+ json_dumps (snd kv))
                ", " fields +:+ "}"
  end.

(** [v[k]] for a [str] [k] *)
Definition py_getitem (v : json) (k : string) : result json :=
  match v with
  | JObj fields =>
      match lookup_field k fields with
      | Some x => Ok x
      | None => Raise (Exn KeyError (repr_str k))
      end
  | JArr _ => Raise (Exn TypeError "list indices must be integers or slices, not str")
  | JStr _ => Raise (Exn TypeError "string indices must be integers, not 'str'")
  | _ => Raise (Exn TypeError
                  ("'" +:+ type_name v +:+ "' object is not subscriptable"))
  end.

(** [a == b] on these values; [True == 1] and [False == 0] as in Python. *)
Definition as_int (v : json) : option Z :=
  match v with
  | JNum n => Some n
  | JBool true => Some 1%Z
  | JBool false => Some 0%Z
  | _ => None
  end.

Fixpoint py_eq (a b : json) {struct a} : bool :=
  match a, b with
  | JNull, JNull => true
  | JStr s, JStr t => String.eqb s t
  | JArr xs, JArr ys =>
      (fix all2 (l : list json) (r : list json) {struct l} : bool :=
         match l, r with
         | [], [] => true
         | x :: l', y :: r' => py_eq x y && all2 l' r'
         | _, _ => false
         end) xs ys
  | JObj fs, JObj gs =>
      Nat.eqb (length fs) (length gs) &&
      (fix sub (l : list (string * json)) {struct l} : bool :=
         match l with
         | [] => true
         | (k, x) :: l' =>
             match lookup_field k gs with
             | Some y => py_eq x y && sub l'
             | None => false
             end
         end) fs
  | _, _ =>
      match as_int a, as_int b with
      | Some m, Some n => (m =? n)%Z
      | _, _ => false
      end
  end.

End PyJson.

Import PyJson.

(** ** The world of the handler and its collaborators *)

(** Module-level configuration read from [os.environ]. [None] is an unset
    variable. *)
Record config : Type := {
  REGION : string;
  USER_POOL_ID : string;
  CLIENT_ID : string;
  BEDROCK_AGENT_ID : option string;
  BEDROCK_AGENT_ALIAS_ID : option string;
  STRANDS_AGENT_ID : option string;
  STRANDS_AGENT_ALIAS_ID : option string;
  WORK_ORDERS_TABLE_NAME : option string
}.

(** [bool(x)] and [f"{x}"] of an [Optional[str]]. *)
Definition set_str (x : option string) : bool :=
  match x with
  | Some s => negb (String.eqb s EmptyString)
  | None => false
  end.

Definition fmt_opt (x : option string) : string :=
  match x with Some s => s | None => "None" end.

(** An item of the connection table and the two attributes this module
    writes on a work order. *)
Record connection : Type := { ttl : Z; timestamp : string }.
Record safety_check : Type := {
  safetyCheckResponse : string;
  safetyCheckPerformedAt : string
}.

(** One reading of the clock, in the three renderings the module uses:
    [datetime.now().isoformat()], [str(datetime.now())],
    [int(time.time())]. *)
Record instant : Type := { now_iso : string; now_str : string; now_epoch : Z }.

(** A unit of the streaming backend's response: [{'chunk': {'bytes': ...}}]
    and/or [{'trace': ...}]. The bytes are the UTF-8 encoding of a text, or
    are not valid UTF-8. *)
Inductive py_bytes : Type :=
| Utf8 (decoded : string)
| NotUtf8 (reason : string).

Record chunk_t : Type := { bytes : option py_bytes }.
Record event_item : Type := { chunk : option chunk_t; trace : option json }.

(** The iterator [response['completion']]: the units it yields and the
    exception it raises after them, if any. *)
Record event_stream : Type := {
  units : list event_item;
  failure : option exn
}.

(** Calls that leave the process, with their arguments. [PostToConnection]
    keeps the value handed to [json.dumps] rather than its rendering. *)
Inductive call : Type :=
| PostToConnection (endpoint_url connection_id : string) (data : json)
| PutItem (connection_id : string) (item : connection)
| DeleteItem (connection_id : string)
| UpdateItem (work_order_id : json) (values : safety_check)
| InvokeAgent (input_params : json)
| LambdaInvoke (function_name : option string) (payload : string)
| RequestsGet (url : string).

Inductive log_level : Type := ERROR | WARNING.

(** State: the connection registry, the safety-check attributes of the
    work-order table, the calls made so far (oldest first), the
    [logger.error]/[logger.warning] lines (info-level lines and tracebacks
    are not kept), and the number of clock and uuid draws. *)
Record world : Type := {
  registry : gmap string connection;
  work_orders : gmap string safety_check;
  calls : list call;
  logged : list (log_level * string);
  draws : nat
}.

(** The collaborators. An outcome indexed by [nat] is the outcome of the
    call made when that many calls had been made before it; [None] is a
    call that returns normally. *)
Record env : Type := {
  clock : nat -> instant;
  uuid4 : nat -> string;
  json_loads : string -> option json;
  json_error : string -> string;
  post_to_connection : nat -> option exn;
  put_item : nat -> option exn;
  delete_item : nat -> option exn;
  update_item : nat -> option exn;
  invoke_agent : nat -> result event_stream;
  lambda_invoke : nat -> result string;
  requests_get : nat -> result json;
  jwt_get_unverified_header : string -> result json;
  jwt_decode : string -> json -> result json
}.

(** The event of the WebSocket transport, as API Gateway delivers it. *)
Record request_context : Type := {
  routeKey : option string;
  connectionId : option string;
  domainName : option string;
  stage : option string
}.

Record event : Type := {
  requestContext : option request_context;
  body : option string
}.

Record http_response : Type := { statusCode : Z; response_body : string }.

(** The [apigatewaymanagementapi] client. *)
Record api_client : Type := { endpoint_url : string }.

(** ** State and exceptions *)

Definition M (A : Type) : Type := world -> result A * world.

Definition ret {A} (a : A) : M A := fun w => (Ok a, w).

Definition bind {A B} (m : M A) (k : A -> M B) : M B :=
  fun w =>
    match m w with
    | (Ok a, w') => k a w'
    | (Raise e, w') => (Raise e, w')
    end.

Definition raise {A} (e : exn) : M A := fun w => (Raise e, w).

(** [try: m  except Exception as e: h e] *)
Definition try_catch {A} (m : M A) (h : exn -> M A) : M A :=
  fun w =>
    match m w with
    | (Ok a, w') => (Ok a, w')
    | (Raise e, w') => h e w'
    end.

(** A [try] block cut after [m]: [h] is the [except] block for an
    exception of [m], [k] the rest of the block. *)
Definition guard {A B} (m : M A) (h : exn -> M B) (k : A -> M B) : M B :=
  fun w =>
    match m w with
    | (Ok a, w') => k a w'
    | (Raise e, w') => h e w'
    end.

Definition lift {A} (r : result A) : M A := fun w => (r, w).

Declare Scope py_scope.
Delimit Scope py_scope with py.
Notation "x <- m ;; k" := (bind m (fun x => k))
  (at level 100, m at next level, right associativity) : py_scope.
Notation "m ;; k" := (bind m (fun _ => k))
  (at level 100, right associativity) : py_scope.
Local Open Scope py_scope.

Definition with_calls (c : call) (w : world) : world :=
  {| registry := registry w; work_orders := work_orders w;
     calls := calls w ++ [c]; logged := logged w; draws := draws w |}.

Definition with_registry (r : gmap string connection) (w : world) : world :=
  {| registry := r; work_orders := work_orders w;
     calls := calls w; logged := logged w; draws := draws w |}.

Definition with_work_orders (s : gmap string safety_check) (w : world) : world :=
  {| registry := registry w; work_orders := s;
     calls := calls w; logged := logged w; draws := draws w |}.

Definition log (level : log_level) (message : string) : M unit :=
  fun w =>
    (Ok tt, {| registry := registry w; work_orders := work_orders w;
               calls := calls w; logged := logged w ++ [(level, message)];
               draws := draws w |}).

Definition logger_error : string -> M unit := log ERROR.
Definition logger_warning : string -> M unit := log WARNING.

Definition next_draw (w : world) : world :=
  {| registry := registry w; work_orders := work_orders w;
     calls := calls w; logged := logged w; draws := S (draws w) |}.

Section Handler.

Variable E : env.
Variable cfg : config.

(** [datetime.now()] / [time.time()] and [str(uuid.uuid4())] *)
Definition now : M instant := fun w => (Ok (clock E (draws w)), next_draw w).
Definition uuid : M string := fun w => (Ok (uuid4 E (draws w)), next_draw w).

(** [json.loads(s)] for a [str] *)
Definition loads (s : string) : M json :=
  match json_loads E s with
  | Some v => ret v
  | None => raise (Exn JSONDecodeError (json_error E s))
  end.

(** [json.loads(v)] for a value that may not be a [str] *)
Definition loads_value (v : json) : M json :=
  match v with
  | JStr s => loads s
  | _ => raise (Exn TypeError
                  ("the JSON object must be str, bytes or bytearray, not "
                   +:+ type_name v))
  end.

(** An outbound call: it is recorded, then it returns or raises as the
    collaborator decides. *)
Definition outbound (c : call) (outcome : nat -> option exn) (effect : world -> world)
  : M unit :=
  fun w =>
    let w' := with_calls c w in
    match outcome (length (calls w)) with
    | None => (Ok tt, effect w')
    | Some e => (Raise e, w')
    end.

Definition outbound_value {A} (c : call) (outcome : nat -> result A) : M A :=
  fun w => (outcome (length (calls w)), with_calls c w).

(** [api_gateway_management.post_to_connection(ConnectionId=, Data=)] *)
Definition api_post_to_connection (api : api_client) (connection_id : string)
    (data : json) : M unit :=
  outbound (PostToConnection (endpoint_url api) connection_id data)
           (post_to_connection E) (fun w => w).

(** [ws_connection_table.put_item(Item=...)] *)
Definition table_put_item (connection_id : string) (item : connection) : M unit :=
  outbound (PutItem connection_id item) (put_item E)
           (fun w => with_registry (<[connection_id := item]> (registry w)) w).

(** [ws_connection_table.delete_item(Key={'connectionId': ...})] *)
Definition table_delete_item (connection_id : string) : M unit :=
  outbound (DeleteItem connection_id) (delete_item E)
           (fun w => with_registry (delete connection_id (registry w)) w).

(** [work_orders_table.update_item(Key={'work_order_id': ...}, ...)]: the
    partition key of the table is a string; another type of key is
    rejected by the store. *)
Definition table_update_item (work_order_id : json) (values : safety_check) : M unit :=
  match work_order_id with
  | JStr k =>
      outbound (UpdateItem work_order_id values) (update_item E)
               (fun w => with_work_orders (<[k := values]> (work_orders w)) w)
  | _ =>
      outbound (UpdateItem work_order_id values)
               (fun _ => Some (Exn ClientError
                  "One or more parameter values were invalid: Type mismatch for key"))
               (fun w => w)
  end.

Definition work_orders_table : bool := set_str (WORK_ORDERS_TABLE_NAME cfg).

(** [send_to_client(api_gateway_management, connection_id, message)] *)
Definition send_to_client (api : api_client) (connection_id : string)
    (message : json) : M unit :=
  try_catch
    (current_time <- now ;;
     api_post_to_connection api connection_id
       (JObj [("message", message);
              ("sender", JStr connection_id);
              ("timestamp", JStr (now_str current_time))]))
    (fun e =>
       match exn_cls e with
       | GoneException =>
           logger_warning ("Connection " +:+ connection_id
                           +:+ " is invalid (GoneException).") ;;
           try_catch
             (table_delete_item connection_id)
             (fun e' => logger_error ("Error deleting stale connection: "
                                      +:+ exn_str e'))
       | _ => logger_error ("Error sending message: " +:+ exn_str e)
       end).

(** *** Variant B: the delegating backend *)

(** Lines 216-242: the items of [strands_response['content']]. *)
Fixpoint response_content_text (content : list json) (completion : string) : string :=
  match content with
  | [] => completion
  | content_item :: rest =>
      let completion :=
        match content_item with
        | JObj fields =>
            match lookup_field "text" fields with
            | Some text_content =>
                match text_content with
                | JStr s => completion +:+ s
                | _ => completion +:+ py_str text_content
                end
            | None => completion +:+ py_str content_item
            end
        | JStr s => completion +:+ s
        | _ => completion +:+ py_str content_item
        end in
      response_content_text rest completion
  end.

(** Lines 255-266: the items of [body['content']]. *)
Fixpoint body_content_text (content : list json) (completion : string) : string :=
  match content with
  | [] => completion
  | content_item :: rest =>
      let completion :=
        match content_item with
        | JObj fields =>
            if is_str (match lookup_field "type" fields with
                       | Some t => t | None => JNull end) "text"
               && (match lookup_field "text" fields with
                   | Some _ => true | None => false end)
            then match lookup_field "text" fields with
                 | Some text_content => completion +:+ py_str text_content
                 | None => completion
                 end
            else match lookup_field "text" fields with
                 | Some text_content => completion +:+ py_str text_content
                 | None => completion
                 end
        | JStr s => completion +:+ s
        | _ => completion +:+ py_str content_item
        end in
      body_content_text rest completion
  end.

Definition is_list (v : json) : bool :=
  match v with JArr _ => true | _ => false end.

Definition list_items (v : json) : list json :=
  match v with JArr items => items | _ => [] end.

(** [k in v and isinstance(v[k], list)] *)
Definition has_list (k : string) (v : json) : result bool :=
  match py_in k v with
  | Raise e => Raise e
  | Ok false => Ok false
  | Ok true =>
      match py_getitem v k with
      | Raise e => Raise e
      | Ok x => Ok (is_list x)
      end
  end.

Definition rbind {A B} (r : result A) (k : A -> result B) : result B :=
  match r with
  | Ok a => k a
  | Raise e => Raise e
  end.

(** Lines 200-274 of [invoke_strands_agent]: the text taken from the
    parsed [body] of the delegated service's answer. *)
Definition extract_completion (body : json) : result string :=
  rbind (py_in "response" body) (fun has_response =>
  if has_response then
    rbind (py_getitem body "response") (fun strands_response =>
    match strands_response with
    | JObj _ =>
        rbind (has_list "content" strands_response) (fun content_list =>
        if content_list then
          rbind (py_getitem strands_response "content") (fun content =>
          Ok (response_content_text (list_items content) EmptyString))
        else
          rbind (py_in "message" strands_response) (fun has_message =>
          if has_message then
            rbind (py_getitem strands_response "message") (fun message_content =>
            Ok (py_str message_content))
          else Ok (json_dumps strands_response)))
    | JStr s => Ok s
    | _ => Ok (py_str strands_response)
    end)
  else
    rbind (has_list "content" body) (fun content_list =>
    if content_list then
      rbind (py_getitem body "content") (fun content =>
      Ok (body_content_text (list_items content) EmptyString))
    else
      rbind (py_in "message" body) (fun has_message =>
      if has_message then
        rbind (py_getitem body "message") (fun message_content =>
        Ok (py_str message_content))
      else Ok (json_dumps body)))).

(** [invoke_strands_agent(payload, session_id, api_gateway_management,
    connection_id)] *)
Definition invoke_strands_agent (payload : string) (session_id : json)
    (api : api_client) (connection_id : string) : M string :=
  try_catch
    (send_to_client api connection_id
       (JObj [("type", JStr "trace");
              ("content",
               JObj [("trace",
                 JObj [("orchestrationTrace",
                   JObj [("invocationInput",
                     JObj [("invocationType", JStr "STRANDS_AGENT");
                           ("text",
                            JStr "Initializing Strands Safety Supervisor Agent")])])])]);
              ("agentFramework", JStr "StrandsSDK")]) ;;
     let modified_payload :=
       JObj [("inputText", JStr payload);
             ("sessionId", session_id);
             ("connectionId", JStr connection_id);
             ("apiGatewayEndpoint", JStr (endpoint_url api));
             ("enableStreaming", JBool true)] in
     raw <- outbound_value
              (LambdaInvoke (STRANDS_AGENT_ID cfg) (json_dumps modified_payload))
              (lambda_invoke E) ;;
     response_payload <- loads raw ;;
     has_error <- lift (py_in "error" response_payload) ;;
     (if has_error : bool
      then err <- lift (py_getitem response_payload "error") ;;
           raise (Exn PlainException (py_str err))
      else ret tt) ;;
     status <- lift (py_get response_payload "statusCode") ;;
     if py_eq (match status with Some s => s | None => JNull end) (JNum 200)
     then
       raw_body <- lift (py_getitem response_payload "body") ;;
       body <- loads_value raw_body ;;
       completion <- lift (extract_completion body) ;;
       let cleaned_completion := clean_html_response completion in
       t <- now ;;
       let request_id := "ws-strands-" +:+ connection_id +:+ "-"
                         +:+ str_of_int (now_epoch t) in
       t' <- now ;;
       send_to_client api connection_id
         (JObj [("type", JStr "final");
                ("requestId", JStr request_id);
                ("status", JStr "COMPLETED");
                ("safetyCheckResponse", JStr cleaned_completion);
                ("safetyCheckPerformedAt", JStr (now_iso t'));
                ("agentFramework", JStr "StrandsSDK")]) ;;
       ret cleaned_completion
     else
       shown <- lift (py_get_default response_payload "body" (JStr "Unknown error")) ;;
       let error_msg := "Strands agent error: " +:+ py_str shown in
       logger_error error_msg ;;
       send_to_client api connection_id
         (JObj [("type", JStr "error");
                ("safetyCheckResponse", JStr error_msg);
                ("agentFramework", JStr "StrandsSDK")]) ;;
       ret error_msg)
    (fun e =>
       let error_msg := "Error invoking Strands agent: " +:+ exn_str e in
       logger_error error_msg ;;
       send_to_client api connection_id
         (JObj [("type", JStr "error");
                ("safetyCheckResponse", JStr error_msg);
                ("agentFramework", JStr "StrandsSDK")]) ;;
       ret error_msg).

(** *** Variant A: the streaming backend *)

(** [chunk['bytes'].decode('utf-8')] *)
Definition decode_utf8 (b : py_bytes) : M string :=
  match b with
  | Utf8 s => ret s
  | NotUtf8 reason => raise (Exn UnicodeDecodeError reason)
  end.

(** One turn of the loop over [response['completion']]. *)
Definition process_event (api : api_client) (connection_id : string)
    (event_item : event_item) (completion : string) : M string :=
  completion <-
    match chunk event_item with
    | Some chunk =>
        match bytes chunk with
        | Some b =>
            chunk_data <- decode_utf8 b ;;
            ret (completion +:+ chunk_data)
        | None => ret completion
        end
    | None => ret completion
    end ;;
  match trace event_item with
  | Some trace =>
      timestamp <- now ;;
      send_to_client api connection_id
        (JObj [("type", JStr "trace");
               ("content", trace);
               ("agentFramework", JStr "BedrockAgent")])
  | None => ret tt
  end ;;
  ret completion.

Fixpoint process_events (api : api_client) (connection_id : string)
    (events : list event_item) (completion : string) : M string :=
  match events with
  | [] => ret completion
  | event_item :: rest =>
      completion <- process_event api connection_id event_item completion ;;
      process_events api connection_id rest completion
  end.

(** [invoke_bedrock_agent(payload, session_id, api_gateway_management,
    connection_id)] *)
Definition invoke_bedrock_agent (payload : string) (session_id : json)
    (api : api_client) (connection_id : string) : M string :=
  try_catch
    (if negb (set_str (BEDROCK_AGENT_ID cfg)) || negb (set_str (BEDROCK_AGENT_ALIAS_ID cfg))
     then
       let error_msg :=
         "Bedrock agent IDs not configured. BEDROCK_AGENT_ID: "
         +:+ fmt_opt (BEDROCK_AGENT_ID cfg) +:+ ", BEDROCK_AGENT_ALIAS_ID: "
         +:+ fmt_opt (BEDROCK_AGENT_ALIAS_ID cfg) in
       logger_error error_msg ;;
       send_to_client api connection_id
         (JObj [("type", JStr "error");
                ("message", JStr error_msg);
                ("agentFramework", JStr "BedrockAgent")]) ;;
       ret error_msg
     else
       let input_params :=
         JObj [("inputText", JStr payload);
               ("agentId", JStr (fmt_opt (BEDROCK_AGENT_ID cfg)));
               ("agentAliasId", JStr (fmt_opt (BEDROCK_AGENT_ALIAS_ID cfg)));
               ("sessionId", session_id);
               ("enableTrace", JBool true)] in
       response <- outbound_value (InvokeAgent input_params) (invoke_agent E) ;;
       completion <- process_events api connection_id (units response) EmptyString ;;
       match failure response with
       | Some e => raise e
       | None => ret completion
       end)
    (fun e =>
       let error_msg := "Error invoking Bedrock agent: " +:+ exn_str e in
       logger_error error_msg ;;
       send_to_client api connection_id
         (JObj [("type", JStr "error");
                ("content", JStr error_msg);
                ("agentFramework", JStr "BedrockAgent")]) ;;
       ret error_msg).

(** *** Token verification *)

(** [[k for k in keys if k.get("kid") == header.get("kid")]] *)
Fixpoint matching (keys : list json) (header : json) : result (list json) :=
  match keys with
  | [] => Ok []
  | k :: rest =>
      rbind (py_get k "kid") (fun k_kid =>
      rbind (py_get header "kid") (fun kid =>
      rbind (matching rest header) (fun others =>
      Ok (if py_eq (match k_kid with Some x => x | None => JNull end)
                   (match kid with Some x => x | None => JNull end)
          then k :: others else others))))
  end.

(** [verify_token(token)]; both [except] clauses log and re-raise. *)
Definition verify_token (token : json) : M json :=
  try_catch
    (let url := "https://cognito-idp." +:+ REGION cfg +:+ ".amazonaws.com/"
                +:+ USER_POOL_ID cfg +:+ "/.well-known/jwks.json" in
     jwks <- outbound_value (RequestsGet url) (requests_get E) ;;
     keys <- lift (py_get_default jwks "keys" (JArr [])) ;;
     (if negb (truthy keys)
      then raise (Exn ValueError "No keys found in JWKS response")
      else ret tt) ;;
     header <- match token with
               | JStr t => lift (jwt_get_unverified_header E t)
               | _ => raise (Exn JWTError "Error decoding token headers.")
               end ;;
     has_kid <- (if truthy header then lift (py_in "kid" header) else ret false) ;;
     (if negb (truthy header) || negb has_kid
      then raise (Exn ValueError "Invalid token header")
      else ret tt) ;;
     key_list <- match keys with
                 | JArr items => ret items
                 | JObj _ | JStr _ =>
                     raise (Exn AttributeError "'str' object has no attribute 'get'")
                 | _ => raise (Exn TypeError
                                 ("'" +:+ type_name keys +:+ "' object is not iterable"))
                 end ;;
     matching_keys <- lift (matching key_list header) ;;
     match matching_keys with
     | [] =>
         kid <- lift (py_get header "kid") ;;
         raise (Exn ValueError
                  ("No matching key found for kid: "
                   +:+ match kid with Some x => py_str x | None => "None" end))
     | key :: _ =>
         match token with
         | JStr t => lift (jwt_decode E t key)
         | _ => raise (Exn JWTError "Error decoding token headers.")
         end
     end)
    (fun e =>
       match exn_cls e with
       | RequestException =>
           logger_error ("Error fetching JWKS: " +:+ exn_str e) ;; raise e
       | _ =>
           logger_error ("Token verification error: " +:+ exn_str e) ;; raise e
       end).

(** *** Connection lifecycle *)

Definition connected : http_response :=
  {| statusCode := 200; response_body := "Connected" |}.
Definition disconnected : http_response :=
  {| statusCode := 200; response_body := "Disconnected" |}.

(** [handle_connect(connection_id)] *)
Definition handle_connect (connection_id : string) : M http_response :=
  try_catch
    (t <- now ;;
     t' <- now ;;
     table_put_item connection_id
       {| ttl := now_epoch t + 10 * 60; timestamp := now_str t' |} ;;
     ret connected)
    (fun e =>
       logger_error ("Connection handling error: " +:+ exn_str e) ;;
       ret connected).

(** [handle_disconnect(connection_id)] *)
Definition handle_disconnect (connection_id : string) : M http_response :=
  try_catch
    (table_delete_item connection_id ;;
     ret disconnected)
    (fun e =>
       logger_error ("Disconnect handling error: " +:+ exn_str e) ;;
       ret disconnected).

(** *** Data messages *)

(** Lines 459-464: the prompt is [workOrderDetails] alone when the body
    has it. *)
Definition build_payload (event_body : json) : M string :=
  try_catch
    (workOrderDetails <- lift (py_getitem event_body "workOrderDetails") ;;
     ret (json_dumps workOrderDetails))
    (fun ex =>
       logger_error ("Error in getting work order: " +:+ exn_str ex) ;;
       ret (json_dumps event_body)).

(** Lines 478-507: the update of the work-order table. *)
Definition persist (event_body : json) (completion current_time : string) : M unit :=
  try_catch
    (has_details <- (if work_orders_table
                     then lift (py_in "workOrderDetails" event_body)
                     else ret false) ;;
     if has_details : bool then
       details <- lift (py_getitem event_body "workOrderDetails") ;;
       work_order_id <- lift (py_get details "work_order_id") ;;
       match work_order_id with
       | Some id =>
           if truthy id then
             let processed_response := extract_html_content completion in
             table_update_item id
               {| safetyCheckResponse := processed_response;
                  safetyCheckPerformedAt := current_time |}
           else logger_warning "No work_order_id found in workOrderDetails"
       | None => logger_warning "No work_order_id found in workOrderDetails"
       end
     else if negb work_orders_table
     then logger_warning "WorkOrders table not configured, skipping update"
     else logger_warning "No workOrderDetails in event body, skipping update")
    (fun table_error =>
       logger_error ("Error updating WorkOrders table: " +:+ exn_str table_error)).

(** The [except] block of [handle_message], lines 524-538. It reads two
    locals of the [try] block, each bound or not when the exception was
    raised. *)
Definition handle_message_except (api : api_client) (connection_id : string)
    (event_body : option json) (request_id : option string) (e : exn)
    : M http_response :=
  logger_error ("handle_messageerror: " +:+ exn_str e) ;;
  error_framework <-
    match event_body with
    | Some event_body =>
        lift (py_get_default event_body "agentFramework" (JStr "BedrockAgent"))
    | None => ret (JStr "BedrockAgent")
    end ;;
  request_id <-
    match request_id with
    | Some r => ret r
    | None => raise (Exn UnboundLocalError
        "cannot access local variable 'request_id' where it is not associated with a value")
    end ;;
  send_to_client api connection_id
    (JObj [("type", JStr "error");
           ("requestId", JStr request_id);
           ("status", JStr "COMPLETED");
           ("safetyCheckResponse",
            JStr ("Error in performing safety check::" +:+ exn_str e));
           ("agentFramework", error_framework)]) ;;
  ret {| statusCode := 500;
         response_body := "Failed to process message: " +:+ exn_str e |}.

(** Lines 457-522, once [event_body], [session_id] and [request_id] are
    bound. *)
Definition handle_message_main (api : api_client) (connection_id : string)
    (event_body : json) (session_id : json) : M http_response :=
  payload <- build_payload event_body ;;
  requested_framework <-
    lift (py_get_default event_body "agentFramework" (JStr "BedrockAgent")) ;;
  completion <-
    (if is_str requested_framework "StrandsSDK"
     then invoke_strands_agent payload session_id api connection_id
     else invoke_bedrock_agent payload session_id api connection_id) ;;
  t <- now ;;
  let current_time := now_iso t in
  persist event_body completion current_time ;;
  t' <- now ;;
  let request_id := "ws-" +:+ connection_id +:+ "-" +:+ str_of_int (now_epoch t') in
  send_to_client api connection_id
    (JObj [("type", JStr "final");
           ("requestId", JStr request_id);
           ("status", JStr "COMPLETED");
           ("safetyCheckResponse", JStr completion);
           ("safetyCheckPerformedAt", JStr current_time);
           ("agentFramework", requested_framework)]) ;;
  ret {| statusCode := 200; response_body := "Message sent" |}.

(** [handle_message(api_gateway_management, connection_id, event)]. The
    [try] block is cut where [event_body] and [request_id] become bound,
    so that the [except] block sees the locals Python would. *)
Definition handle_message (api : api_client) (connection_id : string)
    (event : event) : M http_response :=
  guard
    (match body event with
     | Some b => loads b
     | None => raise (Exn KeyError "'body'")
     end)
    (handle_message_except api connection_id None None)
    (fun event_body =>
  guard
    (default <- uuid ;;
     session_id <- lift (py_get_default event_body "session_id" (JStr default)) ;;
     request_id <- uuid ;;
     ret (session_id, request_id))
    (handle_message_except api connection_id (Some event_body) None)
    (fun locals =>
  guard
    (handle_message_main api connection_id event_body (fst locals))
    (handle_message_except api connection_id (Some event_body) (Some (snd locals)))
    ret)).

Definition status (code : Z) (text : string) : http_response :=
  {| statusCode := code; response_body := text |}.

(** [lambda_handler(event, context)] *)
Definition lambda_handler (event : event) : M http_response :=
  try_catch
    (match requestContext event with
     | None =>
         logger_error "Missing requestContext in event" ;;
         ret (status 400 "Invalid WebSocket event structure")
     | Some request_context =>
         let route_key := routeKey request_context in
         let connection_id := connectionId request_context in
         if negb (set_str route_key) || negb (set_str connection_id)
         then logger_error "Missing required fields in requestContext" ;;
              ret (status 400 "Missing required WebSocket fields")
         else
           let route_key := fmt_opt route_key in
           let connection_id := fmt_opt connection_id in
           if String.eqb route_key "$connect" then handle_connect connection_id
           else if String.eqb route_key "$disconnect" then handle_disconnect connection_id
           else if String.eqb route_key "$default" then
             if negb (set_str (body event))
             then logger_error "Missing or empty body in event" ;;
                  ret (status 400 "Missing request body")
             else
               guard (loads (fmt_opt (body event)))
                 (fun e =>
                    match exn_cls e with
                    | JSONDecodeError =>
                        logger_error ("Invalid JSON in body: " +:+ exn_str e) ;;
                        ret (status 400 "Invalid JSON in request body")
                    | _ => raise e
                    end)
                 (fun message =>
               messageType <- lift (py_get message "messageType") ;;
               if is_str (match messageType with Some x => x | None => JNull end)
                         "heartbeat"
               then ret (status 200
                           (json_dumps (JObj [("message",
                              JStr "Heartbeat received, no action taken")])))
               else
                 if set_str (domainName request_context)
                    && set_str (stage request_context)
                 then
                   let api_client :=
                     {| endpoint_url := "https://" +:+ fmt_opt (domainName request_context)
                                        +:+ "/" +:+ fmt_opt (stage request_context) |} in
                   token <- lift (py_get message "token") ;;
                   if negb (truthy_opt token)
                   then logger_error "Token is missing in the request" ;;
                        ret (status 403 "Token is required")
                   else
                     try_catch
                       (decoded <- verify_token
                                     (match token with Some t => t | None => JNull end) ;;
                        user_email <- lift (py_get_default decoded "email" (JStr "unknown")) ;;
                        handle_message api_client connection_id event)
                       (fun e =>
                          logger_error ("Token verification failed: " +:+ exn_str e) ;;
                          ret (status 403 "Invalid Token"))
                 else
                   logger_error "Missing domainName or stage in requestContext" ;;
                   ret (status 500 "Missing API Gateway configuration"))
           else
             logger_warning ("Unsupported route: " +:+ route_key) ;;
             ret (status 400 ("Unsupported route: " +:+ route_key))
     end)
    (fun e =>
       logger_error ("Lambda handler error: " +:+ exn_str e) ;;
       ret (status 500 ("Internal server error: " +:+ exn_str e))).

End Handler.

(** ** The weather action group *)

(** [bedrock_agents/weather_agent/index.py]: the Lambda function behind
    the weather action group of the Bedrock agent. *)
Module WeatherAgent.

Definition FUNCTION_NAMES : list string := ["weatherforecast"].

(** The items a [for] loop takes from a value: the elements of a list,
    the keys of a dict, the characters of a str. *)
Definition py_iter (v : json) : result (list json) :=
  match v with
  | JArr items => Ok items
  | JObj fields => Ok (map (fun kv => JStr (fst kv)) fields)
  | JStr s => Ok (map (fun c => JStr (String c EmptyString)) (list_ascii_of_string s))
  | _ => Raise (Exn TypeError ("'" +:+ type_name v +:+ "' object is not iterable"))
  end.

(** The three locals the loop over [parameters] assigns. *)
Record locals : Type := { lat : json; long : json; target_datetime : json }.

Definition unassigned : locals :=
  {| lat := JNull; long := JNull; target_datetime := JNull |}.

(** One turn of the loop. *)
Definition read_parameter (param : json) (l : locals) : result locals :=
  rbind (py_getitem param "name") (fun name =>
  if is_str name "lat" then
    rbind (py_getitem param "value") (fun value =>
    Ok {| lat := value; long := long l; target_datetime := target_datetime l |})
  else
    rbind (py_getitem param "name") (fun name =>
    if is_str name "long" then
      rbind (py_getitem param "value") (fun value =>
      Ok {| lat := lat l; long := value; target_datetime := target_datetime l |})
    else
      rbind (py_getitem param "name") (fun name =>
      if is_str name "target_datetime" then
        rbind (py_getitem param "value") (fun value =>
        Ok {| lat := lat l; long := long l; target_datetime := value |})
      else Ok l))).

Fixpoint read_parameters (parameters : list json) (l : locals) : result locals :=
  match parameters with
  | [] => Ok l
  | param :: rest => rbind (read_parameter param l) (read_parameters rest)
  end.

Definition missing_params (l : locals) : list string :=
  (if negb (truthy (lat l)) then ["lat"] else [])
  ++ (if negb (truthy (long l)) then ["long"] else [])
  ++ (if negb (truthy (target_datetime l)) then ["target_datetime"] else []).

Definition text_body (body : string) : json :=
  JObj [("TEXT", JObj [("body", JStr body)])].

Section Handler.

(** [weatherforecast(lat, long, target_datetime)]: the forecast service
    behind the handler. It catches its own exceptions and returns a dict
    in every case. *)
Variable weatherforecast : json -> json -> json -> json.

(** [lambda_handler(event, context)] *)
Definition lambda_handler (event : json) : result json :=
  rbind (py_getitem event "agent") (fun agent =>
  rbind (py_getitem event "actionGroup") (fun actionGroup =>
  rbind (py_getitem event "function") (fun function =>
  rbind (py_get_default event "parameters" (JArr [])) (fun parameters =>
  let responseBody := text_body "Error, no function was called" in
  rbind
    (if existsb (fun name => py_eq (JStr name) function) FUNCTION_NAMES then
       if is_str function "weatherforecast" then
         rbind (py_iter parameters) (fun items =>
         rbind (read_parameters items unassigned) (fun l =>
         if negb (truthy (lat l)) || negb (truthy (long l))
            || negb (truthy (target_datetime l))
         then
           Ok (text_body ("Missing mandatory parameter(s): "
                          +:+ String.concat ", " (missing_params l)))
         else
           let weather_response :=
             weatherforecast (lat l) (long l) (target_datetime l) in
           rbind (py_getitem weather_response "body") (fun forecast =>
           Ok (text_body ("Weather forecast for coordinates ("
                          +:+ py_str (lat l) +:+ ", " +:+ py_str (long l)
                          +:+ ") at " +:+ py_str (target_datetime l) +:+ ": "
                          +:+ py_str forecast)))))
       else Ok responseBody
     else Ok responseBody)
    (fun responseBody =>
  let action_response :=
    JObj [("actionGroup", actionGroup);
          ("function", function);
          ("functionResponse", JObj [("responseBody", responseBody)])] in
  rbind (py_getitem event "messageVersion") (fun messageVersion =>
  Ok (JObj [("response", action_response);
            ("messageVersion", messageVersion)]))))))).

End Handler.

End WeatherAgent.

(** ** Observations on a run and a concrete deployment for the examples *)

(** The frames pushed to clients, in order: the [message] member of
    each envelope handed to [post_to_connection]. *)
Definition posted (c : call) : list json :=
  match c with
  | PostToConnection _ _ (JObj fields) =>
      match lookup_field "message" fields with
      | Some m => [m]
      | None => []
      end
  | _ => []
  end.

Definition frames_of (cs : list call) : list json := flat_map posted cs.

(** The calls to the backends, the key-set endpoint and the work-order
    table, in order. *)
Definition service (c : call) : list call :=
  match c with
  | PostToConnection _ _ _ | PutItem _ _ | DeleteItem _ => []
  | _ => [c]
  end.

Definition services_of (cs : list call) : list call := flat_map service cs.

Definition frame_type (m : json) : option json :=
  match m with
  | JObj fields => lookup_field "type" fields
  | _ => None
  end.

Definition frame_field (k : string) (m : json) : option json :=
  match m with
  | JObj fields => lookup_field k fields
  | _ => None
  end.

Definition is_trace (m : json) : Prop := frame_type m = Some (JStr "trace").
Definition is_final (m : json) : Prop := frame_type m = Some (JStr "final").
Definition is_error (m : json) : Prop := frame_type m = Some (JStr "error").
Definition is_terminal (m : json) : Prop := is_final m \/ is_error m.

Definition is_terminalb (m : json) : bool :=
  match frame_type m with
  | Some t => is_str t "final" || is_str t "error"
  | None => false
  end.

Definition empty_world : world :=
  {| registry := ∅; work_orders := ∅; calls := []; logged := []; draws := 0 |}.

Definition demo_cfg : config :=
  {| REGION := "us-east-1"; USER_POOL_ID := "pool-1"; CLIENT_ID := "client-1";
     BEDROCK_AGENT_ID := Some "AGENT1"; BEDROCK_AGENT_ALIAS_ID := Some "ALIAS1";
     STRANDS_AGENT_ID := Some "strands-supervisor"; STRANDS_AGENT_ALIAS_ID := None;
     WORK_ORDERS_TABLE_NAME := Some "work-orders" |}.

Definition demo_clock (k : nat) : instant :=
  {| now_iso := "2024-05-01T10:00:00.00" +:+ pretty k;
     now_str := "2024-05-01 10:00:00.00" +:+ pretty k;
     now_epoch := 1714557600 + Z.of_nat k |}.

(** A parser that knows the documents of an example: [table] lists each
    text with its value. *)
Definition demo_loads (table : list (string * json)) (s : string) : option json :=
  lookup_field s table.

(** A deployment in which every collaborator answers: the transport
    delivers, the tables accept, the key-set endpoint serves one key and
    the token ["good"] verifies. *)
Definition demo_env (table : list (string * json)) (stream : result event_stream)
    (answer : result string) : env :=
  {| clock := demo_clock;
     uuid4 := fun k => "uuid-" +:+ pretty k;
     json_loads := demo_loads table;
     json_error := fun _ => "Expecting value: line 1 column 1 (char 0)";
     post_to_connection := fun _ => None;
     put_item := fun _ => None;
     delete_item := fun _ => None;
     update_item := fun _ => None;
     invoke_agent := fun _ => stream;
     lambda_invoke := fun _ => answer;
     requests_get := fun _ => Ok (JObj [("keys", JArr [JObj [("kid", JStr "k1")]])]);
     jwt_get_unverified_header := fun _ => Ok (JObj [("kid", JStr "k1")]);
     jwt_decode := fun t _ =>
       if String.eqb t "good" then Ok (JObj [("email", JStr "worker@example.com")])
       else Raise (Exn JWTError "Signature verification failed.") |}.

(** The same deployment with a transport and a registry that fail as
    given. *)
Definition failing_env (base : env) (post delete put : nat -> option exn) : env :=
  {| clock := clock base; uuid4 := uuid4 base;
     json_loads := json_loads base; json_error := json_error base;
     post_to_connection := post;
     put_item := put;
     delete_item := delete;
     update_item := update_item base;
     invoke_agent := invoke_agent base;
     lambda_invoke := lambda_invoke base;
     requests_get := requests_get base;
     jwt_get_unverified_header := jwt_get_unverified_header base;
     jwt_decode := jwt_decode base |}.

Definition no_stream : result event_stream :=
  Raise (Exn ClientError "An error occurred (ResourceNotFoundException)").
Definition no_answer : result string :=
  Raise (Exn ClientError "An error occurred (ResourceNotFoundException)").

Definition gone : exn := Exn GoneException "An error occurred (GoneException)".

(** A [$default] event of connection [connection_id] with the given body. *)
Definition message_event (connection_id : string) (b : string) : event :=
  {| requestContext :=
       Some {| routeKey := Some "$default"; connectionId := Some connection_id;
               domainName := Some "ws.example.com"; stage := Some "prod" |};
     body := Some b |}.

Definition lifecycle_event (route connection_id : string) : event :=
  {| requestContext :=
       Some {| routeKey := Some route; connectionId := Some connection_id;
               domainName := Some "ws.example.com"; stage := Some "prod" |};
     body := None |}.

Definition demo_api : api_client := {| endpoint_url := "https://ws.example.com/prod" |}.

(** ** Vocabulary of the properties *)

(** *** The frames of the strategies and of the dispatcher *)

(** The frame that forwards a trace event of the streaming backend. *)
Definition bedrock_trace_frame (trace : json) : json :=
  JObj [("type", JStr "trace");
        ("content", trace);
        ("agentFramework", JStr "BedrockAgent")].

(** The trace events of a run of units, in iterator order. *)
Definition trace_events (us : list event_item) : list json :=
  flat_map (fun u => match trace u with Some t => [t] | None => [] end) us.

(** The opening trace frame of the delegating variant. *)
Definition strands_init_trace : json :=
  JObj [("type", JStr "trace");
        ("content",
         JObj [("trace",
           JObj [("orchestrationTrace",
             JObj [("invocationInput",
               JObj [("invocationType", JStr "STRANDS_AGENT");
                     ("text", JStr "Initializing Strands Safety Supervisor Agent")])])])]);
        ("agentFramework", JStr "StrandsSDK")].

(** The [error] frame of the delegating variant. *)
Definition strands_error_frame (error_msg : string) : json :=
  JObj [("type", JStr "error");
        ("safetyCheckResponse", JStr error_msg);
        ("agentFramework", JStr "StrandsSDK")].

(** The [final] frame of a completed request, as [handle_message] and
    [invoke_strands_agent] build it. *)
Definition final_frame (request_id completion current_time : string)
    (requested_framework : json) : json :=
  JObj [("type", JStr "final");
        ("requestId", JStr request_id);
        ("status", JStr "COMPLETED");
        ("safetyCheckResponse", JStr completion);
        ("safetyCheckPerformedAt", JStr current_time);
        ("agentFramework", requested_framework)].

(** *** Reasoning about runs *)

(** [wp m Q w]: the run of [m] from [w] ends in a result and a world
    that satisfy [Q]. *)
Definition wp {A} (m : M A) (Q : result A -> world -> Prop) (w : world) : Prop :=
  Q (fst (m w)) (snd (m w)).

(** What a step adds to the observations of a run. *)
Record adds (w w' : world) (frames : list json) (services : list call) : Prop := {
  adds_frames : frames_of (calls w') = frames_of (calls w) ++ frames;
  adds_services : services_of (calls w') = services_of (calls w) ++ services
}.

(** *** The notifier *)

Definition envelope (connection_id : string) (message : json) (t : instant) : json :=
  JObj [("message", message); ("sender", JStr connection_id);
        ("timestamp", JStr (now_str t))].

(** *** Connection lifecycle *)

Definition stale_item : connection :=
  {| ttl := 1714558200; timestamp := "2024-05-01 10:00:00.000" |}.

(** *** Variant A: the streaming backend *)

(** The text a unit carries, and the texts of a run of units in order. *)
Definition chunk_text (u : event_item) : string :=
  match chunk u with
  | Some {| bytes := Some (Utf8 s) |} => s
  | _ => EmptyString
  end.

Fixpoint chunk_texts (us : list event_item) : string :=
  match us with
  | [] => EmptyString
  | u :: rest => chunk_text u +:+ chunk_texts rest
  end.

(** The trace frames of a run of units, in order. *)
Definition trace_frames (us : list event_item) : list json :=
  flat_map (fun u => match trace u with
                     | Some t => [bedrock_trace_frame t]
                     | None => []
                     end) us.

(** Every chunk of the units is the encoding of a text. *)
Definition decodable (u : event_item) : Prop :=
  match chunk u with
  | Some {| bytes := Some (NotUtf8 _) |} => False
  | _ => True
  end.


Definition demo_stream : event_stream :=
  {| units :=
       [ {| chunk := Some {| bytes := Some (Utf8 "<div>") |}; trace := None |};
         {| chunk := None;
            trace := Some (JObj [("orchestrationTrace", JStr "calling weather agent")]) |};
         {| chunk := Some {| bytes := Some (Utf8 "Report") |}; trace := None |};
         {| chunk := Some {| bytes := Some (Utf8 "</div>") |}; trace := None |} ];
     failure := None |}.

(** *** Frames of the two strategies, whatever the collaborators do *)

(** What a strategy may add to the observations: trace frames, then at
    most one terminal frame of its own, and at most one call, to its
    backend. *)
Definition backend_call (c : call) : Prop :=
  match c with
  | InvokeAgent _ | LambdaInvoke _ _ => True
  | _ => False
  end.

Definition streaming_call (c : call) : Prop :=
  match c with InvokeAgent _ => True | _ => False end.

Definition delegating_call (c : call) : Prop :=
  match c with LambdaInvoke _ _ => True | _ => False end.

(** Variant A: trace frames, then an [error] frame when it fails; the
    only backend called is the streaming one. *)
Definition variant_a_emits (fs : list json) (sv : list call) : Prop :=
  exists traces terminal,
    fs = traces ++ terminal /\
    Forall is_trace traces /\
    (terminal = [] \/ exists m, terminal = [m] /\ is_error m) /\
    Forall streaming_call sv.

(** Variant B: its opening trace frame, then its own [final] frame on
    success or its [error] frame on failure. *)
Definition variant_b_emits (fs : list json) (sv : list call) : Prop :=
  exists m,
    fs = [strands_init_trace; m] /\
    is_terminal m /\
    frame_field "agentFramework" m = Some (JStr "StrandsSDK") /\
    Forall delegating_call sv.

Definition strategy_emits (fs : list json) (sv : list call) : Prop :=
  exists traces terminal,
    fs = traces ++ terminal /\
    Forall is_trace traces /\
    Forall is_terminal terminal /\
    length terminal <= 1 /\
    Forall backend_call sv.

(** *** Persistence and the dispatcher *)

(** The requested framework: [event_body.get('agentFramework',
    'BedrockAgent')]. *)
Definition requested_framework (fields : list (string * json)) : json :=
  match lookup_field "agentFramework" fields with
  | Some v => v
  | None => JStr "BedrockAgent"
  end.

(** The strategy the dispatcher runs for a requested framework. *)
Definition selected_strategy (E : env) (cfg : config) (requested : json)
    (payload : string) (session_id : json) (api : api_client)
    (connection_id : string) : M string :=
  if is_str requested "StrandsSDK"
  then invoke_strands_agent E cfg payload session_id api connection_id
  else invoke_bedrock_agent E cfg payload session_id api connection_id.

(** [event_body.get('session_id', str(uuid.uuid4()))] *)
Definition session_of (fields : list (string * json)) (default : string) : json :=
  match lookup_field "session_id" fields with
  | Some v => v
  | None => JStr default
  end.

Definition count_terminal (frames : list json) : nat :=
  length (List.filter is_terminalb frames).

(** *** Terminal frames of a processed request *)

Definition strands_body : json :=
  JObj [("sessionId", JStr "s-1");
        ("response",
         JObj [("role", JStr "assistant");
               ("content", JArr [JObj [("text", JStr "<div>Report</div>")]])]);
        ("framework", JStr "StrandsSDK")].

Definition strands_answer : json :=
  JObj [("statusCode", JNum 200); ("body", JStr (json_dumps strands_body))].

Definition request_via (framework : string) : json :=
  JObj [("token", JStr "good");
        ("agentFramework", JStr framework);
        ("workOrderDetails",
         JObj [("work_order_id", JStr "WO1"); ("location_name", JStr "Site1")])].

Definition forged_request : json :=
  JObj [("token", JStr "forged"); ("agentFramework", JStr "StrandsSDK")].

Definition demo_documents : list (string * json) :=
  [(json_dumps (request_via "StrandsSDK"), request_via "StrandsSDK");
   (json_dumps forged_request, forged_request);
   (json_dumps (request_via "Foo"), request_via "Foo");
   (json_dumps strands_answer, strands_answer);
   (json_dumps strands_body, strands_body);
   ("[1]", JArr [JNum 1])].

Definition demo_deployment : env :=
  demo_env demo_documents (Ok demo_stream) (Ok (json_dumps strands_answer)).

(** *** Which backend the terminal frame names *)

(** The backend a call goes to. *)
Definition served_by (c : call) : list string :=
  match c with
  | InvokeAgent _ => ["BedrockAgent"]
  | LambdaInvoke _ _ => ["StrandsSDK"]
  | _ => []
  end.

(** *** Unauthenticated messages *)

(** A text received on the [$default] route of a connection: the body of
    the event is not empty and parses to the value [v]. *)
Record inbound_text (E : env) (event : event) (rc : request_context)
    (connection_id b : string) (v : json) : Prop := {
  in_context : requestContext event = Some rc;
  in_route : routeKey rc = Some "$default";
  in_connection : connectionId rc = Some connection_id;
  in_connection_set : set_str (Some connection_id) = true;
  in_body : body event = Some b;
  in_body_set : set_str (Some b) = true;
  in_parsed : json_loads E b = Some v
}.

(** A data message: a text of the [$default] route, with the push
    endpoint of its connection, that is a JSON object and not a
    heartbeat. *)
Definition data_message (E : env) (event : event) (rc : request_context)
    (connection_id b : string) (fields : list (string * json)) : Prop :=
  inbound_text E event rc connection_id b (JObj fields) /\
  set_str (domainName rc) && set_str (stage rc) = true /\
  is_str (match lookup_field "messageType" fields with
          | Some x => x
          | None => JNull
          end) "heartbeat" = false.

(** The token of the message is missing (absent or empty) or fails
    verification. *)
Definition token_rejected (E : env) (cfg : config) (fields : list (string * json))
    (w : world) : Prop :=
  match lookup_field "token" fields with
  | None => True
  | Some token =>
      truthy token = false \/
      exists e, fst (verify_token E cfg token w) = Raise e
  end.

(** *** Containment of exceptions *)

Definition is_object (v : json) : bool :=
  match v with JObj _ => true | _ => false end.

Definition except_frame (request_id : string) (e : exn) (framework : json) : json :=
  JObj [("type", JStr "error");
        ("requestId", JStr request_id);
        ("status", JStr "COMPLETED");
        ("safetyCheckResponse",
         JStr ("Error in performing safety check::" +:+ exn_str e));
        ("agentFramework", framework)].

(** *** Variant B: extraction of the final text *)

Fixpoint concat_texts (texts : list string) : string :=
  match texts with
  | [] => EmptyString
  | s :: rest => s +:+ concat_texts rest
  end.

Definition text_item (s : string) : json := JObj [("text", JStr s)].

(** *** The HTML cleaner *)

(** The last character of [s] satisfies [p]. *)
Fixpoint last_is (p : ascii -> bool) (s : text) : bool :=
  match s with
  | [] => false
  | c :: s' => match s' with [] => p c | _ => last_is p s' end
  end.

(** The first character of [s] satisfies [p]. *)
Definition first_is (p : ascii -> bool) (s : text) : bool :=
  match s with
  | [] => false
  | c :: _ => p c
  end.

(** Every whitespace character of [s] is a space, and no two of them
    are adjacent. *)
Fixpoint tidy (s : text) : bool :=
  match s with
  | [] => true
  | c :: s' =>
      (if isspace c then Ascii.eqb c " " && negb (first_is isspace s') else true)
      && tidy s'
  end.

Definition nows (s : text) : bool := forallb (fun c => negb (isspace c)) s.

Definition is_lt (c : ascii) : bool := Ascii.eqb c "<".

(** *** Earliest start *)

Definition start_step (s : text) (start_index : Z) (pattern : text) : Z :=
  let index := find pattern s in
  if (index =? -1)%Z then start_index
  else if (start_index =? -1)%Z || (index <? start_index)%Z
       then index else start_index.

(** A text is anchored when one of the start patterns opens it or none
    occurs in it. *)
Definition anchored (s : text) : Prop :=
  (exists p, In p html_start_patterns /\ startswith p s = true) \/
  Forall (fun p => find_opt p s = None) html_start_patterns.

(** *** The last closing tag *)

Definition is_gt (c : ascii) : bool := Ascii.eqb c ">".

(** *** The pipeline *)

(** The text the cleaner returns is settled: it opens with ["<"] unless
    it is empty, it is tidy and does not end with whitespace, it is
    anchored, and the last closing tag, if there is one, ends it. *)
Record settled (y : text) : Prop := {
  settled_first : y = [] \/ first_is is_lt y = true;
  settled_tidy : tidy y = true;
  settled_last : last_is isspace y = false;
  settled_anchor : anchored y;
  settled_tag : search_last_tag y = None \/ search_last_tag y = Some (length y)
}.

Definition noise : text := T "}])" ++ ["034"%char; "'"%char].

Definition has_literal_newline (s : string) : bool :=
  contains (T "\n") (list_ascii_of_string s).

Definition ends_with_noise (s : string) : bool :=
  last_is (among noise) (list_ascii_of_string s).

(** *** Further vocabulary *)

(** [m] is a block of [s]: it opens with [open], ends with [close], and
    that [close] is the first one after the opening tag. *)
Definition block_of (open close s m : text) : Prop :=
  exists pre mid post,
    s = pre ++ m ++ post /\
    m = open ++ mid ++ close /\
    find_opt close (mid ++ close) = Some (length mid).

(** [p] occurs in [s] at offset [i]. *)
Definition occurs_at (p s : text) (i : nat) : Prop :=
  exists a b, s = a ++ p ++ b /\ length a = i.

(** [s] holds an [open] with a [close] somewhere after it. *)
Definition has_block (open close s : text) : Prop :=
  exists a mid b, s = a ++ open ++ mid ++ close ++ b.

(** [m] is the leftmost block of [s]: it starts at the first occurrence
    of [open] in [s] and ends with the first [close] after that opening
    tag. *)
Definition leftmost_block (open close s m : text) : Prop :=
  exists pre mid post,
    s = pre ++ m ++ post /\
    m = open ++ mid ++ close /\
    (forall i, i < length pre -> ~ occurs_at open s i) /\
    (forall j, j < length mid -> ~ occurs_at close (mid ++ close) j).

(** Plain text in the cleaner's normal form: not empty, no ["<"], tidy,
    no whitespace, quote or closing bracket at either end where the
    cleaner strips them, and no literal backslash-n. *)
Definition plain (x : text) : bool :=
  negb (Nat.eqb (length x) 0) && no_lt x && tidy x
  && negb (first_is isspace x) && negb (last_is isspace x)
  && negb (first_is (among ["034"%char; "'"%char]) x)
  && negb (last_is (among noise) x)
  && negb (contains (T "\n") x).

(** [message.get('messageType') == 'heartbeat'] *)
Definition is_heartbeat (fields : list (string * json)) : bool :=
  is_str (match lookup_field "messageType" fields with
          | Some x => x
          | None => JNull
          end) "heartbeat".

(** The events [lambda_handler] refuses before it looks at the token,
    with the status and the text of its answer. *)
Inductive refused (E : env) (event : event) : Z -> string -> Prop :=
| refused_without_context :
    requestContext event = None ->
    refused E event 400 "Invalid WebSocket event structure"
| refused_without_route rc :
    requestContext event = Some rc ->
    set_str (routeKey rc) && set_str (connectionId rc) = false ->
    refused E event 400 "Missing required WebSocket fields"
| refused_route rc route :
    requestContext event = Some rc ->
    routeKey rc = Some route ->
    set_str (routeKey rc) && set_str (connectionId rc) = true ->
    String.eqb route "$connect" = false ->
    String.eqb route "$disconnect" = false ->
    String.eqb route "$default" = false ->
    refused E event 400 ("Unsupported route: " +:+ route)
| refused_without_body rc :
    requestContext event = Some rc ->
    routeKey rc = Some "$default" ->
    set_str (connectionId rc) = true ->
    set_str (body event) = false ->
    refused E event 400 "Missing request body"
| refused_unparsed rc b :
    requestContext event = Some rc ->
    routeKey rc = Some "$default" ->
    set_str (connectionId rc) = true ->
    body event = Some b ->
    set_str (Some b) = true ->
    json_loads E b = None ->
    refused E event 400 "Invalid JSON in request body"
| refused_without_endpoint rc connection_id b fields :
    inbound_text E event rc connection_id b (JObj fields) ->
    is_heartbeat fields = false ->
    set_str (domainName rc) && set_str (stage rc) = false ->
    refused E event 500 "Missing API Gateway configuration".

(** The push client [lambda_handler] builds for a connection. *)
Definition api_of (rc : request_context) : api_client :=
  {| endpoint_url := "https://" +:+ fmt_opt (domainName rc)
                     +:+ "/" +:+ fmt_opt (stage rc) |}.

Definition status_codes : list Z := [200; 400; 403; 500]%Z.

Definition answers_with (codes : list Z) (r : result http_response) : Prop :=
  match r with
  | Ok response => In (statusCode response) codes
  | Raise _ => False
  end.

(** The line [verify_token] logs before it re-raises [e]. *)
Definition verification_log (e : exn) : log_level * string :=
  (ERROR,
   match exn_cls e with
   | RequestException => "Error fetching JWKS: " +:+ exn_str e
   | _ => "Token verification error: " +:+ exn_str e
   end).

Definition jwks_url (cfg : config) : string :=
  "https://cognito-idp." +:+ REGION cfg +:+ ".amazonaws.com/"
  +:+ USER_POOL_ID cfg +:+ "/.well-known/jwks.json".

(** *** What a run leaves as it was *)

(** Every run of [m] relates the world it starts in to the world it
    ends in by [R]. *)
Definition preserves {A} (R : world -> world -> Prop) (m : M A) : Prop :=
  forall w, R w (snd (m w)).

(** The registry entry of connection [other] is as it was. *)
Definition entry_kept (other : string) (w w' : world) : Prop :=
  registry w' !! other = registry w !! other.

(** The stored safety check of work order [k] is as it was. *)
Definition work_order_kept (k : string) (w w' : world) : Prop :=
  work_orders w' !! k = work_orders w !! k.

(** [event_body['workOrderDetails'].get('work_order_id')], where the
    body is an object and has the details. *)
Definition work_order_id_of (event_body : json) : option json :=
  match event_body with
  | JObj fields =>
      match lookup_field "workOrderDetails" fields with
      | Some (JObj details) => lookup_field "work_order_id" details
      | _ => None
      end
  | _ => None
  end.

(** The work order a request names: the one of its parsed body. *)
Definition work_order_of (E : env) (event : event) : option json :=
  match body event with
  | Some b =>
      match json_loads E b with
      | Some event_body => work_order_id_of event_body
      | None => None
      end
  | None => None
  end.

(** The connection a request comes from. *)
Definition connection_of (event : event) : option string :=
  match requestContext event with
  | Some rc => connectionId rc
  | None => None
  end.

(** *** The calls to the two backends *)

(** [input_params] of [invoke_bedrock_agent]. *)
Definition agent_request (cfg : config) (payload : string) (session_id : json) : call :=
  InvokeAgent
    (JObj [("inputText", JStr payload);
           ("agentId", JStr (fmt_opt (BEDROCK_AGENT_ID cfg)));
           ("agentAliasId", JStr (fmt_opt (BEDROCK_AGENT_ALIAS_ID cfg)));
           ("sessionId", session_id);
           ("enableTrace", JBool true)]).

(** The invocation of the delegated service by [invoke_strands_agent]. *)
Definition delegated_request (cfg : config) (payload : string) (session_id : json)
    (api : api_client) (connection_id : string) : call :=
  LambdaInvoke (STRANDS_AGENT_ID cfg)
    (json_dumps
       (JObj [("inputText", JStr payload);
              ("sessionId", session_id);
              ("connectionId", JStr connection_id);
              ("apiGatewayEndpoint", JStr (endpoint_url api));
              ("enableStreaming", JBool true)])).

Definition agent_configured (cfg : config) : bool :=
  set_str (BEDROCK_AGENT_ID cfg) && set_str (BEDROCK_AGENT_ALIAS_ID cfg).

Definition unconfigured_message (cfg : config) : string :=
  "Bedrock agent IDs not configured. BEDROCK_AGENT_ID: "
  +:+ fmt_opt (BEDROCK_AGENT_ID cfg) +:+ ", BEDROCK_AGENT_ALIAS_ID: "
  +:+ fmt_opt (BEDROCK_AGENT_ALIAS_ID cfg).

(** The [error] frame of Variant A when the call or the iteration fails. *)
Definition bedrock_error_frame (error_msg : string) : json :=
  JObj [("type", JStr "error");
        ("content", JStr error_msg);
        ("agentFramework", JStr "BedrockAgent")].

(** How the streaming backend can fail: the call raises; the iterator
    raises after its units; a chunk is not UTF-8. [seen] are the units
    handled before the failure. *)
Inductive stream_breaks : result event_stream -> list event_item -> exn -> Prop :=
| breaks_at_call e : stream_breaks (Raise e) [] e
| breaks_in_iterator stream e :
    failure stream = Some e ->
    Forall decodable (units stream) ->
    stream_breaks (Ok stream) (units stream) e
| breaks_at_chunk stream seen bad rest reason :
    units stream = seen ++ bad :: rest ->
    Forall decodable seen ->
    chunk bad = Some {| bytes := Some (NotUtf8 reason) |} ->
    stream_breaks (Ok stream) seen (Exn UnicodeDecodeError reason).

Definition broken_stream : event_stream :=
  {| units :=
       [ {| chunk := Some {| bytes := Some (Utf8 "<div>") |};
            trace := Some (JObj [("orchestrationTrace", JStr "calling weather agent")]) |};
         {| chunk := Some {| bytes := Some (NotUtf8 "invalid start byte") |};
            trace := Some (JObj [("orchestrationTrace", JStr "lost")]) |} ];
     failure := None |}.

(** The world in which [invoke_strands_agent] calls the delegated
    service: its opening trace frame has been sent. *)
Definition after_init_trace (E : env) (api : api_client) (connection_id : string)
    (w : world) : world :=
  snd (send_to_client E api connection_id strands_init_trace w).

(** The answer of the delegated service, as [invoke_strands_agent]
    reads it: status 200 and a body that parses to [body]. *)
Inductive delegation_answers (E : env) : result string -> json -> Prop :=
| answers raw fields text body :
    json_loads E raw = Some (JObj fields) ->
    lookup_field "error" fields = None ->
    py_eq (match lookup_field "statusCode" fields with
           | Some s => s
           | None => JNull
           end) (JNum 200) = true ->
    lookup_field "body" fields = Some (JStr text) ->
    json_loads E text = Some body ->
    delegation_answers E (Ok raw) body.

(** How the delegation can fail before a body is read, with the text
    [invoke_strands_agent] reports. *)
Inductive delegation_fails (E : env) : result string -> string -> Prop :=
| fails_at_call e :
    delegation_fails E (Raise e) ("Error invoking Strands agent: " +:+ exn_str e)
| fails_unparsed raw :
    json_loads E raw = None ->
    delegation_fails E (Ok raw)
      ("Error invoking Strands agent: " +:+ json_error E raw)
| fails_with_error raw fields err :
    json_loads E raw = Some (JObj fields) ->
    lookup_field "error" fields = Some err ->
    delegation_fails E (Ok raw) ("Error invoking Strands agent: " +:+ py_str err)
| fails_with_status raw fields :
    json_loads E raw = Some (JObj fields) ->
    lookup_field "error" fields = None ->
    py_eq (match lookup_field "statusCode" fields with
           | Some s => s
           | None => JNull
           end) (JNum 200) = false ->
    delegation_fails E (Ok raw)
      ("Strands agent error: "
       +:+ py_str (match lookup_field "body" fields with
                   | Some shown => shown
                   | None => JStr "Unknown error"
                   end)).

(** The work order [persist] updates, if any:
    [work_orders_table and 'workOrderDetails' in event_body], then a
    truthy [work_order_id]. *)
Definition work_order_to_update (cfg : config) (event_body : json) : option json :=
  if work_orders_table cfg
  then match work_order_id_of event_body with
       | Some id => if truthy id then Some id else None
       | None => None
       end
  else None.

(** The prompt sent to the backend: [workOrderDetails] alone when the
    body has it, the whole body otherwise. *)
Definition prompt_of (fields : list (string * json)) : string :=
  match lookup_field "workOrderDetails" fields with
  | Some d => json_dumps d
  | None => json_dumps (JObj fields)
  end.

(** The calls a processed request makes to its backend: Variant B always
    calls the delegated service; Variant A calls the agent when its ids
    are configured. *)
Definition backend_requests (cfg : config) (fields : list (string * json))
    (session_id : json) (api : api_client) (connection_id : string) : list call :=
  if is_str (requested_framework fields) "StrandsSDK"
  then [delegated_request cfg (prompt_of fields) session_id api connection_id]
  else if agent_configured cfg
       then [agent_request cfg (prompt_of fields) session_id]
       else [].

Definition stored_update (cfg : config) (event_body : json)
    (completion current_time : string) : list call :=
  match work_order_to_update cfg event_body with
  | Some id =>
      [UpdateItem id {| safetyCheckResponse := extract_html_content completion;
                        safetyCheckPerformedAt := current_time |}]
  | None => []
  end.

(** A body [handle_message] cannot read: absent, not JSON, or not an
    object. *)
Definition unreadable_body (E : env) (event : event) : Prop :=
  match body event with
  | None => True
  | Some b =>
      match json_loads E b with
      | None => True
      | Some v => is_object v = false
      end
  end.

(** *** The weather action group *)

(** A parameter of an action-group event. *)
Definition parameter (name : string) (value : json) : json :=
  JObj [("name", JStr name); ("type", JStr "string"); ("value", value)].



(** The parameter named [name] in a list of pairs, read from its end. *)
Definition last_value (name : string) (pairs : list (string * json)) : json :=
  match List.find (fun kv => String.eqb (fst kv) name) (rev pairs) with
  | Some kv => snd kv
  | None => JNull
  end.

(** * Properties *)

(** ** Examples of the Python operations *)

Example clean_ex1 :
  clean_html_response "Report: <div>ok</div>}]}" = "<div>ok</div>".
Proof. vm_compute. reflexivity. Qed.

Example dumps_ex :
  json_dumps (JObj [("a", JArr [JNum 1; JStr "x"; JBool true; JNull; JObj [("b", JNum (-3))]]);
                    ("c", JObj [])])
  = "{" +:+ String dquote "a" +:+ String dquote ": [1, "
    +:+ String dquote "x" +:+ String dquote ", true, null, {"
    +:+ String dquote "b" +:+ String dquote ": -3}], "
    +:+ String dquote "c" +:+ String dquote ": {}}".
Proof. vm_compute. reflexivity. Qed.

Example repr_ex :
  py_str (JObj [("a", JArr [JNum 1; JStr "x'y"; JBool true; JNull])])
  = "{'a': [1, " +:+ String dquote "x'y" +:+ String dquote ", True, None]}".
Proof. vm_compute. reflexivity. Qed.

(** ** Reasoning about runs *)

Lemma wp_ret {A} (a : A) Q w : Q (Ok a) w -> wp (ret a) Q w.
Proof. exact (fun H => H). Qed.

Lemma wp_raise {A} (e : exn) (Q : result A -> world -> Prop) w :
  Q (Raise e) w -> wp (raise e) Q w.
Proof. exact (fun H => H). Qed.

Lemma wp_lift {A} (r : result A) Q w : Q r w -> wp (lift r) Q w.
Proof. exact (fun H => H). Qed.

Lemma wp_bind {A B} (m : M A) (k : A -> M B) Q w :
  wp m (fun r w' => match r with
                    | Ok a => wp (k a) Q w'
                    | Raise e => Q (Raise e) w'
                    end) w ->
  wp (bind m k) Q w.
Proof.
  unfold wp, bind. destruct (m w) as [[a|e] w']; simpl; auto.
Qed.

Lemma wp_try_catch {A} (m : M A) (h : exn -> M A) Q w :
  wp m (fun r w' => match r with
                    | Ok a => Q (Ok a) w'
                    | Raise e => wp (h e) Q w'
                    end) w ->
  wp (try_catch m h) Q w.
Proof.
  unfold wp, try_catch. destruct (m w) as [[a|e] w']; simpl; auto.
Qed.

Lemma wp_guard {A B} (m : M A) (h : exn -> M B) (k : A -> M B) Q w :
  wp m (fun r w' => match r with
                    | Ok a => wp (k a) Q w'
                    | Raise e => wp (h e) Q w'
                    end) w ->
  wp (guard m h k) Q w.
Proof.
  unfold wp, guard. destruct (m w) as [[a|e] w']; simpl; auto.
Qed.

Lemma wp_mono {A} (m : M A) (Q Q' : result A -> world -> Prop) w :
  (forall r w', Q r w' -> Q' r w') -> wp m Q w -> wp m Q' w.
Proof. unfold wp. auto. Qed.

Lemma wp_run {A} (m : M A) Q w r w' : m w = (r, w') -> wp m Q w -> Q r w'.
Proof. unfold wp. intros ->. auto. Qed.

Lemma frames_of_app a b : frames_of (a ++ b) = frames_of a ++ frames_of b.
Proof. apply flat_map_app. Qed.

Lemma services_of_app a b : services_of (a ++ b) = services_of a ++ services_of b.
Proof. apply flat_map_app. Qed.

Lemma adds_refl w : adds w w [] [].
Proof. split; now rewrite app_nil_r. Qed.

Lemma adds_trans w1 w2 w3 f1 f2 s1 s2 :
  adds w1 w2 f1 s1 -> adds w2 w3 f2 s2 -> adds w1 w3 (f1 ++ f2) (s1 ++ s2).
Proof.
  intros [F1 S1] [F2 S2]. split.
  - now rewrite F2, F1, app_assoc.
  - now rewrite S2, S1, app_assoc.
Qed.

Lemma adds_log level msg w : adds w (snd (log level msg w)) [] [].
Proof. split; simpl; now rewrite app_nil_r. Qed.

Lemma adds_draw w : adds w (next_draw w) [] [].
Proof. split; simpl; now rewrite app_nil_r. Qed.

(** Projections of a world built by the primitives. *)
Ltac world_simpl :=
  cbn [fst snd next_draw with_calls with_registry with_work_orders
       calls draws registry work_orders logged] in *.

(** ** The notifier *)

(** C6. [send_to_client] returns normally whatever the transport and the
    registry do. The frame is handed to the transport once. When the
    transport answers with the gone signal, [delete_item] is called for that
    connection id, which leaves the registry once the table accepts the
    call, and a failure of that call is logged and swallowed as well. Any
    other delivery error is logged and swallowed, the registry untouched. *)
Theorem send_to_client_never_raises (E : env) (api : api_client)
    (connection_id : string) (message : json) (w : world) :
  exists w',
    send_to_client E api connection_id message w = (Ok tt, w') /\
    let k := length (calls w) in
    let push := PostToConnection (endpoint_url api) connection_id
                  (envelope connection_id message (clock E (draws w))) in
    match post_to_connection E k with
    | None =>
        calls w' = calls w ++ [push] /\ registry w' = registry w /\
        logged w' = logged w
    | Some e =>
        match exn_cls e with
        | GoneException =>
            calls w' = calls w ++ [push; DeleteItem connection_id] /\
            match delete_item E (S k) with
            | None =>
                registry w' = delete connection_id (registry w) /\
                registry w' !! connection_id = None
            | Some e' =>
                registry w' = registry w /\
                In (ERROR, "Error deleting stale connection: " +:+ exn_str e')
                   (logged w')
            end
        | _ =>
            calls w' = calls w ++ [push] /\ registry w' = registry w /\
            logged w' = logged w ++ [(ERROR, "Error sending message: " +:+ exn_str e)]
        end
    end.
Proof.
  destruct w as [reg wo cs lg d].
  unfold send_to_client, try_catch, bind, now, api_post_to_connection,
    table_delete_item, outbound, envelope, logger_warning, logger_error, log.
  world_simpl.
  destruct (post_to_connection E (length cs)) as [e|] eqn:Hpost.
  - destruct (exn_cls e) eqn:Hcls; world_simpl;
      try (eexists; split; [reflexivity|]; world_simpl; auto).
    rewrite length_app, Nat.add_comm. cbn [length Nat.add].
    destruct (delete_item E (S (length cs))) as [e'|] eqn:Hdel; world_simpl.
    + eexists; split; [reflexivity|]. world_simpl. split.
      * now rewrite <- app_assoc.
      * split; [reflexivity|]. apply in_or_app. right. now left.
    + eexists; split; [reflexivity|]. world_simpl. split.
      * now rewrite <- app_assoc.
      * split; [reflexivity|]. apply lookup_delete_eq.
  - eexists; split; [reflexivity|]. world_simpl. auto.
Qed.

Lemma send_to_client_draws E api connection_id message w :
  draws (snd (send_to_client E api connection_id message w)) = S (draws w).
Proof.
  destruct w as [reg wo cs lg d].
  unfold send_to_client, try_catch, bind, now, api_post_to_connection,
    table_delete_item, outbound, logger_warning, logger_error, log.
  world_simpl.
  destruct (post_to_connection E _) as [e|]; [|reflexivity].
  destruct (exn_cls e); world_simpl; try reflexivity.
  destruct (delete_item E _); reflexivity.
Qed.

Lemma send_to_client_work_orders E api connection_id message w :
  work_orders (snd (send_to_client E api connection_id message w)) = work_orders w.
Proof.
  destruct w as [reg wo cs lg d].
  unfold send_to_client, try_catch, bind, now, api_post_to_connection,
    table_delete_item, outbound, logger_warning, logger_error, log.
  world_simpl.
  destruct (post_to_connection E _) as [e|]; [|reflexivity].
  destruct (exn_cls e); world_simpl; try reflexivity.
  destruct (delete_item E _); reflexivity.
Qed.

(** The call log of a delivery attempt: the push, then at most the
    removal of the stale connection. *)
Lemma send_to_client_calls E api connection_id message w :
  exists w' tail,
    send_to_client E api connection_id message w = (Ok tt, w') /\
    calls w' = calls w
               ++ PostToConnection (endpoint_url api) connection_id
                    (envelope connection_id message (clock E (draws w))) :: tail /\
    frames_of tail = [] /\ services_of tail = [].
Proof.
  destruct w as [reg wo cs lg d].
  unfold send_to_client, try_catch, bind, now, api_post_to_connection,
    table_delete_item, outbound, envelope, logger_warning, logger_error, log.
  world_simpl.
  destruct (post_to_connection E (length cs)) as [e|].
  - destruct (exn_cls e); world_simpl;
      try (eexists _, []; split; [reflexivity|]; world_simpl;
           repeat split; reflexivity).
    destruct (delete_item E _); world_simpl;
      (eexists _, [DeleteItem connection_id]; split; [reflexivity|]);
      world_simpl; rewrite <- app_assoc; repeat split; reflexivity.
  - eexists _, []. split; [reflexivity|]. world_simpl. repeat split; reflexivity.
Qed.

(** The same facts in the form the other proofs use. *)
Lemma send_to_client_wp E api connection_id message Q w :
  (forall w', adds w w' [message] [] -> draws w' = S (draws w) -> Q (Ok tt) w') ->
  wp (send_to_client E api connection_id message) Q w.
Proof.
  intros HQ. unfold wp.
  pose proof (send_to_client_draws E api connection_id message w) as Hd.
  destruct (send_to_client_calls E api connection_id message w)
    as (w' & tail & Hrun & Hc & Hf & Hs).
  rewrite Hrun in Hd. cbn [snd] in Hd.
  rewrite Hrun. cbn [fst snd]. apply HQ; [|exact Hd].
  unfold envelope in Hc.
  split; unfold frames_of, services_of in *;
    rewrite Hc, flat_map_app; cbn; rewrite ?Hf, ?Hs; reflexivity.
Qed.

(** ** Connection lifecycle *)



(** ** Variant A: the streaming backend *)

Lemma append_empty_r (s : string) : s +:+ EmptyString = s.
Proof.
  induction s as [|c s IH]; [reflexivity|].
  change (String c (s +:+ EmptyString) = String c s). now rewrite IH.
Qed.

Lemma append_assoc (a b c : string) : (a +:+ b) +:+ c = a +:+ (b +:+ c).
Proof.
  induction a as [|x a IH]; [reflexivity|].
  change (String x ((a +:+ b) +:+ c) = String x (a +:+ (b +:+ c))). now rewrite IH.
Qed.

Lemma chunk_texts_app a b : chunk_texts (a ++ b) = chunk_texts a +:+ chunk_texts b.
Proof.
  induction a as [|u a IH]; cbn; [reflexivity|].
  now rewrite IH, append_assoc.
Qed.

Lemma trace_frames_app a b : trace_frames (a ++ b) = trace_frames a ++ trace_frames b.
Proof. apply flat_map_app. Qed.

Lemma trace_frames_tagged us :
  Forall (fun m => is_trace m /\
                   frame_field "agentFramework" m = Some (JStr "BedrockAgent"))
         (trace_frames us).
Proof.
  unfold trace_frames.
  induction us as [|u us IH]; cbn [flat_map]; [constructor|].
  destruct (trace u) as [t|]; cbn [app];
    [constructor; [split; reflexivity | exact IH] | exact IH].
Qed.

Lemma process_event_wp E api connection_id u completion Q w :
  decodable u ->
  (forall w', adds w w' (trace_frames [u]) [] ->
              Q (Ok (completion +:+ chunk_text u)) w') ->
  wp (process_event E api connection_id u completion) Q w.
Proof.
  intros Hdec HQ. unfold process_event, decodable, chunk_text, trace_frames in *.
  cbn [flat_map] in HQ. rewrite app_nil_r in HQ.
  apply wp_bind.
  assert (Hnext : forall c w0,
    (forall w', adds w0 w' (match trace u with
                            | Some t => [bedrock_trace_frame t]
                            | None => []
                            end) [] -> Q (Ok c) w') ->
    wp (match trace u with
        | Some trace0 =>
            bind (now E) (fun _ =>
              send_to_client E api connection_id (bedrock_trace_frame trace0))
        | None => ret tt
        end)
       (fun r w' => match r with
                    | Ok _ => wp (ret c) Q w'
                    | Raise e => Q (Raise e) w'
                    end) w0).
  { intros c w0 H. destruct (trace u) as [t|].
    - apply wp_bind. unfold wp at 1, now. cbn [fst snd].
      apply send_to_client_wp. intros w' Ha _. apply wp_ret, H.
      apply (adds_trans _ _ _ [] _ [] _ (adds_draw w0)) in Ha. exact Ha.
    - apply wp_ret, wp_ret, H, adds_refl. }
  destruct (chunk u) as [[[[s|reason]|]]|].
  - apply wp_bind, wp_ret, wp_ret, wp_bind, Hnext, HQ.
  - contradiction.
  - apply wp_ret, wp_bind, Hnext. intros w' Ha.
    rewrite <- (append_empty_r completion). auto.
  - apply wp_ret, wp_bind, Hnext. intros w' Ha.
    rewrite <- (append_empty_r completion). auto.
Qed.

(** The loop, from any accumulator and any world: the accumulated text
    grows by the chunk texts and the trace frames go out in the order of
    the units. *)
Lemma process_events_wp E api connection_id us : forall completion Q w,
  Forall decodable us ->
  (forall w', adds w w' (trace_frames us) [] ->
              Q (Ok (completion +:+ chunk_texts us)) w') ->
  wp (process_events E api connection_id us completion) Q w.
Proof.
  induction us as [|u us IH]; intros completion Q w Hdec HQ; cbn [process_events].
  - apply wp_ret. rewrite <- (append_empty_r completion). apply HQ, adds_refl.
  - inversion Hdec as [|? ? Hu Hus]; subst.
    apply wp_bind, process_event_wp; [exact Hu|]. intros w1 H1.
    apply IH; [exact Hus|]. intros w2 H2.
    rewrite append_assoc. apply HQ.
    change (u :: us) with ([u] ++ us). rewrite trace_frames_app.
    exact (adds_trans _ _ _ _ _ [] [] H1 H2).
Qed.

Lemma process_events_app E api connection_id pre post completion w :
  process_events E api connection_id (pre ++ post) completion w
  = bind (process_events E api connection_id pre completion)
         (fun c => process_events E api connection_id post c) w.
Proof.
  revert completion w. induction pre as [|u pre IH]; intros completion w.
  - reflexivity.
  - cbn [app process_events]. unfold bind.
    destruct (process_event E api connection_id u completion w) as [[c|e] w1];
      [|reflexivity].
    rewrite IH. reflexivity.
Qed.



(** ** Frames of the two strategies, whatever the collaborators do *)

Lemma adds_same w w1 w2 fs sv :
  adds w w1 fs sv -> calls w2 = calls w1 -> adds w w2 fs sv.
Proof. intros [F S] Hc. split; rewrite Hc; assumption. Qed.

Lemma wp_now E Q w : Q (Ok (clock E (draws w))) (next_draw w) -> wp (now E) Q w.
Proof. exact (fun H => H). Qed.

Lemma wp_uuid E Q w : Q (Ok (uuid4 E (draws w))) (next_draw w) -> wp (uuid E) Q w.
Proof. exact (fun H => H). Qed.

Lemma wp_log level msg (Q : result unit -> world -> Prop) w :
  (forall w', calls w' = calls w -> draws w' = draws w -> Q (Ok tt) w') ->
  wp (log level msg) Q w.
Proof. intros H. apply H; reflexivity. Qed.

Lemma wp_outbound_value {A} (c : call) (outcome : nat -> result A) Q w :
  Q (outcome (length (calls w))) (with_calls c w) ->
  wp (outbound_value c outcome) Q w.
Proof. exact (fun H => H). Qed.

Lemma adds_call w c : adds w (with_calls c w) (posted c) (service c).
Proof.
  split; cbn [with_calls calls];
    [rewrite frames_of_app | rewrite services_of_app]; cbn; now rewrite app_nil_r.
Qed.

(** The loop of Variant A sends trace frames only, however it ends. *)
Lemma process_events_frames E api connection_id us : forall completion Q w,
  (forall r w' fs, adds w w' fs [] -> Forall is_trace fs -> Q r w') ->
  wp (process_events E api connection_id us completion) Q w.
Proof.
  induction us as [|u us IH]; intros completion Q w HQ; cbn [process_events].
  - apply wp_ret. apply (HQ _ _ []); [apply adds_refl | constructor].
  - apply wp_bind. unfold process_event. apply wp_bind.
    assert (Hnext : forall c w0, calls w0 = calls w ->
      wp (match trace u with
          | Some trace0 =>
              bind (now E) (fun _ =>
                send_to_client E api connection_id (bedrock_trace_frame trace0))
          | None => ret tt
          end)
         (fun r w' =>
            match r with
            | Ok _ =>
                wp (ret c)
                  (fun r0 w'0 =>
                     match r0 with
                     | Ok a => wp (process_events E api connection_id us a) Q w'0
                     | Raise e => Q (Raise e) w'0
                     end) w'
            | Raise e => Q (Raise e) w'
            end) w0).
    { intros c w0 Hw0. destruct (trace u) as [t|].
      - apply wp_bind, wp_now, send_to_client_wp. intros w1 H1 _.
        apply wp_ret, IH. intros r w2 fs H2 Hfs.
        apply (HQ r w2 ([bedrock_trace_frame t] ++ fs)).
        + apply (adds_trans w w1 w2 _ _ [] []); [|exact H2].
          destruct H1 as [F S]. split; rewrite ?F, ?S; cbn [next_draw calls];
            now rewrite Hw0.
        + constructor; [reflexivity | exact Hfs].
      - apply wp_ret, wp_ret, IH. intros r w2 fs H2 Hfs.
        apply (HQ r w2 fs); [|exact Hfs].
        destruct H2 as [F S]. split; rewrite ?F, ?S; now rewrite Hw0. }
    destruct (chunk u) as [[[[s|reason]|]]|].
    + apply wp_bind, wp_ret, wp_ret, wp_bind, Hnext. reflexivity.
    + apply wp_bind, wp_raise. apply (HQ _ _ []); [apply adds_refl | constructor].
    + apply wp_ret, wp_bind, Hnext. reflexivity.
    + apply wp_ret, wp_bind, Hnext. reflexivity.
Qed.

Lemma streaming_backend sv : Forall streaming_call sv -> Forall backend_call sv.
Proof. intros H. eapply Forall_impl; [exact H|]. now intros []. Qed.

Lemma delegating_backend sv : Forall delegating_call sv -> Forall backend_call sv.
Proof. intros H. eapply Forall_impl; [exact H|]. now intros []. Qed.

Lemma variant_a_strategy fs sv : variant_a_emits fs sv -> strategy_emits fs sv.
Proof.
  intros (traces & terminal & -> & Htr & Hterm & Hsv).
  apply streaming_backend in Hsv.
  exists traces, terminal.
  destruct Hterm as [-> | (m & -> & Hm)].
  - split; [reflexivity|]. split; [exact Htr|]. split; [constructor|].
    split; [cbn; lia | exact Hsv].
  - split; [reflexivity|]. split; [exact Htr|].
    split; [constructor; [right; exact Hm | constructor]|].
    split; [cbn; lia | exact Hsv].
Qed.

Lemma variant_b_strategy fs sv : variant_b_emits fs sv -> strategy_emits fs sv.
Proof.
  intros (m & -> & Hm & _ & Hsv).
  apply delegating_backend in Hsv.
  exists [strands_init_trace], [m].
  split; [reflexivity|]. split; [constructor; [reflexivity | constructor]|].
  split; [constructor; [exact Hm | constructor]|].
  split; [cbn; lia | exact Hsv].
Qed.

Lemma variant_a_failed traces m sv :
  Forall is_trace traces -> is_error m -> Forall streaming_call sv ->
  variant_a_emits (traces ++ [m]) sv.
Proof.
  intros Htr Hm Hsv. exists traces, [m]. repeat split; auto.
  right. exists m. split; [reflexivity | exact Hm].
Qed.

Lemma variant_a_done traces sv :
  Forall is_trace traces -> Forall streaming_call sv -> variant_a_emits traces sv.
Proof.
  intros Htr Hsv. exists traces, []. rewrite app_nil_r. repeat split; auto.
Qed.

Lemma log_send_ret_wp {A} E api connection_id level msg frame (a : A) Q w :
  (forall w', adds w w' [frame] [] -> Q (Ok a) w') ->
  wp (bind (log level msg)
        (fun _ => bind (send_to_client E api connection_id frame)
                    (fun _ => ret a))) Q w.
Proof.
  intros HQ. apply wp_bind, wp_log. intros w1 Hc _.
  apply wp_bind, send_to_client_wp. intros w2 H2 _.
  apply wp_ret, HQ. destruct H2 as [F S]. split; rewrite ?F, ?S; now rewrite Hc.
Qed.

Lemma invoke_bedrock_agent_wp E cfg payload session_id api connection_id Q w :
  (forall completion w' fs sv,
      adds w w' fs sv -> variant_a_emits fs sv -> Q (Ok completion) w') ->
  wp (invoke_bedrock_agent E cfg payload session_id api connection_id) Q w.
Proof.
  intros HQ. unfold invoke_bedrock_agent. apply wp_try_catch.
  destruct (negb (set_str (BEDROCK_AGENT_ID cfg))
            || negb (set_str (BEDROCK_AGENT_ALIAS_ID cfg))).
  - apply log_send_ret_wp. intros w' Ha. eapply HQ; [exact Ha|].
    apply (variant_a_failed [] _ []); [constructor | reflexivity | constructor].
  - apply wp_bind, wp_outbound_value.
    set (c := InvokeAgent _).
    assert (Hfail : forall e w1 traces,
               adds w w1 traces [c] -> Forall is_trace traces ->
               wp (bind (logger_error ("Error invoking Bedrock agent: " +:+ exn_str e))
                     (fun _ =>
                        bind (send_to_client E api connection_id
                                (JObj [("type", JStr "error");
                                       ("content",
                                        JStr ("Error invoking Bedrock agent: "
                                              +:+ exn_str e));
                                       ("agentFramework", JStr "BedrockAgent")]))
                          (fun _ => ret ("Error invoking Bedrock agent: "
                                         +:+ exn_str e)))) Q w1).
    { intros e w1 traces H1 Htr. apply log_send_ret_wp. intros w' Ha.
      eapply HQ; [exact (adds_trans _ _ _ _ _ _ _ H1 Ha)|].
      apply variant_a_failed; [exact Htr | reflexivity |].
      repeat constructor. }
    destruct (invoke_agent E (length (calls w))) as [stream|e].
    + apply wp_bind, process_events_frames. intros r w1 fs H1 Hfs.
      assert (H1' : adds w w1 fs [c]).
      { exact (adds_trans _ _ _ [] _ _ _ (adds_call w c) H1). }
      destruct r as [completion|e].
      * destruct (failure stream) as [e|].
        -- apply wp_raise. apply (Hfail e w1 fs H1' Hfs).
        -- apply wp_ret. eapply HQ; [exact H1'|].
           apply variant_a_done; [exact Hfs|]. repeat constructor.
      * apply (Hfail e w1 fs H1' Hfs).
    + apply (Hfail e _ [] (adds_call w c)). constructor.
Qed.

Lemma invoke_strands_agent_wp E cfg payload session_id api connection_id Q w :
  (forall completion w' fs sv,
      adds w w' fs sv -> variant_b_emits fs sv -> Q (Ok completion) w') ->
  wp (invoke_strands_agent E cfg payload session_id api connection_id) Q w.
Proof.
  intros HQ. unfold invoke_strands_agent.
  apply wp_try_catch, wp_bind, send_to_client_wp. intros w1 H1 _.
  apply wp_bind, wp_outbound_value.
  set (c := LambdaInvoke _ _).
  assert (H2 : adds w (with_calls c w1) [strands_init_trace] [c]).
  { exact (adds_trans _ _ _ _ [] [] _ H1 (adds_call w1 c)). }
  set (w2 := with_calls c w1) in *.
  assert (Hend : forall completion frame wk,
             adds w wk [strands_init_trace] [c] ->
             is_terminal frame ->
             frame_field "agentFramework" frame = Some (JStr "StrandsSDK") ->
             forall w', adds wk w' [frame] [] -> Q (Ok completion) w').
  { intros completion frame wk Hk Hterm Htag w' Ha.
    eapply HQ; [exact (adds_trans _ _ _ _ _ _ _ Hk Ha)|].
    exists frame. repeat split; auto. repeat constructor. }
  assert (Hfail : forall e wk,
             adds w wk [strands_init_trace] [c] ->
             wp (bind (logger_error ("Error invoking Strands agent: " +:+ exn_str e))
                   (fun _ =>
                      bind (send_to_client E api connection_id
                              (strands_error_frame
                                 ("Error invoking Strands agent: " +:+ exn_str e)))
                        (fun _ => ret ("Error invoking Strands agent: "
                                       +:+ exn_str e)))) Q wk).
  { intros e wk Hk. apply log_send_ret_wp.
    apply (Hend _ _ wk Hk); [right|]; reflexivity. }
  destruct (lambda_invoke E _) as [raw|e]; [|exact (Hfail e w2 H2)].
  apply wp_bind. unfold loads.
  destruct (json_loads E raw) as [response_payload|];
    [apply wp_ret | apply wp_raise, Hfail, H2].
  apply wp_bind, wp_lift.
  destruct (py_in "error" response_payload) as [has_error|e];
    [|exact (Hfail e w2 H2)].
  apply wp_bind.
  assert (Hrest : wp
    (bind (lift (py_get response_payload "statusCode")) (fun status0 =>
       if py_eq match status0 with Some s => s | None => JNull end (JNum 200)
       then
         bind (lift (py_getitem response_payload "body")) (fun raw_body =>
         bind (loads_value E raw_body) (fun body0 =>
         bind (lift (extract_completion body0)) (fun completion =>
         bind (now E) (fun t =>
         bind (now E) (fun t' =>
         bind (send_to_client E api connection_id
                 (JObj [("type", JStr "final");
                        ("requestId",
                         JStr ("ws-strands-" +:+ connection_id +:+ "-"
                               +:+ str_of_int (now_epoch t)));
                        ("status", JStr "COMPLETED");
                        ("safetyCheckResponse",
                         JStr (clean_html_response completion));
                        ("safetyCheckPerformedAt", JStr (now_iso t'));
                        ("agentFramework", JStr "StrandsSDK")]))
              (fun _ => ret (clean_html_response completion)))))))
       else
         bind (lift (py_get_default response_payload "body" (JStr "Unknown error")))
           (fun shown =>
         bind (logger_error ("Strands agent error: " +:+ py_str shown)) (fun _ =>
         bind (send_to_client E api connection_id
                 (strands_error_frame ("Strands agent error: " +:+ py_str shown)))
              (fun _ => ret ("Strands agent error: " +:+ py_str shown))))))
    (fun r w' =>
       match r with
       | Ok a => Q (Ok a) w'
       | Raise e =>
           wp (bind (logger_error ("Error invoking Strands agent: " +:+ exn_str e))
                 (fun _ =>
                    bind (send_to_client E api connection_id
                            (strands_error_frame
                               ("Error invoking Strands agent: " +:+ exn_str e)))
                      (fun _ => ret ("Error invoking Strands agent: "
                                     +:+ exn_str e)))) Q w'
       end) w2).
  { apply wp_bind, wp_lift.
    destruct (py_get response_payload "statusCode") as [status0|e];
      [|exact (Hfail e w2 H2)].
    destruct (py_eq _ (JNum 200)).
    - apply wp_bind, wp_lift.
      destruct (py_getitem response_payload "body") as [raw_body|e];
        [|exact (Hfail e w2 H2)].
      apply wp_bind.
      unfold loads_value.
      assert (Hbody : forall (m : M json),
                 (exists r, m w2 = (r, w2)) ->
                 forall K,
                   (forall body0, wp (K body0) (fun r w' =>
                      match r with
                      | Ok a => Q (Ok a) w'
                      | Raise e => wp (bind (logger_error
                          ("Error invoking Strands agent: " +:+ exn_str e))
                          (fun _ => bind (send_to_client E api connection_id
                             (strands_error_frame
                                ("Error invoking Strands agent: " +:+ exn_str e)))
                             (fun _ => ret ("Error invoking Strands agent: "
                                            +:+ exn_str e)))) Q w'
                      end) w2) ->
                   wp m (fun r w' =>
                      match r with
                      | Ok a => wp (K a) (fun r0 w'0 =>
                          match r0 with
                          | Ok a0 => Q (Ok a0) w'0
                          | Raise e => wp (bind (logger_error
                              ("Error invoking Strands agent: " +:+ exn_str e))
                              (fun _ => bind (send_to_client E api connection_id
                                 (strands_error_frame
                                    ("Error invoking Strands agent: " +:+ exn_str e)))
                                 (fun _ => ret ("Error invoking Strands agent: "
                                                +:+ exn_str e)))) Q w'0
                          end) w'
                      | Raise e => wp (bind (logger_error
                          ("Error invoking Strands agent: " +:+ exn_str e))
                          (fun _ => bind (send_to_client E api connection_id
                             (strands_error_frame
                                ("Error invoking Strands agent: " +:+ exn_str e)))
                             (fun _ => ret ("Error invoking Strands agent: "
                                            +:+ exn_str e)))) Q w'
                      end) w2).
      { intros m [r Hm] K HK. unfold wp at 1. rewrite Hm. cbn [fst snd].
        destruct r as [body0|e]; [apply HK | exact (Hfail e w2 H2)]. }
      apply Hbody.
      { destruct raw_body as [| | |s| |]; try (eexists; reflexivity).
        unfold loads. destruct (json_loads E s); eexists; reflexivity. }
      intros body0. apply wp_bind, wp_lift.
      destruct (extract_completion body0) as [completion|e];
        [|exact (Hfail e w2 H2)].
      apply wp_bind, wp_now, wp_bind, wp_now, wp_bind, send_to_client_wp.
      intros w' Ha _. apply wp_ret.
      refine (Hend _ _ (next_draw (next_draw w2)) _ _ _ w' Ha);
        [exact (adds_same w w2 (next_draw (next_draw w2)) _ _ H2 eq_refl)
        | left; reflexivity | reflexivity].
    - apply wp_bind, wp_lift.
      destruct (py_get_default response_payload "body" (JStr "Unknown error"))
        as [shown|e]; [|exact (Hfail e w2 H2)].
      apply log_send_ret_wp.
      apply (Hend _ _ w2 H2); [right|]; reflexivity. }
  destruct has_error.
  - apply wp_bind, wp_lift.
    destruct (py_getitem response_payload "error") as [err|e].
    + apply wp_raise, Hfail, H2.
    + exact (Hfail e w2 H2).
  - apply wp_ret. exact Hrest.
Qed.

(** ** Persistence and the dispatcher *)

Lemma bind_ok {A B} (m : M A) (k : A -> M B) w a w' :
  m w = (Ok a, w') -> bind m k w = k a w'.
Proof. unfold bind. now intros ->. Qed.

Lemma wp_elim {A} (m : M A) Q w : wp m Q w -> exists r w', m w = (r, w') /\ Q r w'.
Proof. unfold wp. destruct (m w) as [r w']. eauto. Qed.

Lemma wp_outbound c outcome effect (Q : result unit -> world -> Prop) w :
  (forall w', adds w w' (posted c) (service c) -> draws w' = draws w ->
              match outcome (length (calls w)) with
              | None => w' = effect (with_calls c w)
              | Some _ => w' = with_calls c w
              end ->
              forall r, Q r w') ->
  (forall w0, calls (effect w0) = calls w0 /\ draws (effect w0) = draws w0) ->
  wp (outbound c outcome effect) Q w.
Proof.
  intros HQ Heff. unfold wp, outbound.
  destruct (outcome (length (calls w))) as [e|]; cbn [fst snd]; apply HQ; auto.
  - apply adds_call.
  - apply (adds_same _ _ _ _ _ (adds_call w c)). apply Heff.
  - rewrite (proj2 (Heff _)). reflexivity.
Qed.

(** The persistence step never raises, reads no clock, sends no frame,
    and makes at most one call: the update of the work order with the
    extracted fragment and the timestamp it was given. *)
Lemma persist_wp E cfg event_body completion current_time Q w :
  (forall w' sv,
      adds w w' [] sv -> draws w' = draws w ->
      (sv = [] \/
       exists id, sv = [UpdateItem id
                          {| safetyCheckResponse := extract_html_content completion;
                             safetyCheckPerformedAt := current_time |}]) ->
      Q (Ok tt) w') ->
  wp (persist E cfg event_body completion current_time) Q w.
Proof.
  intros HQ. unfold persist. apply wp_try_catch.
  assert (Hskip : forall level msg e0,
    wp (log level msg)
       (fun r w' => match r with
                    | Ok a => Q (Ok a) w'
                    | Raise e => wp (logger_error (e0 e)) Q w'
                    end) w).
  { intros level msg e0. apply wp_log. intros w' Hc Hd.
    apply (HQ w' []); auto. apply (adds_same _ _ _ _ _ (adds_refl w) Hc). }
  assert (Hfail : forall msg, wp (logger_error msg) Q w).
  { intros msg. apply wp_log. intros w' Hc Hd.
    apply (HQ w' []); auto. apply (adds_same _ _ _ _ _ (adds_refl w) Hc). }
  apply wp_bind.
  destruct (work_orders_table cfg) eqn:Htable.
  - apply wp_lift.
    destruct (py_in "workOrderDetails" event_body) as [[|]|e];
      [| cbn [negb]; apply Hskip | apply Hfail].
    apply wp_bind, wp_lift.
    destruct (py_getitem event_body "workOrderDetails") as [details|e];
      [| apply Hfail].
    apply wp_bind, wp_lift.
    destruct (py_get details "work_order_id") as [[id|]|e];
      [| apply Hskip | apply Hfail].
    destruct (truthy id); [| apply Hskip].
    unfold table_update_item.
    assert (Hup : forall outcome effect,
      (forall w0, calls (effect w0) = calls w0 /\ draws (effect w0) = draws w0) ->
      wp (outbound
            (UpdateItem id
               {| safetyCheckResponse := extract_html_content completion;
                  safetyCheckPerformedAt := current_time |}) outcome effect)
         (fun r w' =>
            match r with
            | Ok a => Q (Ok a) w'
            | Raise e =>
                wp (logger_error ("Error updating WorkOrders table: " +:+ exn_str e))
                   Q w'
            end) w).
    { intros outcome effect Heff. apply wp_outbound; [|exact Heff].
      intros w' Ha Hd _ r.
      assert (Hdone : forall w'', calls w'' = calls w' -> draws w'' = draws w' ->
                                  Q (Ok tt) w'').
      { intros w'' Hc Hd'. eapply HQ.
        - exact (adds_same _ _ _ _ _ Ha Hc).
        - congruence.
        - right. eexists. reflexivity. }
      destruct r as [[]|e].
      - apply Hdone; reflexivity.
      - apply wp_log. intros w'' Hc Hd'. apply Hdone; assumption. }
    destruct id; apply Hup; intros w0; split; reflexivity.
  - apply wp_ret. cbn [negb]. apply Hskip.
Qed.

Lemma build_payload_run fields w :
  exists payload w1,
    build_payload (JObj fields) w = (Ok payload, w1) /\
    calls w1 = calls w /\ draws w1 = draws w /\
    payload = match lookup_field "workOrderDetails" fields with
              | Some d => json_dumps d
              | None => json_dumps (JObj fields)
              end.
Proof.
  unfold build_payload, try_catch, bind, lift, py_getitem.
  destruct (lookup_field "workOrderDetails" fields) as [d|];
    do 2 eexists; (split; [reflexivity|]); repeat split; reflexivity.
Qed.

(** The course of a processed request: payload, strategy, one clock
    reading, persistence with that reading, and the dispatcher's [final]
    frame with the same reading and the requested framework. *)
Lemma handle_message_main_run E cfg api connection_id fields session_id w :
  exists payload w1 completion w2 w3 sv request_id w',
    build_payload (JObj fields) w = (Ok payload, w1) /\
    calls w1 = calls w /\
    selected_strategy E cfg (requested_framework fields) payload session_id api
      connection_id w1 = (Ok completion, w2) /\
    persist E cfg (JObj fields) completion (now_iso (clock E (draws w2)))
      (next_draw w2) = (Ok tt, w3) /\
    adds w2 w3 [] sv /\
    (sv = [] \/
     exists id, sv = [UpdateItem id
                        {| safetyCheckResponse := extract_html_content completion;
                           safetyCheckPerformedAt := now_iso (clock E (draws w2)) |}]) /\
    adds w3 w'
      [final_frame request_id completion (now_iso (clock E (draws w2)))
         (requested_framework fields)] [] /\
    work_orders w' = work_orders w3 /\
    handle_message_main E cfg api connection_id (JObj fields) session_id w
    = (Ok (status 200 "Message sent"), w').
Proof.
  destruct (build_payload_run fields w) as (payload & w1 & Hbuild & Hc1 & _ & _).
  assert (Hstrat : exists completion w2,
             selected_strategy E cfg (requested_framework fields) payload session_id
               api connection_id w1 = (Ok completion, w2)).
  { unfold selected_strategy.
    destruct (is_str (requested_framework fields) "StrandsSDK").
    - destruct (wp_elim _ _ w1
        (invoke_strands_agent_wp E cfg payload session_id api connection_id
           (fun r _ => exists c, r = Ok c) w1
           (fun c _ _ _ _ _ => ex_intro _ c eq_refl)))
        as (r & w2 & Hrun & c & ->). eauto.
    - destruct (wp_elim _ _ w1
        (invoke_bedrock_agent_wp E cfg payload session_id api connection_id
           (fun r _ => exists c, r = Ok c) w1
           (fun c _ _ _ _ _ => ex_intro _ c eq_refl)))
        as (r & w2 & Hrun & c & ->). eauto. }
  destruct Hstrat as (completion & w2 & Hstrat).
  set (t := now_iso (clock E (draws w2))).
  destruct (wp_elim _ _ (next_draw w2)
    (persist_wp E cfg (JObj fields) completion t
       (fun r w3 => r = Ok tt /\ exists sv,
          adds (next_draw w2) w3 [] sv /\
          (sv = [] \/
           exists id, sv = [UpdateItem id
              {| safetyCheckResponse := extract_html_content completion;
                 safetyCheckPerformedAt := t |}]))
       (next_draw w2)
       (fun w3 sv Ha _ Hsv => conj eq_refl (ex_intro _ sv (conj Ha Hsv)))))
    as (r & w3 & Hpersist & -> & sv & Ha3 & Hsv).
  set (request_id := "ws-" +:+ connection_id +:+ "-"
                     +:+ str_of_int (now_epoch (clock E (draws w3)))).
  destruct (wp_elim _ _ (next_draw w3)
    (send_to_client_wp E api connection_id
       (final_frame request_id completion t (requested_framework fields))
       (fun r w' => r = Ok tt /\
          adds (next_draw w3) w'
            [final_frame request_id completion t (requested_framework fields)] [])
       (next_draw w3)
       (fun w' Ha _ => conj eq_refl Ha)))
    as (r & w' & Hsend & -> & Ha').
  pose proof (send_to_client_work_orders E api connection_id
                (final_frame request_id completion t (requested_framework fields))
                (next_draw w3)) as Hstore.
  rewrite Hsend in Hstore. cbn [snd next_draw work_orders] in Hstore.
  exists payload, w1, completion, w2, w3, sv, request_id, w'.
  split; [exact Hbuild|]. split; [exact Hc1|]. split; [exact Hstrat|].
  split; [exact Hpersist|].
  split; [exact (adds_trans _ _ _ [] [] [] _ (adds_draw w2) Ha3)|].
  split; [exact Hsv|].
  split; [exact (adds_trans _ _ _ [] _ [] [] (adds_draw w3) Ha')|].
  split; [exact Hstore|].
  unfold handle_message_main.
  rewrite (bind_ok _ _ _ _ _ Hbuild).
  rewrite (bind_ok _ _ w1 (requested_framework fields) w1)
    by (unfold lift, py_get_default, py_get, requested_framework;
        destruct (lookup_field _ fields); reflexivity).
  rewrite (bind_ok _ _ _ _ _ Hstrat).
  rewrite (bind_ok _ _ w2 (clock E (draws w2)) (next_draw w2) eq_refl).
  rewrite (bind_ok _ _ _ _ _ Hpersist).
  rewrite (bind_ok _ _ w3 (clock E (draws w3)) (next_draw w3) eq_refl).
  rewrite (bind_ok _ _ _ _ _ Hsend).
  reflexivity.
Qed.

(** A processed request: the body of the event parses to an object. Then
    [handle_message] is the main course, after the two uuid draws. *)
Lemma handle_message_processed E cfg api connection_id event b fields w :
  body event = Some b ->
  json_loads E b = Some (JObj fields) ->
  handle_message E cfg api connection_id event w
  = handle_message_main E cfg api connection_id (JObj fields)
      (session_of fields (uuid4 E (draws w))) (next_draw (next_draw w)).
Proof.
  intros Hb Hloads.
  destruct (handle_message_main_run E cfg api connection_id fields
              (session_of fields (uuid4 E (draws w))) (next_draw (next_draw w)))
    as (payload & w1 & completion & w2 & w3 & sv & rid & w'
        & _ & _ & _ & _ & _ & _ & _ & _ & Hmain).
  unfold handle_message, guard. rewrite Hb. unfold loads. rewrite Hloads.
  cbn [ret]. unfold bind, uuid, lift, py_get_default, py_get.
  cbn [fst snd].
  replace (match lookup_field "session_id" fields with
           | Some x => Ok x
           | None => Ok (JStr (uuid4 E (draws w)))
           end) with (@Ok json (session_of fields (uuid4 E (draws w))))
    by (unfold session_of; destruct (lookup_field _ fields); reflexivity).
  cbn [ret fst snd]. rewrite Hmain. reflexivity.
Qed.

(** ** Terminal frames of a processed request *)


Lemma selected_strategy_wp E cfg requested payload session_id api connection_id Q w :
  (forall completion w' fs sv,
      adds w w' fs sv -> strategy_emits fs sv ->
      (if is_str requested "StrandsSDK"
       then variant_b_emits fs sv else variant_a_emits fs sv) ->
      Q (Ok completion) w') ->
  wp (selected_strategy E cfg requested payload session_id api connection_id) Q w.
Proof.
  intros HQ. unfold selected_strategy.
  destruct (is_str requested "StrandsSDK").
  - apply invoke_strands_agent_wp. intros c w' fs sv Ha Hb.
    apply (HQ c w' fs sv Ha (variant_b_strategy _ _ Hb) Hb).
  - apply invoke_bedrock_agent_wp. intros c w' fs sv Ha Hb.
    apply (HQ c w' fs sv Ha (variant_a_strategy _ _ Hb) Hb).
Qed.

(** The observations of a processed request, put together. *)
Lemma processed_request_observed E cfg api connection_id event b fields w :
  body event = Some b ->
  json_loads E b = Some (JObj fields) ->
  exists completion fs sv persisted request_id t w',
    handle_message E cfg api connection_id event w
    = (Ok (status 200 "Message sent"), w') /\
    frames_of (calls w')
    = frames_of (calls w) ++ fs
      ++ [final_frame request_id completion t (requested_framework fields)] /\
    services_of (calls w') = services_of (calls w) ++ sv ++ persisted /\
    strategy_emits fs sv /\
    (if is_str (requested_framework fields) "StrandsSDK"
     then variant_b_emits fs sv else variant_a_emits fs sv) /\
    (persisted = [] \/
     exists id, persisted = [UpdateItem id
                               {| safetyCheckResponse := extract_html_content completion;
                                  safetyCheckPerformedAt := t |}]) /\
    (exists payload w1 w2,
        selected_strategy E cfg (requested_framework fields) payload
          (session_of fields (uuid4 E (draws w))) api connection_id w1
        = (Ok completion, w2) /\
        calls w1 = calls w /\
        t = now_iso (clock E (draws w2)) /\
        persist E cfg (JObj fields) completion t (next_draw w2)
        = (Ok tt, snd (persist E cfg (JObj fields) completion t (next_draw w2))) /\
        services_of (calls (snd (persist E cfg (JObj fields) completion t
                                   (next_draw w2))))
        = services_of (calls w2) ++ persisted /\
        work_orders w'
        = work_orders (snd (persist E cfg (JObj fields) completion t
                              (next_draw w2)))).
Proof.
  intros Hb Hloads.
  rewrite (handle_message_processed E cfg api connection_id event b fields w Hb Hloads).
  destruct (handle_message_main_run E cfg api connection_id fields
              (session_of fields (uuid4 E (draws w))) (next_draw (next_draw w)))
    as (payload & w1 & completion & w2 & w3 & persisted & rid & w'
        & Hbuild & Hc1 & Hstrat & Hpersist & Ha3 & Hsv & Ha' & Hstore & Hmain).
  pose proof (selected_strategy_wp E cfg (requested_framework fields) payload
                (session_of fields (uuid4 E (draws w))) api connection_id
                (fun r w2 => exists fs sv,
                   adds w1 w2 fs sv /\ strategy_emits fs sv /\
                   (if is_str (requested_framework fields) "StrandsSDK"
                    then variant_b_emits fs sv else variant_a_emits fs sv))
                w1
                (fun c w' fs sv Ha Hs Hv =>
                   ex_intro _ fs (ex_intro _ sv (conj Ha (conj Hs Hv))))) as Hwp.
  apply (wp_run _ _ _ _ _ Hstrat) in Hwp.
  destruct Hwp as (fs & sv & Ha2 & Hemits & Hvariant).
  exists completion, fs, sv, persisted, rid, (now_iso (clock E (draws w2))), w'.
  split; [exact Hmain|].
  assert (H01 : adds w w1 [] []).
  { apply (adds_same _ _ _ _ _ (adds_refl w)). exact Hc1. }
  pose proof (adds_trans _ _ _ _ _ _ _
                (adds_trans _ _ _ _ _ _ _
                   (adds_trans _ _ _ _ _ _ _ H01 Ha2) Ha3) Ha') as Hall.
  cbn [app] in Hall. rewrite !app_nil_r in Hall.
  split; [exact (adds_frames _ _ _ _ Hall)|].
  split; [exact (adds_services _ _ _ _ Hall)|].
  split; [exact Hemits|]. split; [exact Hvariant|]. split; [exact Hsv|].
  exists payload, w1, w2.
  split; [exact Hstrat|]. split; [cbn [next_draw calls] in Hc1; exact Hc1|].
  split; [reflexivity|]. rewrite Hpersist. cbn [snd].
  split; [reflexivity|].
  split; [|exact Hstore].
  rewrite (adds_services _ _ _ _ Ha3). reflexivity.
Qed.



Lemma is_terminalb_trace m : is_trace m -> is_terminalb m = false.
Proof. unfold is_trace, is_terminalb. now intros ->. Qed.

Lemma count_terminal_app a b :
  count_terminal (a ++ b) = count_terminal a + count_terminal b.
Proof. unfold count_terminal. now rewrite List.filter_app, length_app. Qed.

Lemma count_terminal_traces fs : Forall is_trace fs -> count_terminal fs = 0.
Proof.
  unfold count_terminal. induction 1 as [|m fs Hm _ IH]; [reflexivity|].
  cbn [List.filter]. now rewrite (is_terminalb_trace m Hm).
Qed.




(** ** Which backend the terminal frame names *)

(** C9, as stated, fails: a request whose [agentFramework] is the
    unrecognized value [Foo] is served by Variant A, and the dispatcher's
    final frame carries [Foo], not Variant A's identifier. *)
Lemma unrecognized_framework_is_echoed :
  let run := lambda_handler demo_deployment demo_cfg
               (message_event "C1" (json_dumps (request_via "Foo")))
               empty_world in
  fst run = Ok (status 200 "Message sent") /\
  flat_map served_by (calls (snd run)) = ["BedrockAgent"] /\
  map frame_type (frames_of (calls (snd run)))
  = [Some (JStr "trace"); Some (JStr "final")] /\
  map (frame_field "agentFramework") (frames_of (calls (snd run)))
  = [Some (JStr "BedrockAgent"); Some (JStr "Foo")].
Proof. vm_compute. repeat split; reflexivity. Qed.

(** C9, amended. The dispatcher's terminal frame of a processed request,
    the last frame sent, carries the [agentFramework] value of the inbound
    message as it was requested ([BedrockAgent] when the field is absent),
    together with the text the strategy returned. The strategy that
    serves the request is Variant B when that value is the string
    [StrandsSDK] and Variant A for every other value; so for an
    unrecognized value Variant A serves and the frame carries the
    unrecognized value. *)
Theorem terminal_frame_names_requested_framework (E : env) (cfg : config)
    (api : api_client) (connection_id : string) (event : event) (b : string)
    (fields : list (string * json)) (w : world) :
  body event = Some b ->
  json_loads E b = Some (JObj fields) ->
  exists w' before last completion payload w1 w2 sv persisted,
    handle_message E cfg api connection_id event w
    = (Ok (status 200 "Message sent"), w') /\
    frames_of (calls w') = frames_of (calls w) ++ before ++ [last] /\
    is_final last /\
    frame_field "agentFramework" last = Some (requested_framework fields) /\
    requested_framework fields
    = match lookup_field "agentFramework" fields with
      | Some v => v
      | None => JStr "BedrockAgent"
      end /\
    frame_field "safetyCheckResponse" last = Some (JStr completion) /\
    (if is_str (requested_framework fields) "StrandsSDK"
     then invoke_strands_agent E cfg payload
            (session_of fields (uuid4 E (draws w))) api connection_id w1
     else invoke_bedrock_agent E cfg payload
            (session_of fields (uuid4 E (draws w))) api connection_id w1)
    = (Ok completion, w2) /\
    calls w1 = calls w /\
    services_of (calls w') = services_of (calls w) ++ sv ++ persisted /\
    flat_map served_by persisted = [] /\
    (if is_str (requested_framework fields) "StrandsSDK"
     then Forall delegating_call sv
     else Forall streaming_call sv).
Proof.
  intros Hb Hloads.
  destruct (processed_request_observed E cfg api connection_id event b fields w
              Hb Hloads)
    as (completion & fs & sv & persisted & rid & t & w'
        & Hrun & Hframes & Hservices & _ & Hvariant & Hpersisted
        & payload & w1 & w2 & Hstrat & Hc1 & _).
  exists w', fs, (final_frame rid completion t (requested_framework fields)),
    completion, payload, w1, w2, sv, persisted.
  split; [exact Hrun|]. split; [exact Hframes|].
  split; [reflexivity|]. split; [reflexivity|]. split; [reflexivity|].
  split; [reflexivity|].
  split; [unfold selected_strategy in Hstrat;
          destruct (is_str (requested_framework fields) "StrandsSDK");
          exact Hstrat|].
  split; [exact Hc1|].
  split; [exact Hservices|].
  split; [destruct Hpersisted as [-> | (id & ->)]; reflexivity|].
  destruct (is_str (requested_framework fields) "StrandsSDK").
  - destruct Hvariant as (m & _ & _ & _ & Hsv). exact Hsv.
  - destruct Hvariant as (traces & terminal & _ & _ & _ & Hsv). exact Hsv.
Qed.

Lemma terminal_frame_names_requested_framework_witness :
  exists w' before last,
    handle_message demo_deployment demo_cfg demo_api "C1"
      (message_event "C1" (json_dumps (request_via "Foo"))) empty_world
    = (Ok (status 200 "Message sent"), w') /\
    frames_of (calls w') = before ++ [last] /\
    frame_field "agentFramework" last = Some (JStr "Foo").
Proof.
  destruct (terminal_frame_names_requested_framework demo_deployment demo_cfg
              demo_api "C1" (message_event "C1" (json_dumps (request_via "Foo")))
              (json_dumps (request_via "Foo")) _ empty_world eq_refl eq_refl)
    as (w' & before & last & _ & _ & _ & _ & _ & _ & Hrun & Hframes & _ & Hfw & _).
  exists w', before, last. split; [exact Hrun|]. split; [exact Hframes | exact Hfw].
Defined.

(** ** The timestamp of a persisted safety check *)

Lemma persist_updates E cfg fields details id completion t w :
  work_orders_table cfg = true ->
  lookup_field "workOrderDetails" fields = Some (JObj details) ->
  lookup_field "work_order_id" details = Some id ->
  truthy id = true ->
  let item := {| safetyCheckResponse := extract_html_content completion;
                 safetyCheckPerformedAt := t |} in
  services_of (calls (snd (persist E cfg (JObj fields) completion t w)))
  = services_of (calls w) ++ [UpdateItem id item] /\
  match id with
  | JStr k =>
      match update_item E (length (calls w)) with
      | None => work_orders (snd (persist E cfg (JObj fields) completion t w)) !! k
                = Some item
      | Some _ => work_orders (snd (persist E cfg (JObj fields) completion t w))
                  = work_orders w
      end
  | _ => work_orders (snd (persist E cfg (JObj fields) completion t w))
         = work_orders w
  end.
Proof.
  intros Htable Hdetails Hid Htruthy item.
  destruct w as [reg wo cs lg d].
  unfold persist, try_catch, bind, lift, py_in, py_getitem, py_get.
  rewrite Htable, Hdetails, Hid, Htruthy.
  unfold table_update_item, outbound, logger_error, log. fold item.
  destruct id as [| | |k| |]; world_simpl;
    try (split; [rewrite services_of_app; reflexivity | reflexivity]).
  destruct (update_item E (length cs)); world_simpl.
  - split; [rewrite services_of_app; reflexivity | reflexivity].
  - split; [rewrite services_of_app; reflexivity | apply lookup_insert_eq].
Qed.

(** C10. For a processed request that persists a work-order update (the
    table is configured and [workOrderDetails.work_order_id] is present),
    the [safetyCheckPerformedAt] written to the work-order table and the
    [safetyCheckPerformedAt] of the dispatcher's final frame are the same
    value: the one clock reading taken when the strategy has returned,
    before the update. The update is the only call of the request to the
    table, and when the table accepts it the stored item holds that
    value. *)
Theorem persisted_timestamp_is_final_frame_timestamp (E : env) (cfg : config)
    (api : api_client) (connection_id : string) (event : event) (b : string)
    (fields details : list (string * json)) (id : json) (w : world) :
  body event = Some b ->
  json_loads E b = Some (JObj fields) ->
  work_orders_table cfg = true ->
  lookup_field "workOrderDetails" fields = Some (JObj details) ->
  lookup_field "work_order_id" details = Some id ->
  truthy id = true ->
  exists w' before last completion t payload w1 w2 sv,
    handle_message E cfg api connection_id event w
    = (Ok (status 200 "Message sent"), w') /\
    frames_of (calls w') = frames_of (calls w) ++ before ++ [last] /\
    is_final last /\
    frame_field "safetyCheckPerformedAt" last = Some (JStr t) /\
    services_of (calls w')
    = services_of (calls w) ++ sv
      ++ [UpdateItem id {| safetyCheckResponse := extract_html_content completion;
                           safetyCheckPerformedAt := t |}] /\
    Forall backend_call sv /\
    selected_strategy E cfg (requested_framework fields) payload
      (session_of fields (uuid4 E (draws w))) api connection_id w1
    = (Ok completion, w2) /\
    t = now_iso (clock E (draws w2)) /\
    match id with
    | JStr k =>
        match update_item E (length (calls w2)) with
        | None => option_map safetyCheckPerformedAt (work_orders w' !! k) = Some t
        | Some _ => True
        end
    | _ => True
    end.
Proof.
  intros Hb Hloads Htable Hdetails Hid Htruthy.
  destruct (processed_request_observed E cfg api connection_id event b fields w
              Hb Hloads)
    as (completion & fs & sv & persisted & rid & t & w'
        & Hrun & Hframes & Hservices & Hemits & _ & _
        & payload & w1 & w2 & Hstrat & _ & Ht & _ & Hpersisted & Hstore).
  destruct (persist_updates E cfg fields details id completion t (next_draw w2)
              Htable Hdetails Hid Htruthy) as [Hsv Hitem].
  cbn [next_draw calls] in Hsv, Hitem.
  rewrite Hpersisted in Hsv. apply app_inv_head in Hsv. subst persisted.
  exists w', fs, (final_frame rid completion t (requested_framework fields)),
    completion, t, payload, w1, w2, sv.
  split; [exact Hrun|]. split; [exact Hframes|]. split; [reflexivity|].
  split; [reflexivity|]. split; [exact Hservices|].
  split; [destruct Hemits as (? & ? & _ & _ & _ & _ & H); exact H|].
  split; [exact Hstrat|]. split; [exact Ht|].
  destruct id as [| | |k| |]; try exact I.
  destruct (update_item E (length (calls w2))); [exact I|].
  rewrite Hstore, Hitem. reflexivity.
Qed.

Lemma persisted_timestamp_is_final_frame_timestamp_witness :
  exists w' before last t,
    handle_message demo_deployment demo_cfg demo_api "C1"
      (message_event "C1" (json_dumps (request_via "Foo"))) empty_world
    = (Ok (status 200 "Message sent"), w') /\
    frames_of (calls w') = before ++ [last] /\
    frame_field "safetyCheckPerformedAt" last = Some (JStr t) /\
    option_map safetyCheckPerformedAt (work_orders w' !! "WO1") = Some t.
Proof.
  destruct (persisted_timestamp_is_final_frame_timestamp demo_deployment demo_cfg
              demo_api "C1" (message_event "C1" (json_dumps (request_via "Foo")))
              (json_dumps (request_via "Foo")) _ _ (JStr "WO1") empty_world
              eq_refl eq_refl eq_refl eq_refl eq_refl eq_refl)
    as (w' & before & last & completion & t & payload & w1 & w2 & sv
        & Hrun & Hframes & _ & Ht & _ & _ & _ & _ & Hstore).
  exists w', before, last, t.
  split; [exact Hrun|]. split; [exact Hframes|]. split; [exact Ht | exact Hstore].
Defined.

(** ** Unauthenticated messages *)

Ltac wp_step :=
  match goal with
  | |- wp (bind _ _) _ _ => apply wp_bind
  | |- wp (try_catch _ _) _ _ => apply wp_try_catch
  | |- wp (ret _) _ _ => apply wp_ret
  | |- wp (raise _) _ _ => apply wp_raise
  | |- wp (lift ?r) _ _ => apply wp_lift; destruct r
  | |- wp (logger_error _) _ _ => apply wp_log; intros ? ? ?
  | |- wp (logger_warning _) _ _ => apply wp_log; intros ? ? ?
  | |- wp (log _ _) _ _ => apply wp_log; intros ? ? ?
  | |- wp (if ?c then _ else _) _ _ => destruct c
  | |- wp (match ?x with _ => _ end) _ _ => destruct x
  end.

(** [verify_token] makes one call, to the key-set endpoint, and sends
    nothing, whether it returns or raises. *)
Lemma verify_token_calls E cfg token w :
  calls (snd (verify_token E cfg token w))
  = calls w ++ [RequestsGet ("https://cognito-idp." +:+ REGION cfg
                             +:+ ".amazonaws.com/" +:+ USER_POOL_ID cfg
                             +:+ "/.well-known/jwks.json")].
Proof.
  change (wp (verify_token E cfg token)
            (fun _ w' => calls w' = calls w ++
               [RequestsGet ("https://cognito-idp." +:+ REGION cfg
                             +:+ ".amazonaws.com/" +:+ USER_POOL_ID cfg
                             +:+ "/.well-known/jwks.json")]) w).
  unfold verify_token. apply wp_try_catch, wp_bind, wp_outbound_value.
  set (w1 := with_calls _ w).
  assert (H1 : calls w1 = calls w ++
               [RequestsGet ("https://cognito-idp." +:+ REGION cfg
                             +:+ ".amazonaws.com/" +:+ USER_POOL_ID cfg
                             +:+ "/.well-known/jwks.json")]) by reflexivity.
  clearbody w1.
  destruct (requests_get E (length (calls w))) as [jwks|e];
    repeat wp_step; congruence.
Qed.

(** C2. A data message whose token is missing or fails verification is
    answered with status 403; no frame of any type is sent for it and
    no invocation strategy is invoked (neither backend is called). *)
Theorem unauthenticated_message_is_rejected (E : env) (cfg : config)
    (event : event) (rc : request_context) (connection_id b : string)
    (fields : list (string * json)) (w : world) :
  data_message E event rc connection_id b fields ->
  token_rejected E cfg fields w ->
  exists text w',
    lambda_handler E cfg event w = (Ok (status 403 text), w') /\
    frames_of (calls w') = frames_of (calls w) /\
    flat_map served_by (calls w') = flat_map served_by (calls w).
Proof.
  intros ([Hctx Hroute Hconn Hcset Hbody Hbset Hobj] & Hend & Hreq) Hrej.
  destruct event as [ctx bd]. destruct rc as [rk ci dn st].
  cbn [requestContext body routeKey connectionId domainName stage] in *. subst.
  unfold lambda_handler, try_catch at 1.
  cbn [requestContext body routeKey connectionId domainName stage].
  rewrite Hcset. cbn [set_str negb orb fmt_opt].
  change (negb (negb ("$default" =? EmptyString)%string) || false) with false.
  change ("$default" =? "$connect")%string with false.
  change ("$default" =? "$disconnect")%string with false.
  change ("$default" =? "$default")%string with true.
  cbn [set_str] in Hbset. rewrite Hbset. cbn [negb].
  unfold guard, loads. rewrite Hobj. cbn [ret].
  unfold bind at 1, lift, py_get. rewrite Hreq, Hend.
  unfold bind at 1. unfold token_rejected in Hrej.
  destruct (lookup_field "token" fields) as [token|]; cbn [truthy_opt].
  - destruct (truthy token) eqn:Htruthy.
    + destruct Hrej as [Hrej | [e Hrej]]; [discriminate|].
      cbn [negb]. unfold try_catch at 1, bind at 1.
      pose proof (verify_token_calls E cfg token w) as Hcalls.
      destruct (verify_token E cfg token w) as [r w1].
      cbn [fst snd] in *. subst r.
      eexists _, _. split; [reflexivity|]. cbn [snd log calls logger_error].
      rewrite Hcalls. rewrite frames_of_app, flat_map_app. cbn.
      rewrite !app_nil_r. split; reflexivity.
    + cbn [negb]. eexists _, _. split; [reflexivity|]. split; reflexivity.
  - cbn [negb]. eexists _, _. split; [reflexivity|]. split; reflexivity.
Qed.

Lemma unauthenticated_message_is_rejected_witness :
  exists text w',
    lambda_handler demo_deployment demo_cfg
      (message_event "C1" (json_dumps forged_request)) empty_world
    = (Ok (status 403 text), w') /\
    frames_of (calls w') = [] /\
    flat_map served_by (calls w') = [].
Proof.
  refine (unauthenticated_message_is_rejected demo_deployment demo_cfg
            (message_event "C1" (json_dumps forged_request))
            {| routeKey := Some "$default"; connectionId := Some "C1";
               domainName := Some "ws.example.com"; stage := Some "prod" |}
            "C1" (json_dumps forged_request)
            [("token", JStr "forged"); ("agentFramework", JStr "StrandsSDK")]
            empty_world _ _).
  - split; [|split; reflexivity].
    split; reflexivity.
  - right. exists (Exn JWTError "Signature verification failed."). reflexivity.
Defined.

(** ** Containment of exceptions *)

(** C5, as stated, fails: the text [[1]] is valid JSON and not an
    object; the [.get] on it raises, the exception is caught by the
    boundary of [lambda_handler], which returns status 500 and sends no
    frame, error or other. *)
Lemma non_object_body_gets_no_error_frame :
  let run := lambda_handler demo_deployment demo_cfg (message_event "C1" "[1]")
               empty_world in
  fst run = Ok (status 500 "Internal server error: 'list' object has no attribute 'get'") /\
  calls (snd run) = [].
Proof. vm_compute. split; reflexivity. Qed.

Lemma lambda_handler_returns E cfg event w :
  exists r w', lambda_handler E cfg event w = (Ok r, w').
Proof.
  unfold lambda_handler, try_catch.
  match goal with |- context [let (_, _) := ?m w in _] => destruct (m w) as [[r|e] w1] end;
    eexists _, _; reflexivity.
Qed.

Lemma handle_message_except_sends E api connection_id fields request_id e w :
  exists w',
    handle_message_except E api connection_id (Some (JObj fields)) (Some request_id) e w
    = (Ok (status 500 ("Failed to process message: " +:+ exn_str e)), w') /\
    frames_of (calls w')
    = frames_of (calls w)
      ++ [except_frame request_id e (requested_framework fields)].
Proof.
  destruct (wp_elim _ _ w
    (log_send_ret_wp E api connection_id ERROR
       ("handle_messageerror: " +:+ exn_str e)
       (except_frame request_id e (requested_framework fields))
       (status 500 ("Failed to process message: " +:+ exn_str e))
       (fun r w' => r = Ok (status 500 ("Failed to process message: " +:+ exn_str e))
                    /\ adds w w' [except_frame request_id e
                                    (requested_framework fields)] [])
       w (fun w' Ha => conj eq_refl Ha)))
    as (r & w' & Hrun & -> & Ha).
  exists w'. split; [|exact (adds_frames _ _ _ _ Ha)].
  rewrite <- Hrun.
  unfold handle_message_except, bind, lift, py_get_default, py_get,
    logger_error, ret, requested_framework, except_frame.
  destruct (log ERROR _ w) as [[[]|e0] w0]; [|reflexivity].
  destruct (lookup_field "agentFramework" fields); reflexivity.
Qed.

Lemma non_object_message_fails E cfg event rc connection_id b v w :
  inbound_text E event rc connection_id b v ->
  is_object v = false ->
  exists w',
    lambda_handler E cfg event w
    = (Ok (status 500 ("Internal server error: '" +:+ type_name v
                       +:+ "' object has no attribute 'get'")), w') /\
    calls w' = calls w.
Proof.
  intros [Hctx Hroute Hconn Hcset Hbody Hbset Hobj] Hv.
  destruct event as [ctx bd]. destruct rc as [rk ci dn st].
  cbn [requestContext body routeKey connectionId domainName stage] in *. subst.
  unfold lambda_handler, try_catch at 1.
  cbn [requestContext body routeKey connectionId domainName stage].
  rewrite Hcset. cbn [set_str negb orb fmt_opt].
  change (negb (negb ("$default" =? EmptyString)%string) || false) with false.
  change ("$default" =? "$connect")%string with false.
  change ("$default" =? "$disconnect")%string with false.
  change ("$default" =? "$default")%string with true.
  cbn [set_str] in Hbset. rewrite Hbset. cbn [negb].
  unfold guard, loads. rewrite Hobj. cbn [ret].
  unfold bind at 1, lift, py_get.
  destruct v; try discriminate; eexists; split; reflexivity.
Qed.

(** C5, amended. The handler never terminates abnormally: for every
    event and every behaviour of its collaborators [lambda_handler]
    returns a status. An exception caught by the boundary of
    [lambda_handler] itself becomes status 500 and no frame: so it is for a
    text of the [$default] route that is valid JSON but not an object.
    The [except] block of [handle_message], entered with the message body
    parsed to an object and the request id assigned, sends one [error]
    frame, tagged with the requested framework, and returns status 500. *)
Theorem exceptions_are_contained (E : env) (cfg : config) (event : event) (w : world) :
  (exists r w', lambda_handler E cfg event w = (Ok r, w')) /\
  (forall rc connection_id b v,
      inbound_text E event rc connection_id b v ->
      is_object v = false ->
      exists w',
        lambda_handler E cfg event w
        = (Ok (status 500 ("Internal server error: '" +:+ type_name v
                           +:+ "' object has no attribute 'get'")), w') /\
        calls w' = calls w) /\
  (forall api connection_id fields request_id e w0,
      exists w' frame,
        handle_message_except E api connection_id (Some (JObj fields))
          (Some request_id) e w0
        = (Ok (status 500 ("Failed to process message: " +:+ exn_str e)), w') /\
        frames_of (calls w') = frames_of (calls w0) ++ [frame] /\
        is_error frame /\
        frame_field "agentFramework" frame = Some (requested_framework fields)).
Proof.
  split; [apply lambda_handler_returns|]. split.
  - intros rc connection_id b v. apply non_object_message_fails.
  - intros api connection_id fields request_id e w0.
    destruct (handle_message_except_sends E api connection_id fields request_id e w0)
      as (w' & Hrun & Hframes).
    eexists w', _. split; [exact Hrun|]. split; [exact Hframes|].
    split; reflexivity.
Qed.

Lemma exceptions_are_contained_witness :
  exists w',
    lambda_handler demo_deployment demo_cfg (message_event "C1" "[1]") empty_world
    = (Ok (status 500 "Internal server error: 'list' object has no attribute 'get'"), w') /\
    calls w' = [].
Proof.
  refine (proj1 (proj2 (exceptions_are_contained demo_deployment demo_cfg
                          (message_event "C1" "[1]") empty_world))
            {| routeKey := Some "$default"; connectionId := Some "C1";
               domainName := Some "ws.example.com"; stage := Some "prod" |}
            "C1" "[1]" (JArr [JNum 1]) _ eq_refl).
  split; reflexivity.
Defined.

(** ** Variant B: extraction of the final text *)

(** C4, as stated, fails: the body [{"response": "hi"}] has neither a
    content list nor a message field, and the text extracted from it is
    [hi], not the JSON rendering of the body. *)
Lemma response_field_goes_first :
  let body := JObj [("response", JStr "hi")] in
  has_list "content" body = Ok false /\
  py_in "message" body = Ok false /\
  extract_completion body = Ok "hi" /\
  extract_completion body <> Ok (json_dumps body).
Proof. vm_compute. repeat split; discriminate. Qed.

Lemma body_content_text_items texts : forall completion,
  body_content_text (map text_item texts) completion
  = completion +:+ concat_texts texts.
Proof.
  induction texts as [|s texts IH]; intros completion.
  - cbn [map body_content_text concat_texts]. now rewrite append_empty_r.
  - change (body_content_text (map text_item texts) (completion +:+ s)
            = completion +:+ (s +:+ concat_texts texts)).
    rewrite IH. now rewrite append_assoc.
Qed.

(** C4, amended. Extraction looks at the shapes of the body in a fixed
    order, and the first is a [response] field: when the body has one the
    text comes from it (its content list, else its message, else the JSON
    rendering of the response object; a response that is a string is the
    text itself). Only a body without a [response] field is read as the
    claim says: a content list of [{text}] items gives the concatenation of
    the texts ([{content: [{text: "a"}, {text: "b"}]}] gives [ab]), else a
    message field gives the message ([{message: "x"}] gives [x]), else the
    text is the JSON rendering of the whole body. *)
Theorem extraction_priority_order :
  extract_completion (JObj [("content", JArr [text_item "a"; text_item "b"])])
  = Ok "ab" /\
  extract_completion (JObj [("message", JStr "x")]) = Ok "x" /\
  (forall fields,
      lookup_field "response" fields = None ->
      extract_completion (JObj fields)
      = match lookup_field "content" fields with
        | Some (JArr items) => Ok (body_content_text items EmptyString)
        | _ =>
            match lookup_field "message" fields with
            | Some m => Ok (py_str m)
            | None => Ok (json_dumps (JObj fields))
            end
        end) /\
  (forall fields texts,
      lookup_field "response" fields = None ->
      lookup_field "content" fields = Some (JArr (map text_item texts)) ->
      extract_completion (JObj fields) = Ok (concat_texts texts)) /\
  (forall fields r,
      lookup_field "response" fields = Some r ->
      extract_completion (JObj fields)
      = match r with
        | JObj inner =>
            match lookup_field "content" inner with
            | Some (JArr items) => Ok (response_content_text items EmptyString)
            | _ =>
                match lookup_field "message" inner with
                | Some m => Ok (py_str m)
                | None => Ok (json_dumps r)
                end
            end
        | _ => Ok (py_str r)
        end).
Proof.
  assert (Hplain : forall fields,
             lookup_field "response" fields = None ->
             extract_completion (JObj fields)
             = match lookup_field "content" fields with
               | Some (JArr items) => Ok (body_content_text items EmptyString)
               | _ =>
                   match lookup_field "message" fields with
                   | Some m => Ok (py_str m)
                   | None => Ok (json_dumps (JObj fields))
                   end
               end).
  { intros fields Hr.
    unfold extract_completion, rbind, has_list, py_in, py_getitem. rewrite Hr.
    destruct (lookup_field "content" fields) as [[| | | |items|]|];
      cbn [is_list list_items];
      destruct (lookup_field "message" fields); reflexivity. }
  split; [reflexivity|]. split; [reflexivity|]. split; [exact Hplain|]. split.
  - intros fields texts Hr Hc. rewrite (Hplain fields Hr), Hc.
    now rewrite body_content_text_items.
  - intros fields r Hr.
    unfold extract_completion, rbind, has_list, py_in, py_getitem. rewrite Hr.
    destruct r as [| | | | |inner]; try reflexivity.
    destruct (lookup_field "content" inner) as [[| | | |items|]|];
      cbn [is_list list_items];
      destruct (lookup_field "message" inner); reflexivity.
Qed.

Lemma extraction_priority_order_witness :
  extract_completion
    (JObj [("sessionId", JStr "s-1");
           ("content", JArr (map text_item ["<div>"; "Report"; "</div>"]))])
  = Ok "<div>Report</div>".
Proof.
  exact (proj1 (proj2 (proj2 (proj2 extraction_priority_order)))
           [("sessionId", JStr "s-1");
            ("content", JArr (map text_item ["<div>"; "Report"; "</div>"]))]
           ["<div>"; "Report"; "</div>"] eq_refl eq_refl).
Defined.

(** ** The HTML cleaner *)

(** *** Startswith / find *)

Lemma startswith_app p : forall s,
  startswith p s = true -> exists r, s = p ++ r.
Proof.
  induction p as [|a p IH]; intros s H.
  - exists s. reflexivity.
  - destruct s as [|b s]; [discriminate|]. cbn in H.
    apply andb_prop in H. destruct H as [Hab Hp].
    apply Ascii.eqb_eq in Hab. subst b.
    destruct (IH s Hp) as [r ->]. exists r. reflexivity.
Qed.

Lemma startswith_prefix p : forall r, startswith p (p ++ r) = true.
Proof.
  induction p as [|a p IH]; intros r; [reflexivity|].
  cbn. now rewrite Ascii.eqb_refl, IH.
Qed.

Lemma startswith_weaken p : forall a b,
  startswith p a = true -> startswith p (a ++ b) = true.
Proof.
  intros a b H. destruct (startswith_app p a H) as [r ->].
  rewrite <- app_assoc. apply startswith_prefix.
Qed.

Lemma find_opt_tail p c s : find_opt p (c :: s) = None -> find_opt p s = None.
Proof.
  cbn [find_opt]. destruct (startswith p (c :: s)); [discriminate|].
  destruct (find_opt p s); [discriminate | reflexivity].
Qed.

Lemma find_opt_suffix p a : forall b, find_opt p (a ++ b) = None -> find_opt p b = None.
Proof.
  induction a as [|c a IH]; intros b H; [exact H|].
  apply IH. apply (find_opt_tail p c). exact H.
Qed.

Lemma find_opt_skipn p n : forall s, find_opt p s = None -> find_opt p (skipn n s) = None.
Proof.
  intros s H. apply (find_opt_suffix p (firstn n s)).
  now rewrite firstn_skipn.
Qed.

Lemma find_opt_nil_pattern s : find_opt [] s = Some 0.
Proof. destruct s; reflexivity. Qed.

Lemma find_opt_prefix p : forall a b,
  p <> [] -> find_opt p (a ++ b) = None -> find_opt p a = None.
Proof.
  intros a b Hp. induction a as [|c a IH]; intros H.
  - destruct p; [contradiction | reflexivity].
  - cbn [app find_opt] in *.
    destruct (startswith p (c :: a)) eqn:Hs.
    + apply (startswith_weaken p (c :: a) b) in Hs. cbn [app] in Hs.
      rewrite Hs in H. discriminate.
    + destruct (startswith p (c :: a ++ b)); [discriminate|].
      destruct (find_opt p (a ++ b)); [discriminate|].
      now rewrite IH.
Qed.

Lemma find_opt_firstn p n s :
  p <> [] -> find_opt p s = None -> find_opt p (firstn n s) = None.
Proof.
  intros Hp H. apply (find_opt_prefix p (firstn n s) (skipn n s) Hp).
  now rewrite firstn_skipn.
Qed.

Lemma find_opt_found p : forall s i,
  find_opt p s = Some i -> startswith p (skipn i s) = true.
Proof.
  induction s as [|c s IH]; intros i H; cbn [find_opt] in H.
  - destruct (startswith p []) eqn:Hs; [|discriminate].
    injection H as <-. exact Hs.
  - destruct (startswith p (c :: s)) eqn:Hs.
    + injection H as <-. exact Hs.
    + destruct (find_opt p s) as [j|]; [|discriminate].
      injection H as <-. cbn [skipn]. now apply IH.
Qed.

Lemma find_opt_zero p s : startswith p s = true -> find_opt p s = Some 0.
Proof.
  intros H. destruct s; cbn [find_opt]; now rewrite H.
Qed.

(** *** Replace *)

Lemma replace_absent old new : forall s,
  old <> [] -> find_opt old s = None -> replace old new s = s.
Proof.
  intros s Hold. unfold replace. induction s as [|c s IH]; intros H; [reflexivity|].
  cbn [replace_from]. cbn [find_opt] in H.
  destruct (startswith old (c :: s)); [discriminate|].
  destruct (find_opt old s); [discriminate|].
  now rewrite IH.
Qed.

Lemma find_char_absent c : forall s,
  forallb (fun d => negb (Ascii.eqb c d)) s = true -> find_opt [c] s = None.
Proof.
  induction s as [|d s IH]; intros H; [reflexivity|].
  cbn in H. apply andb_prop in H. destruct H as [Hd Hs].
  cbn [find_opt startswith]. apply negb_true_iff in Hd. rewrite Hd. cbn.
  now rewrite IH.
Qed.

(** *** Strip *)

Lemma rstrip_by_keep p c s : p c = false -> rstrip_by p (c :: s) = c :: rstrip_by p s.
Proof. intros H. cbn [rstrip_by]. destruct (rstrip_by p s); now rewrite ?H. Qed.

Lemma rstrip_by_prefix p : forall s,
  exists tail, s = rstrip_by p s ++ tail /\ forallb p tail = true.
Proof.
  induction s as [|c s IH]; [exists []; split; reflexivity|].
  destruct IH as (tail & Hs & Htail). cbn [rstrip_by].
  destruct (rstrip_by p s) as [|d r] eqn:Hr.
  - destruct (p c) eqn:Hc.
    + exists (c :: s). split; [reflexivity|]. cbn. rewrite Hc.
      cbn [app] in Hs. now rewrite Hs.
    + exists tail. split; [|exact Htail]. cbn [app] in *. now rewrite <- Hs.
  - exists tail. split; [|exact Htail]. cbn [app] in *. now rewrite <- Hs.
Qed.

Lemma last_is_cons p c d s : last_is p (c :: d :: s) = last_is p (d :: s).
Proof. reflexivity. Qed.

Lemma rstrip_by_last p : forall s, last_is p (rstrip_by p s) = false.
Proof.
  induction s as [|c s IH]; [reflexivity|]. cbn [rstrip_by].
  destruct (rstrip_by p s) as [|d r].
  - destruct (p c) eqn:Hc; [reflexivity|]. cbn. exact Hc.
  - rewrite last_is_cons. exact IH.
Qed.

Lemma rstrip_by_id p : forall s, last_is p s = false -> rstrip_by p s = s.
Proof.
  induction s as [|c s IH]; intros H; [reflexivity|]. cbn [rstrip_by].
  destruct s as [|d s].
  - cbn in *. now rewrite H.
  - rewrite last_is_cons in H. rewrite (IH H). reflexivity.
Qed.

Lemma lstrip_by_suffix p : forall s, exists head, s = head ++ lstrip_by p s.
Proof.
  induction s as [|c s IH]; [exists []; reflexivity|]. cbn [lstrip_by].
  destruct (p c).
  - destruct IH as (head & Hs). exists (c :: head). cbn [app]. now rewrite <- Hs.
  - exists []. reflexivity.
Qed.

Lemma lstrip_by_id p s : first_is p s = false -> lstrip_by p s = s.
Proof. destruct s as [|c s]; [reflexivity|]. cbn. now intros ->. Qed.

Lemma lstrip_by_first p : forall s, first_is p (lstrip_by p s) = false.
Proof.
  induction s as [|c s IH]; [reflexivity|]. cbn [lstrip_by].
  destruct (p c) eqn:Hc; [exact IH|]. cbn. exact Hc.
Qed.

Lemma last_is_app p a : forall b, b <> [] -> last_is p (a ++ b) = last_is p b.
Proof.
  induction a as [|c a IH]; intros b Hb; [reflexivity|].
  cbn [app]. destruct (a ++ b) as [|d r] eqn:Hab.
  - destruct a; [cbn in Hab; contradiction | discriminate].
  - rewrite last_is_cons, <- Hab. now apply IH.
Qed.

Lemma last_is_suffix p head s :
  last_is p (head ++ s) = false -> last_is p s = false.
Proof.
  destruct s as [|c s]; [reflexivity|].
  rewrite last_is_app by discriminate. auto.
Qed.

Lemma lstrip_by_last p q s : last_is q s = false -> last_is q (lstrip_by p s) = false.
Proof.
  intros H. destruct (lstrip_by_suffix p s) as (head & Hs).
  rewrite Hs in H. now apply last_is_suffix in H.
Qed.

(** *** Tidy *)

Lemma tidy_suffix a : forall b, tidy (a ++ b) = true -> tidy b = true.
Proof.
  induction a as [|c a IH]; intros b H; [exact H|].
  cbn [app tidy] in H. apply andb_prop in H. apply IH, H.
Qed.

Lemma first_is_app p a b : a <> [] -> first_is p (a ++ b) = first_is p a.
Proof. destruct a; [contradiction | reflexivity]. Qed.

Lemma tidy_prefix a : forall b, tidy (a ++ b) = true -> tidy a = true.
Proof.
  induction a as [|c a IH]; intros b H; [reflexivity|].
  cbn [app tidy] in *. apply andb_prop in H. destruct H as [Hc Ha].
  rewrite (IH b Ha), andb_true_r.
  destruct (isspace c); [|reflexivity].
  apply andb_prop in Hc. destruct Hc as [Hsp Hnext]. rewrite Hsp. cbn [andb].
  destruct a as [|d a]; [reflexivity|]. exact Hnext.
Qed.

Lemma tidy_skipn n s : tidy s = true -> tidy (skipn n s) = true.
Proof. intros H. apply (tidy_suffix (firstn n s)). now rewrite firstn_skipn. Qed.

Lemma tidy_firstn n s : tidy s = true -> tidy (firstn n s) = true.
Proof. intros H. apply (tidy_prefix _ (skipn n s)). now rewrite firstn_skipn. Qed.

Lemma tidy_rstrip p s : tidy s = true -> tidy (rstrip_by p s) = true.
Proof.
  intros H. destruct (rstrip_by_prefix p s) as (tail & Hs & _).
  rewrite Hs in H. now apply tidy_prefix in H.
Qed.

Lemma tidy_lstrip p s : tidy s = true -> tidy (lstrip_by p s) = true.
Proof.
  intros H. destruct (lstrip_by_suffix p s) as (head & Hs).
  rewrite Hs in H. now apply tidy_suffix in H.
Qed.

Lemma tidy_nows_app w : forall r, nows w = true -> tidy (w ++ r) = tidy r.
Proof.
  induction w as [|c w IH]; intros r H; [reflexivity|].
  cbn in H. apply andb_prop in H. destruct H as [Hc Hw].
  apply negb_true_iff in Hc. cbn [app tidy]. rewrite Hc. cbn [andb].
  now apply IH.
Qed.

(** Appending text that starts with a character other than whitespace. *)
Lemma tidy_app a : forall b,
  tidy a = true -> tidy b = true -> first_is isspace b = false ->
  tidy (a ++ b) = true.
Proof.
  induction a as [|c a IH]; intros b Ha Hb Hfirst; [exact Hb|].
  cbn [app tidy] in *. apply andb_prop in Ha. destruct Ha as [Hc Ha].
  rewrite (IH b Ha Hb Hfirst), andb_true_r.
  destruct (isspace c); [|reflexivity].
  apply andb_prop in Hc. destruct Hc as [Hsp Hnext]. rewrite Hsp. cbn [andb].
  destruct a as [|d a]; [cbn [app]; now rewrite Hfirst | exact Hnext].
Qed.

Lemma tidy_no_char c : forall s,
  tidy s = true -> isspace c = true -> Ascii.eqb c " " = false ->
  forallb (fun d => negb (Ascii.eqb c d)) s = true.
Proof.
  induction s as [|d s IH]; intros H Hc Hne; [reflexivity|].
  cbn [tidy] in H. apply andb_prop in H. destruct H as [Hd Hs].
  cbn [forallb]. rewrite (IH Hs Hc Hne), andb_true_r.
  destruct (Ascii.eqb c d) eqn:Hcd; [|reflexivity].
  apply Ascii.eqb_eq in Hcd. subst d. rewrite Hc in Hd.
  apply andb_prop in Hd. destruct Hd as [Hsp _]. congruence.
Qed.

(** *** Split / join *)

Lemma nows_app a b : nows (a ++ b) = nows a && nows b.
Proof. apply forallb_app. Qed.

Lemma split_from_words : forall s word,
  nows word = true ->
  Forall (fun x => x <> [] /\ nows x = true) (split_from word s).
Proof.
  induction s as [|c s IH]; intros word Hw; cbn [split_from].
  - destruct word; [constructor|]. constructor; [|constructor]. split; [discriminate | exact Hw].
  - destruct (isspace c) eqn:Hc.
    + destruct word as [|d word]; [apply IH; reflexivity|].
      constructor; [split; [discriminate | exact Hw] | apply IH; reflexivity].
    + apply IH. rewrite nows_app, Hw. cbn. now rewrite Hc.
Qed.

Lemma split_from_nonempty : forall s word, word <> [] -> split_from word s <> [].
Proof.
  induction s as [|c s IH]; intros word Hw; cbn [split_from].
  - destruct word; [contradiction | discriminate].
  - destruct (isspace c).
    + destruct word; [contradiction | discriminate].
    + apply IH. destruct word; discriminate.
Qed.

Lemma first_is_nows w : w <> [] -> nows w = true -> first_is isspace w = false.
Proof.
  destruct w as [|c w]; [contradiction|]. cbn. intros _ H.
  apply andb_prop in H. destruct H as [H _]. now apply negb_true_iff in H.
Qed.

Lemma join_words_tidy : forall ws,
  Forall (fun x => x <> [] /\ nows x = true) ws ->
  tidy (join (T " ") ws) = true /\
  (ws <> [] -> first_is isspace (join (T " ") ws) = false).
Proof.
  induction 1 as [|w ws [Hne Hw] Hws [IHt IHf]]; [split; [reflexivity | contradiction]|].
  cbn [join]. destruct ws as [|w' ws'].
  - split; [|intros _; now apply first_is_nows].
    rewrite <- (app_nil_r w). now rewrite tidy_nows_app.
  - split.
    + rewrite tidy_nows_app by exact Hw.
      change (T " " ++ join (T " ") (w' :: ws')) with (" "%char :: join (T " ") (w' :: ws')).
      cbn [tidy]. rewrite IHt, andb_true_r.
      change (isspace " ") with true. cbn [Ascii.eqb Bool.eqb andb].
      rewrite IHf by discriminate. reflexivity.
    + intros _. rewrite first_is_app by exact Hne. now apply first_is_nows.
Qed.

Lemma join_split_tidy s : tidy (join (T " ") (split s)) = true.
Proof. apply join_words_tidy, split_from_words. reflexivity. Qed.

(** On tidy text that neither starts nor ends with a space,
    [' '.join(s.split())] changes nothing. *)
Lemma join_split_from_id : forall s word,
  tidy s = true ->
  last_is isspace s = false ->
  nows word = true ->
  (word = [] -> first_is isspace s = false) ->
  join (T " ") (split_from word s) = word ++ s.
Proof.
  induction s as [|c s IH]; intros word Ht Hlast Hw Hfirst; cbn [split_from].
  - rewrite app_nil_r. destruct word; reflexivity.
  - cbn [tidy] in Ht. apply andb_prop in Ht. destruct Ht as [Hc Ht].
    destruct (isspace c) eqn:Hsp.
    + apply andb_prop in Hc. destruct Hc as [Hc Hnext].
      apply Ascii.eqb_eq in Hc. subst c. apply negb_true_iff in Hnext.
      destruct s as [|d s]; [cbn in Hlast; discriminate|].
      rewrite last_is_cons in Hlast.
      destruct word as [|e word]; [specialize (Hfirst eq_refl); cbn in Hfirst; congruence|].
      cbn [join].
      destruct (split_from [] (d :: s)) as [|x xs] eqn:Hsplit.
      { exfalso. cbn [split_from] in Hsplit. cbn in Hnext. rewrite Hnext in Hsplit.
        revert Hsplit. apply split_from_nonempty. discriminate. }
      rewrite <- Hsplit. rewrite (IH [] Ht Hlast eq_refl (fun _ => Hnext)).
      reflexivity.
    + rewrite (IH (word ++ [c])).
      * now rewrite <- app_assoc.
      * exact Ht.
      * destruct s as [|d s]; [reflexivity|]. now rewrite last_is_cons in Hlast.
      * rewrite nows_app, Hw. cbn. now rewrite Hsp.
      * intros Hnil. destruct word; discriminate.
Qed.

Lemma join_split_id s :
  tidy s = true -> last_is isspace s = false -> first_is isspace s = false ->
  join (T " ") (split s) = s.
Proof.
  intros Ht Hl Hf. unfold split.
  now rewrite (join_split_from_id s [] Ht Hl eq_refl (fun _ => Hf)).
Qed.

(** *** Earliest start *)

Lemma earliest_start_fold ps s :
  earliest_start ps s = fold_left (start_step s) ps (-1)%Z.
Proof. reflexivity. Qed.

Lemma find_range p s : (find p s = -1 \/ 0 <= find p s)%Z.
Proof. unfold find. destruct (find_opt p s); lia. Qed.

Lemma fold_start_none s : forall ps acc,
  Forall (fun p => find_opt p s = None) ps ->
  fold_left (start_step s) ps acc = acc.
Proof.
  induction ps as [|p ps IH]; intros acc H; [reflexivity|].
  inversion H as [|? ? Hp Hps]; subst. cbn [fold_left].
  unfold start_step at 2, find. rewrite Hp. cbn. now apply IH.
Qed.

Lemma fold_start_bounds s : forall ps acc,
  (acc = -1 \/ 0 <= acc)%Z ->
  let r := fold_left (start_step s) ps acc in
  (r = -1 \/ 0 <= r)%Z /\
  (acc <> -1 -> r <> -1 /\ r <= acc)%Z /\
  (forall p, In p ps -> find p s <> (-1)%Z -> r <> (-1)%Z /\ (r <= find p s)%Z) /\
  (r <> (-1)%Z -> r = acc \/ exists p, In p ps /\ find p s = r).
Proof.
  induction ps as [|p ps IH]; intros acc Hacc; cbn [fold_left].
  - cbn. repeat split; try lia; auto; try contradiction.
  - set (acc' := start_step s acc p).
    assert (Hacc' : (acc' = -1 \/ 0 <= acc')%Z).
    { unfold acc', start_step. destruct (find_range p s);
        destruct (find p s =? -1)%Z eqn:E1; try lia;
        destruct ((acc =? -1)%Z || (find p s <? acc)%Z); lia. }
    destruct (IH acc' Hacc') as (Hr & Hle & Hin & Hsrc).
    assert (Hstep : (acc <> -1 -> acc' <> -1 /\ acc' <= acc)%Z).
    { unfold acc', start_step. intros Hne.
      destruct (find p s =? -1)%Z eqn:E1; [lia|].
      destruct (acc =? -1)%Z eqn:E2; [lia|]. cbn [orb].
      destruct (find p s <? acc)%Z eqn:E3; [|lia].
      destruct (find_range p s); lia. }
    assert (Hp : (find p s <> -1 -> acc' <> -1 /\ acc' <= find p s)%Z).
    { unfold acc', start_step. intros Hne.
      destruct (find p s =? -1)%Z eqn:E1; [lia|].
      destruct (acc =? -1)%Z eqn:E2; cbn [orb]; [destruct (find_range p s); lia|].
      destruct (find p s <? acc)%Z eqn:E3; [destruct (find_range p s); lia|].
      lia. }
    assert (Hfrom : (acc' = acc \/ find p s = acc')%Z).
    { unfold acc', start_step.
      destruct (find p s =? -1)%Z; [now left|].
      destruct ((acc =? -1)%Z || (find p s <? acc)%Z); [now right | now left]. }
    split; [exact Hr|]. split; [|split].
    + intros Hne. destruct (Hstep Hne) as [H1 H2]. destruct (Hle H1). lia.
    + intros q [<- | Hq] Hfound.
      * destruct (Hp Hfound) as [H1 H2]. destruct (Hle H1). lia.
      * now apply Hin.
    + intros Hne. destruct (Hsrc Hne) as [Heq | (q & Hq & Hfq)].
      * destruct Hfrom as [Hf | Hf]; [left; lia|].
        right. exists p. split; [now left | lia].
      * right. exists q. split; [now right | exact Hfq].
Qed.

Lemma anchored_no_slice s : anchored s -> (0 <? earliest_start html_start_patterns s)%Z = false.
Proof.
  intros [(p & Hin & Hp) | Hnone]; rewrite earliest_start_fold.
  - destruct (fold_start_bounds s html_start_patterns (-1)%Z (or_introl eq_refl))
      as (_ & _ & Hfound & _).
    assert (Hz : find p s = 0%Z) by (unfold find; now rewrite (find_opt_zero p s Hp)).
    destruct (Hfound p Hin) as [_ Hle]; [lia|]. apply Z.ltb_ge. lia.
  - now rewrite fold_start_none.
Qed.

Lemma slice_anchored s :
  let start_index := earliest_start html_start_patterns s in
  anchored (if (0 <? start_index)%Z then slice_from start_index s else s).
Proof.
  cbv zeta. rewrite earliest_start_fold.
  destruct (fold_start_bounds s html_start_patterns (-1)%Z (or_introl eq_refl))
    as (Hr & _ & Hfound & Hsrc).
  set (r := fold_left (start_step s) html_start_patterns (-1)%Z) in *.
  destruct (Z.eq_dec r (-1)%Z) as [Hnone | Hsome].
  - rewrite Hnone. cbn. right. apply List.Forall_forall. intros p Hin.
    destruct (find_opt p s) as [i|] eqn:Hf; [|reflexivity].
    destruct (Hfound p Hin) as [Hne _]; [unfold find; rewrite Hf; lia | contradiction].
  - destruct (Hsrc Hsome) as [Habs | (p & Hin & Hp)]; [contradiction|].
    left. exists p. split; [exact Hin|].
    unfold find in Hp. destruct (find_opt p s) as [i|] eqn:Hf; [|lia].
    pose proof (find_opt_found p s i Hf) as Hstart.
    destruct (0 <? r)%Z eqn:Hpos.
    + unfold slice_from. rewrite <- Hp, Nat2Z.id. exact Hstart.
    + assert (i = 0) by (apply Z.ltb_ge in Hpos; lia). subst i. exact Hstart.
Qed.

(** *** The last closing tag *)

Lemma search_last_tag_cons c s :
  search_last_tag (c :: s)
  = match close_tag_len (c :: s) with
    | Some n =>
        if no_lt (skipn n (c :: s)) then Some n
        else option_map S (search_last_tag s)
    | None => option_map S (search_last_tag s)
    end.
Proof. reflexivity. Qed.

Lemma no_lt_app a b : no_lt (a ++ b) = no_lt a && no_lt b.
Proof. apply forallb_app. Qed.

Lemma index_gt_firstn : forall r k,
  index_gt r = Some k ->
  index_gt (firstn (S k) r) = Some k /\ S k <= length r /\
  last_is is_gt (firstn (S k) r) = true.
Proof.
  induction r as [|c r IH]; intros k H; [discriminate|].
  cbn [index_gt] in H. destruct (Ascii.eqb c ">") eqn:Hc.
  - injection H as <-. cbn [firstn index_gt length last_is]. rewrite Hc.
    repeat split; [lia | exact Hc].
  - destruct (index_gt r) as [j|] eqn:Hj; [|discriminate]. injection H as <-.
    destruct (IH j eq_refl) as (H1 & H2 & H3).
    change (firstn (S (S j)) (c :: r)) with (c :: firstn (S j) r).
    cbn [index_gt length]. rewrite Hc, H1. repeat split; [lia|].
    destruct r as [|d r]; [discriminate|]. exact H3.
Qed.

Lemma index_gt_app : forall a b k, index_gt a = Some k -> index_gt (a ++ b) = Some k.
Proof.
  induction a as [|c a IH]; intros b k H; [discriminate|].
  cbn [app index_gt] in *. destruct (Ascii.eqb c ">"); [exact H|].
  destruct (index_gt a) as [j|]; [|discriminate].
  now rewrite (IH b j eq_refl).
Qed.

Lemma close_tag_len_firstn t n :
  close_tag_len t = Some n ->
  close_tag_len (firstn n t) = Some n /\ n <= length t /\
  last_is is_gt (firstn n t) = true /\ 4 <= n.
Proof.
  destruct t as [|a [|b [|c r]]]; try discriminate. cbn [close_tag_len].
  destruct (Ascii.eqb a "<" && Ascii.eqb b "/" && negb (Ascii.eqb c ">")) eqn:Hhead;
    [|discriminate].
  destruct (index_gt r) as [k|] eqn:Hk; [|discriminate]. intros [= <-].
  destruct (index_gt_firstn r k Hk) as (H1 & H2 & H3).
  cbn [firstn close_tag_len length]. rewrite Hhead, H1. repeat split; try lia.
  destruct (firstn (S k) r) as [|d r'] eqn:Hf; [discriminate|].
  exact H3.
Qed.

Lemma close_tag_len_app a b n :
  close_tag_len a = Some n -> close_tag_len (a ++ b) = Some n.
Proof.
  destruct a as [|x [|y [|z r]]]; try discriminate. cbn [close_tag_len app].
  destruct (Ascii.eqb x "<" && Ascii.eqb y "/" && negb (Ascii.eqb z ">"));
    [|discriminate].
  destruct (index_gt r) as [k|] eqn:Hk; [|discriminate].
  now rewrite (index_gt_app r b k Hk).
Qed.

Lemma close_tag_len_not_lt c s : Ascii.eqb c "<" = false -> close_tag_len (c :: s) = None.
Proof. intros H. destruct s as [|b [|d r]]; cbn; now rewrite ?H. Qed.

Lemma close_tag_len_not_slash c d s :
  Ascii.eqb d "/" = false -> close_tag_len (c :: d :: s) = None.
Proof. intros H. destruct s as [|e r]; cbn; now rewrite ?H, ?andb_false_r. Qed.

Lemma search_last_tag_end : forall t e,
  search_last_tag t = Some e ->
  no_lt (skipn e t) = true /\ e <= length t /\ 4 <= e.
Proof.
  induction t as [|c t IH]; intros e H; [discriminate|].
  rewrite search_last_tag_cons in H.
  assert (Hlater : option_map S (search_last_tag t) = Some e ->
                   no_lt (skipn e (c :: t)) = true /\ e <= length (c :: t) /\ 4 <= e).
  { destruct (search_last_tag t) as [e'|]; [|discriminate]. intros [= <-].
    destruct (IH e' eq_refl) as (H1 & H2 & H3). cbn [skipn length].
    repeat split; [exact H1 | lia | lia]. }
  destruct (close_tag_len (c :: t)) as [n|] eqn:Hn; [|auto].
  destruct (no_lt (skipn n (c :: t))) eqn:Hno; [|auto].
  injection H as <-.
  destruct (close_tag_len_firstn _ _ Hn) as (_ & H2 & _ & H4). auto.
Qed.

Lemma skipn_firstn_split {A} (m k : nat) (t : list A) :
  m <= k -> k <= length t -> skipn m t = skipn m (firstn k t) ++ skipn k t.
Proof.
  intros Hmk Hk. rewrite <- (firstn_skipn k t) at 1.
  rewrite skipn_app. rewrite length_firstn, Nat.min_l by exact Hk.
  replace (m - k) with 0 by lia. reflexivity.
Qed.

Lemma firstn_firstn_same {A} (n : nat) (t : list A) :
  n <= length t -> length (firstn n t) = n.
Proof. intros H. rewrite length_firstn. lia. Qed.

Lemma search_last_tag_firstn : forall t e,
  search_last_tag t = Some e ->
  search_last_tag (firstn e t) = Some e /\ last_is is_gt (firstn e t) = true.
Proof.
  induction t as [|c t IH]; intros e H; [discriminate|].
  pose proof (search_last_tag_end _ _ H) as (Hend & Hlen & H4).
  rewrite search_last_tag_cons in H.
  assert (Hhead : forall n,
             close_tag_len (c :: t) = Some n -> e = n ->
             search_last_tag (firstn e (c :: t)) = Some e /\
             last_is is_gt (firstn e (c :: t)) = true).
  { intros n Hn ->. destruct (close_tag_len_firstn _ _ Hn) as (H1 & H2 & H3 & H5).
    split; [|exact H3].
    destruct n as [|n]; [lia|]. cbn [firstn]. rewrite search_last_tag_cons.
    change (c :: firstn n t) with (firstn (S n) (c :: t)). rewrite H1.
    rewrite skipn_all2 by (rewrite length_firstn; lia). reflexivity. }
  assert (Hlater : option_map S (search_last_tag t) = Some e ->
             (forall n, close_tag_len (c :: t) = Some n ->
                        no_lt (skipn n (c :: t)) = false) ->
             search_last_tag (firstn e (c :: t)) = Some e /\
             last_is is_gt (firstn e (c :: t)) = true).
  { destruct (search_last_tag t) as [e'|] eqn:He'; [|discriminate].
    intros [= <-] Hfail.
    destruct (IH e' eq_refl) as (IH1 & IH2).
    destruct (search_last_tag_end _ _ He') as (_ & Hlen' & H4').
    cbn [firstn]. split.
    - rewrite search_last_tag_cons, IH1. cbn [option_map].
      destruct (close_tag_len (c :: firstn e' t)) as [m|] eqn:Hm; [|reflexivity].
      change (c :: firstn e' t) with (firstn (S e') (c :: t)) in *.
      destruct (close_tag_len_firstn _ _ Hm) as (_ & Hmlen & _).
      rewrite length_firstn in Hmlen.
      assert (Hfull : close_tag_len (c :: t) = Some m).
      { rewrite <- (firstn_skipn (S e') (c :: t)). now apply close_tag_len_app. }
      specialize (Hfail m Hfull).
      rewrite (skipn_firstn_split m (S e') (c :: t)) in Hfail by lia.
      rewrite no_lt_app, Hend, andb_true_r in Hfail. now rewrite Hfail.
    - destruct (firstn e' t) as [|d r] eqn:Hf; [|exact IH2].
      destruct e'; [lia|]. destruct t; [cbn in Hlen'; lia | discriminate]. }
  destruct (close_tag_len (c :: t)) as [n|] eqn:Hn.
  - destruct (no_lt (skipn n (c :: t))) eqn:Hno.
    + injection H as <-. now apply (Hhead n).
    + apply Hlater; [exact H|]. intros m [= <-]. exact Hno.
  - apply Hlater; [exact H|]. intros m Hm. discriminate.
Qed.

Lemma search_last_tag_app : forall a w e,
  search_last_tag a = Some e -> no_lt w = true -> search_last_tag (a ++ w) <> None.
Proof.
  induction a as [|c a IH]; intros w e H Hw; [discriminate|].
  rewrite search_last_tag_cons in H. cbn [app]. rewrite search_last_tag_cons.
  assert (Hlater : option_map S (search_last_tag a) = Some e ->
                   option_map S (search_last_tag (a ++ w)) <> None).
  { destruct (search_last_tag a) as [e'|] eqn:He'; [|discriminate]. intros _.
    specialize (IH w e' eq_refl Hw).
    destruct (search_last_tag (a ++ w)); [discriminate | contradiction]. }
  destruct (close_tag_len (c :: a)) as [n|] eqn:Hn.
  - change (c :: a ++ w) with ((c :: a) ++ w).
    rewrite (close_tag_len_app _ w _ Hn).
    destruct (close_tag_len_firstn _ _ Hn) as (_ & Hlen & _).
    rewrite skipn_app, no_lt_app.
    replace (n - length (c :: a)) with 0 by lia.
    change (skipn 0 w) with w. rewrite Hw, andb_true_r.
    destruct (no_lt (skipn n (c :: a))); [discriminate | auto].
  - destruct (close_tag_len (c :: a ++ w)) as [m|]; [|auto].
    destruct (no_lt (skipn m (c :: a ++ w))); [discriminate | auto].
Qed.

(** After the characters of a start pattern the search goes on in the
    rest of the text. *)
Lemma search_after_pattern p : In p html_start_patterns -> forall r,
  search_last_tag (p ++ r) = option_map (Nat.add (length p)) (search_last_tag r).
Proof.
  intros Hin r.
  assert (Hskip : forall c s, close_tag_len (c :: s) = None ->
            search_last_tag (c :: s) = option_map S (search_last_tag s)).
  { intros c s H. now rewrite search_last_tag_cons, H. }
  cbn in Hin.
  destruct Hin as [<- | [<- | [<- | [<- | [<- | []]]]]]; cbn [T list_ascii_of_string app];
    rewrite Hskip by (apply close_tag_len_not_slash; reflexivity);
    repeat (rewrite Hskip by (apply close_tag_len_not_lt; reflexivity));
    destruct (search_last_tag r); reflexivity.
Qed.

(** *** The pipeline *)

Lemma last_is_exclusive p q : (forall c, p c = true -> q c = false) ->
  forall s, last_is p s = true -> last_is q s = false.
Proof.
  intros Hpq. induction s as [|c s IH]; intros H; [discriminate|].
  destruct s as [|d s]; [cbn in *; auto|]. rewrite last_is_cons in *. auto.
Qed.

Lemma last_is_weaken p q : (forall c, p c = true -> q c = true) ->
  forall s, last_is q s = false -> last_is p s = false.
Proof.
  intros Hpq. induction s as [|c s IH]; intros H; [reflexivity|].
  destruct s as [|d s]; [|rewrite last_is_cons in *; auto].
  cbn in *. destruct (p c) eqn:Hc; [|reflexivity]. rewrite (Hpq c Hc) in H. discriminate.
Qed.

Lemma drop_until_lt_suffix : forall s, exists head, s = head ++ drop_until_lt s.
Proof.
  induction s as [|c s IH]; [exists []; reflexivity|]. cbn [drop_until_lt].
  destruct (Ascii.eqb c "<"); [exists []; reflexivity|].
  destruct IH as (head & Hs). exists (c :: head). cbn [app]. now rewrite <- Hs.
Qed.

Lemma drop_until_lt_first : forall s,
  no_lt s = false -> first_is is_lt (drop_until_lt s) = true.
Proof.
  induction s as [|c s IH]; intros H; [discriminate|].
  cbn [no_lt forallb] in H. cbn [drop_until_lt].
  destruct (Ascii.eqb c "<") eqn:Hc; [exact Hc|]. cbn [negb andb] in H. now apply IH.
Qed.

Lemma sub_leading_text_id s :
  s = [] \/ first_is is_lt s = true -> sub_leading_text s = s.
Proof.
  unfold sub_leading_text. intros [-> | H]; [reflexivity|].
  destruct s as [|c s]; [discriminate|]. cbn in H. unfold is_lt in H.
  cbn [no_lt forallb drop_until_lt]. now rewrite H.
Qed.

Lemma pattern_opens p : In p html_start_patterns ->
  p <> [] /\ nows p = true /\ first_is is_lt p = true.
Proof.
  cbn. intros [<- | [<- | [<- | [<- | [<- | []]]]]]; repeat split; discriminate.
Qed.

Lemma startswith_first p s q :
  startswith p s = true -> p <> [] -> first_is q s = first_is q p.
Proof.
  intros H Hp. destruct (startswith_app p s H) as [r ->].
  now apply first_is_app.
Qed.

Lemma startswith_rstrip p : forall s,
  startswith p s = true -> nows p = true ->
  startswith p (rstrip_by isspace s) = true.
Proof.
  induction p as [|a p IH]; intros s H Hp; [reflexivity|].
  destruct s as [|b s]; [discriminate|]. cbn [startswith] in H.
  apply andb_prop in H. destruct H as [Hab Hs].
  cbn in Hp. apply andb_prop in Hp. destruct Hp as [Ha Hp].
  pose proof Hab as Heq. apply Ascii.eqb_eq in Heq. subst b.
  rewrite rstrip_by_keep by now apply negb_true_iff in Ha.
  cbn [startswith]. now rewrite Hab, IH.
Qed.

Lemma anchored_nil : anchored [].
Proof. right. repeat constructor. Qed.

Lemma anchored_sub_leading s : anchored s -> anchored (sub_leading_text s).
Proof.
  intros [(p & Hin & Hp) | Hnone].
  - rewrite sub_leading_text_id; [left; eauto|].
    right. destruct (pattern_opens p Hin) as (Hne & _ & Hfirst).
    now rewrite (startswith_first p s is_lt Hp Hne).
  - unfold sub_leading_text. destruct (no_lt s); [now right|].
    right. destruct (drop_until_lt_suffix s) as (head & Hs).
    eapply Forall_impl; [exact Hnone|]. cbn beta. intros p Hp.
    rewrite Hs in Hp. now apply find_opt_suffix in Hp.
Qed.

Lemma anchored_truncate s e :
  anchored s -> search_last_tag s = Some e -> anchored (firstn e s).
Proof.
  intros [(p & Hin & Hp) | Hnone] He.
  - left. exists p. split; [exact Hin|].
    destruct (startswith_app p s Hp) as [r ->].
    rewrite (search_after_pattern p Hin) in He.
    destruct (search_last_tag r) as [e'|]; [|discriminate]. injection He as <-.
    rewrite firstn_app, firstn_all2 by lia.
    apply startswith_prefix.
  - right. eapply Forall_impl; [exact Hnone|]. cbn beta. intros p Hp.
    destruct (find_opt p (firstn e s)) eqn:Hf; [|reflexivity].
    destruct p as [|a p].
    + rewrite find_opt_nil_pattern in Hp. discriminate.
    + rewrite find_opt_firstn in Hf; [discriminate | discriminate | exact Hp].
Qed.

Lemma anchored_rstrip s : anchored s -> anchored (rstrip_by isspace s).
Proof.
  intros [(p & Hin & Hp) | Hnone].
  - left. exists p. split; [exact Hin|].
    apply startswith_rstrip; [exact Hp|]. apply (pattern_opens p Hin).
  - right. destruct (rstrip_by_prefix isspace s) as (tail & Hs & _).
    eapply Forall_impl; [exact Hnone|]. cbn beta. intros p Hp.
    destruct p as [|a p]; [rewrite find_opt_nil_pattern in Hp; discriminate|].
    rewrite Hs in Hp. apply find_opt_prefix in Hp; [exact Hp | discriminate].
Qed.

Lemma isspace_no_lt tail : forallb isspace tail = true -> no_lt tail = true.
Proof.
  unfold no_lt. induction tail as [|c tail IH]; [reflexivity|]. cbn [forallb].
  intros H. apply andb_prop in H. destruct H as [Hc Ht].
  rewrite (IH Ht), andb_true_r.
  destruct (Ascii.eqb c "<") eqn:E; [|reflexivity].
  apply Ascii.eqb_eq in E. subst c. discriminate.
Qed.

Lemma first_is_firstn p e s : 0 < e -> first_is p (firstn e s) = first_is p s.
Proof. destruct e; [lia|]. destruct s; reflexivity. Qed.

(** The last step of the cleaner, [strip()], on a text that opens with
    ["<"]. *)
Lemma strip_ws_settles s :
  s = [] \/ first_is is_lt s = true ->
  tidy s = true -> anchored s ->
  search_last_tag s = None \/
  (search_last_tag s = Some (length s) /\ last_is isspace s = false) ->
  settled (strip_ws s).
Proof.
  intros Hfirst Ht Ha Htag. unfold strip_ws, strip_by.
  assert (Hr : lstrip_by isspace (rstrip_by isspace s) = rstrip_by isspace s).
  { apply lstrip_by_id. destruct Hfirst as [-> | Hf]; [reflexivity|].
    destruct s as [|c s]; [discriminate|]. cbn in Hf. unfold is_lt in Hf.
    apply Ascii.eqb_eq in Hf. subst c. now rewrite rstrip_by_keep. }
  rewrite Hr. split.
  - destruct Hfirst as [-> | Hf]; [now left|]. right.
    destruct s as [|c s]; [discriminate|]. cbn in Hf. unfold is_lt in Hf.
    pose proof Hf as Hc. apply Ascii.eqb_eq in Hc. subst c.
    now rewrite rstrip_by_keep.
  - now apply tidy_rstrip.
  - apply rstrip_by_last.
  - now apply anchored_rstrip.
  - destruct Htag as [Hnone | [Hsome Hlast]].
    + left. destruct (rstrip_by_prefix isspace s) as (tail & Hs & Htail).
      destruct (search_last_tag (rstrip_by isspace s)) as [e|] eqn:He; [|reflexivity].
      exfalso. apply (search_last_tag_app _ tail e He (isspace_no_lt tail Htail)).
      now rewrite <- Hs.
    + right. now rewrite (rstrip_by_id isspace s Hlast).
Qed.

Lemma clean_text_settled x : settled (clean_text x).
Proof.
  unfold clean_text.
  set (t5 := join (T " ") (split _)).
  assert (H5 : tidy t5 = true) by apply join_split_tidy. clearbody t5.
  set (t6 := rstrip (T "}])") t5).
  assert (H6 : tidy t6 = true) by now apply tidy_rstrip. clearbody t6.
  set (t7 := strip _ t6).
  assert (H7 : tidy t7 = true) by now apply tidy_lstrip, tidy_rstrip. clearbody t7.
  pose proof (slice_anchored t7) as A8. cbv zeta in A8.
  set (t8 := if (0 <? earliest_start html_start_patterns t7)%Z then _ else _) in *.
  assert (H8 : tidy t8 = true).
  { unfold t8. destruct (0 <? _)%Z; [now apply tidy_skipn | exact H7]. }
  clearbody t8.
  pose proof (anchored_sub_leading t8 A8) as A9.
  assert (H9 : tidy (sub_leading_text t8) = true).
  { unfold sub_leading_text. destruct (no_lt t8); [exact H8|].
    destruct (drop_until_lt_suffix t8) as (head & Hs).
    rewrite Hs in H8. now apply tidy_suffix in H8. }
  set (t9 := sub_leading_text t8) in *. clearbody t9.
  set (t10 := match t9 with [] => t9 | _ :: _ => _ end).
  assert (F10 : t10 = [] \/ first_is is_lt t10 = true).
  { unfold t10. destruct t9 as [|c t9]; [now left|]. right.
    cbn [startswith T list_ascii_of_string]. rewrite andb_true_r.
    rewrite Ascii.eqb_sym. destruct (Ascii.eqb c "<") eqn:Hc; [exact Hc | reflexivity]. }
  assert (H10 : tidy t10 = true).
  { unfold t10. destruct t9 as [|c t9]; [reflexivity|].
    destruct (negb (startswith (T "<") (c :: t9))); [|exact H9].
    rewrite tidy_nows_app by reflexivity. now apply tidy_app. }
  assert (A10 : anchored t10).
  { unfold t10. destruct t9 as [|c t9]; [exact A9|].
    destruct (negb (startswith (T "<") (c :: t9))); [|exact A9].
    left. exists (T "<div"). split; [now left | reflexivity]. }
  clearbody t10.
  destruct (search_last_tag t10) as [e|] eqn:He.
  - destruct (search_last_tag_end _ _ He) as (_ & Hlen & H4).
    destruct (search_last_tag_firstn _ _ He) as (Hsearch & Hgt).
    apply strip_ws_settles.
    + destruct F10 as [-> | F10]; [discriminate|]. right.
      now rewrite first_is_firstn by lia.
    + now apply tidy_firstn.
    + now apply anchored_truncate.
    + right. rewrite firstn_firstn_same by exact Hlen. split; [exact Hsearch|].
      apply (last_is_exclusive is_gt isspace); [|exact Hgt].
      intros c Hc. unfold is_gt in Hc. apply Ascii.eqb_eq in Hc. now subst c.
  - apply strip_ws_settles; auto.
Qed.

(** A settled text without the two-character sequence backslash-n and
    without a closing bracket or quote at its end is a fixed point of the
    cleaner. *)
Lemma settled_fixed y :
  settled y ->
  find_opt (T "\n") y = None ->
  last_is (among noise) y = false ->
  clean_text y = y.
Proof.
  intros [Hfirst Ht Hlast Ha Htag] Hlit Hnoise.
  assert (Hsp : first_is isspace y = false).
  { destruct Hfirst as [-> | Hf]; [reflexivity|].
    destruct y as [|c y]; [discriminate|]. cbn in *. unfold is_lt in Hf.
    apply Ascii.eqb_eq in Hf. now subst c. }
  assert (Hq : first_is (among ["034"%char; "'"%char]) y = false).
  { destruct Hfirst as [-> | Hf]; [reflexivity|].
    destruct y as [|c y]; [discriminate|]. cbn in *. unfold is_lt in Hf.
    apply Ascii.eqb_eq in Hf. now subst c. }
  assert (Hchar : forall c, isspace c = true -> Ascii.eqb c " " = false ->
                            forall new, replace [c] new y = y).
  { intros c Hc Hne new. apply replace_absent; [discriminate|].
    apply find_char_absent. now apply tidy_no_char. }
  unfold clean_text.
  rewrite (replace_absent (T "\n") [] y) by (discriminate || exact Hlit).
  rewrite !Hchar by reflexivity.
  rewrite (join_split_id y Ht Hlast Hsp).
  unfold rstrip, strip, strip_by.
  rewrite (rstrip_by_id (among (T "}])")) y).
  2:{ revert Hnoise. apply last_is_weaken. intros c Hc. unfold noise, among.
      rewrite existsb_app. unfold among in Hc. now rewrite Hc. }
  rewrite (rstrip_by_id (among ["034"%char; "'"%char]) y).
  2:{ revert Hnoise. apply last_is_weaken. intros c Hc. unfold noise, among.
      rewrite existsb_app. unfold among in Hc. now rewrite Hc, orb_true_r. }
  rewrite (lstrip_by_id _ y Hq).
  rewrite (anchored_no_slice y Ha).
  rewrite (sub_leading_text_id y Hfirst).
  assert (Hwrap : match y with
                  | [] => y
                  | _ :: _ =>
                      if negb (startswith (T "<") y)
                      then T "<div>" ++ y ++ T "</div>" else y
                  end = y).
  { destruct Hfirst as [-> | Hf]; [reflexivity|].
    destruct y as [|c y]; [reflexivity|]. cbn in Hf. unfold is_lt in Hf.
    apply Ascii.eqb_eq in Hf. subst c. reflexivity. }
  rewrite Hwrap.
  assert (Hcut : match search_last_tag y with
                 | Some e => firstn e y
                 | None => y
                 end = y).
  { destruct Htag as [-> | ->]; [reflexivity | apply firstn_all]. }
  rewrite Hcut.
  unfold strip_ws, strip_by.
  now rewrite (rstrip_by_id isspace y Hlast), (lstrip_by_id isspace y Hsp).
Qed.

(** C7, as stated, fails: the cleaner turns the three characters
    [<}'] into [<}] (the quote at the end is stripped, and the brace
    it covered stays), and cleaning [<}] again strips the brace. *)
Lemma cleaner_is_not_idempotent :
  clean_html_response "<}'" = "<}" /\
  clean_html_response (clean_html_response "<}'") = "<" /\
  clean_html_response (clean_html_response "<}'") <> clean_html_response "<}'".
Proof. vm_compute. repeat split; discriminate. Qed.

(** The other way a second pass changes the text: removing one literal
    backslash-n can bring the two characters of another together. *)
Example cleaner_literal_newline_reappears :
  clean_html_response "\\nn" = "<div>\n</div>" /\
  clean_html_response (clean_html_response "\\nn") = "<div></div>".
Proof. vm_compute. split; reflexivity. Qed.

(** C7, amended. The cleaner is idempotent on every input whose cleaned
    text holds no literal backslash-n and does not end with one of the
    characters the cleaner strips from the end (closing brace, bracket or
    parenthesis, double or single quote): for such [x],
    [clean(clean(x)) == clean(x)]. *)
Theorem cleaner_idempotent_on_settled_output (x : string) :
  has_literal_newline (clean_html_response x) = false ->
  ends_with_noise (clean_html_response x) = false ->
  clean_html_response (clean_html_response x) = clean_html_response x.
Proof.
  unfold has_literal_newline, ends_with_noise, contains.
  destruct x as [|c x]; [reflexivity|].
  change (clean_html_response (String c x))
    with (string_of_list_ascii (clean_text (list_ascii_of_string (String c x)))).
  set (raw := list_ascii_of_string (String c x)).
  pose proof (clean_text_settled raw) as Hsettled.
  destruct (clean_text raw) as [|d y] eqn:Hy; [reflexivity|].
  rewrite list_ascii_of_string_of_list_ascii.
  intros Hlit Hnoise.
  destruct (find_opt (T "\n") (d :: y)) eqn:Hfind; [discriminate|].
  change (clean_html_response (string_of_list_ascii (d :: y)))
    with (string_of_list_ascii
            (clean_text (list_ascii_of_string (string_of_list_ascii (d :: y))))).
  rewrite list_ascii_of_string_of_list_ascii.
  now rewrite (settled_fixed (d :: y) Hsettled Hfind Hnoise).
Qed.

Lemma cleaner_idempotent_on_settled_output_witness :
  clean_html_response (clean_html_response "Report: <div>ok</div>}]}")
  = clean_html_response "Report: <div>ok</div>}]}".
Proof.
  exact (cleaner_idempotent_on_settled_output "Report: <div>ok</div>}]}"
           eq_refl eq_refl).
Defined.

(** * Further properties *)

(** ** The HTML extractor *)

Lemma startswith_firstn p : forall s k,
  startswith p s = true -> startswith p (firstn (length p + k) s) = true.
Proof.
  intros s k H. destruct (startswith_app p s H) as [r ->].
  rewrite firstn_app, firstn_all2 by lia. apply startswith_prefix.
Qed.

Lemma find_opt_within p : forall t j,
  find_opt p t = Some j -> find_opt p (firstn (j + length p) t) = Some j.
Proof.
  induction t as [|y t IH]; intros j H.
  - cbn [find_opt] in H. destruct (startswith p []) eqn:Hs; [|discriminate].
    injection H as <-. destruct p; [reflexivity | discriminate].
  - cbn [find_opt] in H. destruct (startswith p (y :: t)) eqn:Hs.
    + injection H as <-. cbn [Nat.add].
      pose proof (startswith_firstn p (y :: t) 0 Hs) as Hf.
      rewrite Nat.add_0_r in Hf. now apply find_opt_zero.
    + destruct (find_opt p t) as [j'|] eqn:Hj; [|discriminate]. injection H as <-.
      cbn [Nat.add firstn find_opt].
      destruct (startswith p (y :: firstn (j' + length p) t)) eqn:Hs'.
      * exfalso.
        apply (startswith_weaken p _ (skipn (j' + length p) t)) in Hs'.
        cbn [app] in Hs'. rewrite firstn_skipn in Hs'. congruence.
      * now rewrite (IH j' eq_refl).
Qed.

Lemma find_opt_bound p : forall t j, find_opt p t = Some j -> j + length p <= length t.
Proof.
  induction t as [|y t IH]; intros j H; cbn [find_opt] in H.
  - destruct (startswith p []) eqn:Hs; [|discriminate]. injection H as <-.
    destruct p; [cbn; lia | discriminate].
  - destruct (startswith p (y :: t)) eqn:Hs.
    + injection H as <-. destruct (startswith_app p _ Hs) as [r Hr].
      rewrite Hr, length_app. lia.
    + destruct (find_opt p t) as [j'|] eqn:Hj; [|discriminate]. injection H as <-.
      specialize (IH j' eq_refl). cbn [length]. lia.
Qed.

Lemma find_opt_split p : forall t j,
  find_opt p t = Some j -> exists mid post, t = mid ++ p ++ post /\ length mid = j.
Proof.
  intros t j H. pose proof (find_opt_found p t j H) as Hs.
  destruct (startswith_app p _ Hs) as [post Hpost].
  exists (firstn j t), post. split.
  - rewrite <- Hpost. now rewrite firstn_skipn.
  - apply firstn_length_le. pose proof (find_opt_bound p t j H). lia.
Qed.

Lemma search_block_fixed open close : forall s m,
  open <> [] ->
  search_block open close s = Some m -> search_block open close m = Some m.
Proof.
  intros s m Hopen. revert m.
  induction s as [|x s IH]; intros m H; [discriminate|].
  cbn [search_block] in H.
  destruct (startswith open (x :: s)) eqn:Hs; [|now apply IH].
  destruct (find_opt close (skipn (length open) (x :: s))) as [j|] eqn:Hj;
    [|now apply IH].
  injection H as <-.
  set (n := length open + j + length close).
  destruct n as [|n'] eqn:Hn0.
  { destruct open; [congruence | cbn in n; lia]. }
  assert (Hm : firstn (S n') (x :: s) = x :: firstn n' s) by reflexivity.
  rewrite Hm. cbn [search_block]. rewrite <- Hm, <- Hn0. unfold n.
  rewrite <- Nat.add_assoc. rewrite (startswith_firstn open (x :: s) _ Hs).
  rewrite skipn_firstn_comm.
  replace (length open + (j + length close) - length open) with (j + length close) by lia.
  rewrite (find_opt_within close _ j Hj).
  rewrite firstn_firstn. f_equal. f_equal. lia.
Qed.

Lemma search_block_suffix open close : forall a b,
  search_block open close (a ++ b) = None -> search_block open close b = None.
Proof.
  induction a as [|x a IH]; intros b H; [exact H|].
  apply IH. cbn [app search_block] in H.
  destruct (startswith open (x :: a ++ b)); [|exact H].
  destruct (find_opt close _); [discriminate | exact H].
Qed.

Lemma search_block_prefix open close : forall a b,
  close <> [] ->
  search_block open close (a ++ b) = None -> search_block open close a = None.
Proof.
  intros a b Hc. induction a as [|x a IH]; intros H; [reflexivity|].
  cbn [app search_block] in H.
  assert (Hrest : search_block open close (a ++ b) = None).
  { destruct (startswith open (x :: a ++ b)); [|exact H].
    destruct (find_opt close _); [discriminate | exact H]. }
  cbn [search_block]. destruct (startswith open (x :: a)) eqn:Hs; [|now apply IH].
  pose proof (startswith_weaken open (x :: a) b Hs) as Hs'. cbn [app] in Hs'.
  rewrite Hs' in H.
  destruct (find_opt close (skipn (length open) (x :: a ++ b))) eqn:Hf; [discriminate|].
  destruct (startswith_app open _ Hs) as [r Hr].
  change (x :: a ++ b) with ((x :: a) ++ b) in Hf.
  rewrite Hr in *. rewrite <- app_assoc in Hf.
  rewrite skipn_app, skipn_all, Nat.sub_diag in Hf. cbn [app skipn] in Hf.
  rewrite skipn_app, skipn_all, Nat.sub_diag. cbn [app skipn].
  change (drop 0 (r ++ b)) with (r ++ b) in Hf. change (drop 0 r) with r.
   rewrite (find_opt_prefix close r b Hc Hf). now apply IH.
Qed.

Lemma search_block_is_block open close : forall s m,
  search_block open close s = Some m -> block_of open close s m.
Proof.
  induction s as [|x s IH]; intros m H; [discriminate|].
  assert (Hlater : search_block open close s = Some m -> block_of open close (x :: s) m).
  { intros H'. destruct (IH m H') as (pre & mid & post & -> & Hm & Hf).
    exists (x :: pre), mid, post. now repeat split. }
  cbn [search_block] in H.
  destruct (startswith open (x :: s)) eqn:Hs; [|now apply Hlater].
  destruct (find_opt close (skipn (length open) (x :: s))) as [j|] eqn:Hj;
    [|now apply Hlater].
  injection H as <-.
  destruct (startswith_app open _ Hs) as [r Hr]. rewrite Hr in *. clear Hr Hlater IH.
  rewrite skipn_app, skipn_all, Nat.sub_diag in Hj. cbn [app skipn] in Hj. change (drop 0 r) with r in Hj.
  destruct (find_opt_split close r j Hj) as (mid & post & -> & Hlen).
  exists [], mid, post. cbn [app]. repeat split.
  - rewrite <- (firstn_skipn (length open + j + length close) (open ++ mid ++ close ++ post)) at 1.
    f_equal.
    replace (open ++ mid ++ close ++ post) with ((open ++ mid ++ close) ++ post)
      by now rewrite <- !app_assoc.
    rewrite skipn_app, skipn_all2 by (rewrite !length_app; lia).
    rewrite !length_app.
    replace (length open + j + length close - (length open + (length mid + length close))) with 0 by lia.
    reflexivity.
  - replace (open ++ mid ++ close ++ post) with ((open ++ mid ++ close) ++ post)
      by now rewrite <- !app_assoc.
    rewrite firstn_app, firstn_all2 by (rewrite !length_app; lia).
    rewrite !length_app.
    replace (length open + j + length close - (length open + (length mid + length close))) with 0 by lia.
    cbn [firstn]. now rewrite app_nil_r.
  - subst j. rewrite <- (find_opt_within close _ _ Hj).
    f_equal.
    replace (mid ++ close ++ post) with ((mid ++ close) ++ post) by now rewrite <- app_assoc.
    rewrite firstn_app, firstn_all2 by (rewrite !length_app; lia).
    rewrite length_app, Nat.sub_diag. cbn [firstn]. now rewrite app_nil_r.
Qed.

Lemma search_block_absent open close : forall s,
  open <> [] -> find_opt open s = None -> search_block open close s = None.
Proof.
  intros s Ho. induction s as [|x s IH]; intros H; [reflexivity|].
  cbn [find_opt] in H. cbn [search_block].
  destruct (startswith open (x :: s)); [discriminate|].
  destruct (find_opt open s); [discriminate|]. now apply IH.
Qed.

(** X1. [extract_html_content] is idempotent: extracting from the text it
    returned gives that text again. *)
Theorem extract_html_content_idempotent (text : string) :
  extract_html_content (extract_html_content text) = extract_html_content text.
Proof.
  enough (H : forall r, r = extract_html_content text -> extract_html_content r = r)
    by now apply H.
  intros r ->. unfold extract_html_content at 2 3.
  destruct (search_block (T "<html>") (T "</html>") (list_ascii_of_string text))
    as [m|] eqn:Hh.
  - unfold extract_html_content. rewrite list_ascii_of_string_of_list_ascii.
    now rewrite (search_block_fixed (T "<html>") _ _ m ltac:(cbv; discriminate) Hh).
  - destruct (search_block (T "<body>") (T "</body>") (list_ascii_of_string text))
      as [m|] eqn:Hb.
    + unfold extract_html_content. rewrite list_ascii_of_string_of_list_ascii.
      destruct (search_block_is_block _ _ _ _ Hb) as (pre & mid & post & Hs & _ & _).
      rewrite Hs in Hh. apply search_block_suffix in Hh.
      apply search_block_prefix in Hh; [|cbv; discriminate]. rewrite Hh.
      now rewrite (search_block_fixed (T "<body>") _ _ m ltac:(cbv; discriminate) Hb).
    + assert (Hid : (if contains (T "<div") (list_ascii_of_string text)
                        && contains (T "</div>") (list_ascii_of_string text)
                     then text else text) = text) by (now destruct (_ && _)).
      rewrite Hid. unfold extract_html_content. now rewrite Hh, Hb, Hid.
Qed.

Lemma find_opt_occurs p b : forall a, find_opt p (a ++ p ++ b) <> None.
Proof.
  induction a as [|x a IH].
  - cbn [app]. now rewrite (find_opt_zero p (p ++ b) (startswith_prefix p b)).
  - cbn [app find_opt]. destruct (startswith p (x :: a ++ p ++ b)); [discriminate|].
    destruct (find_opt p (a ++ p ++ b)); [discriminate | contradiction].
Qed.

Lemma occurs_at_head p s : occurs_at p s 0 -> startswith p s = true.
Proof.
  intros (a & b & -> & Ha). destruct a; [|discriminate]. exact (startswith_prefix p b).
Qed.

Lemma occurs_at_tail p x s i : occurs_at p (x :: s) (S i) -> occurs_at p s i.
Proof.
  intros (a & b & Hs & Ha). destruct a as [|y a]; [discriminate|].
  cbn [app] in Hs. injection Hs as _ ->. injection Ha as Ha.
  now exists a, b.
Qed.

Lemma find_opt_first p : forall s i,
  find_opt p s = Some i -> forall j, j < i -> ~ occurs_at p s j.
Proof.
  induction s as [|x s IH]; intros i H j Hj Hocc; cbn [find_opt] in H.
  - destruct (startswith p []); [|discriminate]. injection H as <-. lia.
  - destruct (startswith p (x :: s)) eqn:Hs.
    + injection H as <-. lia.
    + destruct (find_opt p s) as [i'|] eqn:Hf; [|discriminate]. injection H as <-.
      destruct j as [|j].
      * apply occurs_at_head in Hocc. congruence.
      * apply occurs_at_tail in Hocc. apply (IH i' eq_refl j); [lia | exact Hocc].
Qed.

Lemma skipn_within {A} (n : nat) (t rest : list A) :
  n <= length t -> skipn n (t ++ rest) = skipn n t ++ rest.
Proof.
  intros H. rewrite skipn_app. replace (n - length t) with 0 by lia. reflexivity.
Qed.

Lemma search_block_none open close : open <> [] -> forall s,
  search_block open close s = None -> ~ has_block open close s.
Proof.
  intros Hopen s H (a & mid & b & ->). revert H.
  induction a as [|y a IH]; intros H.
  - cbn [app] in H.
    destruct open as [|o open]; [congruence|]. cbn [app search_block] in H.
    change (o :: open ++ mid ++ close ++ b) with ((o :: open) ++ mid ++ close ++ b) in H.
    rewrite (startswith_prefix (o :: open)) in H.
    rewrite skipn_app, skipn_all, Nat.sub_diag in H. cbn [app skipn] in H.
    change (drop 0 (mid ++ close ++ b)) with (mid ++ close ++ b) in H.
    pose proof (find_opt_occurs close b mid) as Hc.
    destruct (find_opt close (mid ++ close ++ b)); [discriminate | contradiction].
  - apply IH. cbn [app search_block] in H.
    destruct (startswith open (y :: a ++ open ++ mid ++ close ++ b)); [|exact H].
    destruct (find_opt close _); [discriminate | exact H].
Qed.

Lemma search_block_leftmost open close : open <> [] -> forall s m,
  search_block open close s = Some m -> leftmost_block open close s m.
Proof.
  intros Hopen. induction s as [|x s IH]; intros m H; [discriminate|].
  assert (Hlater : startswith open (x :: s) = false ->
                   search_block open close s = Some m ->
                   leftmost_block open close (x :: s) m).
  { intros Hs H'. destruct (IH m H') as (pre & mid & post & Hsplit & Hm & Hleft & Hnear).
    exists (x :: pre), mid, post. repeat split.
    - cbn [app]. now rewrite <- Hsplit.
    - exact Hm.
    - intros i Hi Hocc. destruct i as [|i].
      + apply occurs_at_head in Hocc. congruence.
      + apply occurs_at_tail in Hocc. apply (Hleft i); [cbn [length] in Hi; lia | exact Hocc].
    - exact Hnear. }
  cbn [search_block] in H.
  destruct (startswith open (x :: s)) eqn:Hs; [|now apply Hlater].
  destruct (find_opt close (skipn (length open) (x :: s))) as [j|] eqn:Hj.
  - injection H as <-.
    destruct (startswith_app open _ Hs) as [r Hr]. rewrite Hr in *. clear Hr Hlater IH.
    rewrite skipn_app, skipn_all, Nat.sub_diag in Hj. cbn [app skipn] in Hj.
    change (drop 0 r) with r in Hj.
    pose proof (find_opt_first close r j Hj) as Hfirst.
    destruct (find_opt_split close r j Hj) as (mid & post & -> & Hlen).
    exists [], mid, post. cbn [app length].
    assert (Hm : firstn (length open + j + length close) (open ++ mid ++ close ++ post)
                 = open ++ mid ++ close).
    { replace (open ++ mid ++ close ++ post) with ((open ++ mid ++ close) ++ post)
        by now rewrite <- !app_assoc.
      rewrite firstn_app, firstn_all2 by (rewrite !length_app; lia).
      rewrite !length_app.
      replace (length open + j + length close
               - (length open + (length mid + length close))) with 0 by lia.
      cbn [firstn]. now rewrite app_nil_r. }
    rewrite Hm. repeat split.
    + now rewrite <- !app_assoc.
    + intros i Hi. lia.
    + intros k Hk (a & b & Hab & Ha). apply (Hfirst k); [lia|].
      exists a, (b ++ post). split; [|exact Ha].
      rewrite app_assoc, Hab. now rewrite <- !app_assoc.
  - (* no [close] after this [open]: there is none after a later one *)
    exfalso.
    destruct (search_block_is_block _ _ _ _ H) as (pre & mid & post & Hsplit & Hm & _).
    subst m. rewrite Hsplit in Hj.
    change (x :: pre ++ (open ++ mid ++ close) ++ post)
      with ((x :: pre) ++ (open ++ mid ++ close) ++ post) in Hj.
    replace ((x :: pre) ++ (open ++ mid ++ close) ++ post)
      with (((x :: pre) ++ open ++ mid) ++ close ++ post) in Hj
      by now rewrite <- !app_assoc.
    rewrite skipn_within in Hj by (rewrite !length_app; cbn [length]; lia).
    now apply (find_opt_occurs close post) in Hj.
Qed.

(** X2. What [extract_html_content] returns is a contiguous part of the
    text: the leftmost [<html>] block (it starts at the first [<html>] of
    the text and ends with the first [</html>] after that tag); when no
    [<html>] of the text has a [</html>] after it, the leftmost [<body>]
    block in the same sense; when the text has neither, the whole text
    (the test for [<div] changes nothing). *)
Theorem extract_html_content_result (text : string) :
  let s := list_ascii_of_string text in
  let r := list_ascii_of_string (extract_html_content text) in
  leftmost_block (T "<html>") (T "</html>") s r \/
  (~ has_block (T "<html>") (T "</html>") s /\
   leftmost_block (T "<body>") (T "</body>") s r) \/
  (~ has_block (T "<html>") (T "</html>") s /\
   ~ has_block (T "<body>") (T "</body>") s /\
   extract_html_content text = text).
Proof.
  cbn zeta. unfold extract_html_content.
  destruct (search_block (T "<html>") (T "</html>") (list_ascii_of_string text))
    as [m|] eqn:Hh.
  - left. rewrite list_ascii_of_string_of_list_ascii.
    apply search_block_leftmost; [cbv; discriminate | exact Hh].
  - apply search_block_none in Hh; [|cbv; discriminate].
    destruct (search_block (T "<body>") (T "</body>") (list_ascii_of_string text))
      as [m|] eqn:Hb.
    + right; left. split; [exact Hh|].
      rewrite list_ascii_of_string_of_list_ascii.
      apply search_block_leftmost; [cbv; discriminate | exact Hb].
    + apply search_block_none in Hb; [|cbv; discriminate].
      right; right. repeat split; [exact Hh | exact Hb |]. now destruct (_ && _).
Qed.

(** X3. A text in which neither [<html>] nor [<body>] occurs is returned
    as it is. *)
Theorem extract_html_content_without_block (text : string) :
  contains (T "<html>") (list_ascii_of_string text) = false ->
  contains (T "<body>") (list_ascii_of_string text) = false ->
  extract_html_content text = text.
Proof.
  unfold contains. intros Hh Hb.
  destruct (find_opt (T "<html>") _) eqn:Hh'; [discriminate|].
  destruct (find_opt (T "<body>") _) eqn:Hb'; [discriminate|].
  unfold extract_html_content.
  rewrite (search_block_absent (T "<html>") _ _ ltac:(cbv; discriminate) Hh').
  rewrite (search_block_absent (T "<body>") _ _ ltac:(cbv; discriminate) Hb').
  now destruct (_ && _).
Qed.

Lemma extract_html_content_without_block_witness :
  extract_html_content "<div>Report</div>" = "<div>Report</div>".
Proof.
  exact (extract_html_content_without_block "<div>Report</div>" eq_refl eq_refl).
Defined.

(** ** The HTML cleaner: shape of the result *)

Lemma clean_html_response_text c x :
  clean_html_response (String c x)
  = string_of_list_ascii (clean_text (list_ascii_of_string (String c x))).
Proof. reflexivity. Qed.

(** X4. Whatever the input, the text [clean_html_response] returns is
    settled: it is empty or opens with [<]; its only whitespace is single
    spaces, none at either end; one of the start patterns opens it or none
    occurs in it; and the last closing tag that only text follows, if
    there is one, ends it. *)
Theorem cleaned_text_is_settled (raw : string) :
  settled (list_ascii_of_string (clean_html_response raw)).
Proof.
  destruct raw as [|c x].
  - cbn. split; try (now left); try reflexivity.
    right. repeat constructor.
  - rewrite clean_html_response_text, list_ascii_of_string_of_list_ascii.
    apply clean_text_settled.
Qed.

Lemma no_lt_find_opt p : first_is is_lt p = true -> forall s,
  no_lt s = true -> find_opt p s = None.
Proof.
  intros Hp. destruct p as [|a p]; [discriminate|]. cbn in Hp. unfold is_lt in Hp.
  apply Ascii.eqb_eq in Hp. subst a.
  induction s as [|c s IH]; intros H; [reflexivity|].
  cbn [no_lt forallb] in H. apply andb_true_iff in H as [Hc Hs].
  cbn [find_opt startswith]. rewrite Ascii.eqb_sym.
  destruct (Ascii.eqb c "<"); [discriminate|]. cbn [andb].
  fold (no_lt s) in Hs. now rewrite (IH Hs).
Qed.

Lemma no_lt_anchored s : no_lt s = true -> anchored s.
Proof.
  intros H. right. apply List.Forall_forall. intros p Hp.
  apply no_lt_find_opt; [|exact H]. now apply pattern_opens.
Qed.

Lemma search_last_tag_closing_div : forall pre,
  no_lt pre = true ->
  search_last_tag (pre ++ T "</div>") = Some (length pre + 6).
Proof.
  induction pre as [|c pre IH]; intros H; [reflexivity|].
  cbn [no_lt forallb] in H. apply andb_true_iff in H as [Hc Hs].
  fold (no_lt pre) in Hs. apply negb_true_iff in Hc.
  change ((c :: pre) ++ T "</div>") with (c :: (pre ++ T "</div>")).
  rewrite search_last_tag_cons, (close_tag_len_not_lt c _ Hc), (IH Hs).
  reflexivity.
Qed.

Lemma string_of_app a : forall b,
  string_of_list_ascii (a ++ b) = string_of_list_ascii a +:+ string_of_list_ascii b.
Proof.
  induction a as [|c a IH]; intros b; [reflexivity|].
  cbn [app string_of_list_ascii]. now rewrite IH.
Qed.

(** X5. Plain text in normal form (not empty, no [<], single spaces
    only, no whitespace, quote or closing bracket at the ends the cleaner
    strips, no literal backslash-n) is returned wrapped in one [div]
    element. *)
Theorem plain_text_is_wrapped (raw : string) :
  plain (list_ascii_of_string raw) = true ->
  clean_html_response raw = "<div>" +:+ raw +:+ "</div>".
Proof.
  unfold plain. intros H.
  apply andb_true_iff in H as [H Hlit0]. apply andb_true_iff in H as [H Hnoise].
  apply andb_true_iff in H as [H Hq]. apply andb_true_iff in H as [H Hlast].
  apply andb_true_iff in H as [H Hsp]. apply andb_true_iff in H as [H Ht].
  apply andb_true_iff in H as [H Hlt].
  apply negb_true_iff in Hlit0, Hnoise, Hq, Hlast, Hsp, H.
  destruct raw as [|c0 raw0]; [discriminate|].
  rewrite clean_html_response_text.
  set (y := list_ascii_of_string (String c0 raw0)) in *.
  assert (Hraw : String c0 raw0 = string_of_list_ascii y)
    by (unfold y; now rewrite string_of_list_ascii_of_string).
  rewrite Hraw. clear Hraw. clearbody y.
  assert (Hlit : find_opt (T "\n") y = None)
    by (unfold contains in *; destruct (find_opt _ y); [discriminate | reflexivity]).
  assert (Hchar : forall c, isspace c = true -> Ascii.eqb c " " = false ->
                            forall new, replace [c] new y = y).
  { intros c Hc Hne new. apply replace_absent; [discriminate|].
    apply find_char_absent. now apply tidy_no_char. }
  unfold clean_text.
  rewrite (replace_absent (T "\n") [] y) by (discriminate || exact Hlit).
  rewrite !Hchar by reflexivity.
  rewrite (join_split_id y Ht Hlast Hsp).
  unfold rstrip, strip, strip_by.
  rewrite (rstrip_by_id (among (T "}])")) y).
  2:{ revert Hnoise. apply last_is_weaken. intros c Hc. unfold noise, among.
      rewrite existsb_app. unfold among in Hc. now rewrite Hc. }
  rewrite (rstrip_by_id (among ["034"%char; "'"%char]) y).
  2:{ revert Hnoise. apply last_is_weaken. intros c Hc. unfold noise, among.
      rewrite existsb_app. unfold among in Hc. now rewrite Hc, orb_true_r. }
  rewrite (lstrip_by_id _ y Hq).
  rewrite (anchored_no_slice y (no_lt_anchored y Hlt)).
  unfold sub_leading_text. rewrite Hlt.
  destruct y as [|c y]; [discriminate|].
  assert (Hc : Ascii.eqb c "<" = false).
  { cbn [no_lt forallb] in Hlt. apply andb_true_iff in Hlt as [Hc _].
    now apply negb_true_iff in Hc. }
  cbn [startswith T list_ascii_of_string]. rewrite Ascii.eqb_sym, Hc. cbn [andb negb].
  set (inner := c :: y) in *.
  change ("<"%char :: "d"%char :: "i"%char :: "v"%char :: ">"%char :: [])
    with (T "<div" ++ T ">").
  change ("<"%char :: "/"%char :: "d"%char :: "i"%char :: "v"%char :: ">"%char :: [])
    with (T "</div>").
  rewrite <- app_assoc.
  rewrite (search_after_pattern (T "<div") ltac:(now left)).
  rewrite app_assoc.
  rewrite (search_last_tag_closing_div (T ">" ++ inner))
    by (rewrite no_lt_app; cbn [T list_ascii_of_string no_lt forallb]; exact Hlt).
  cbn [option_map].
  rewrite firstn_all2 by (rewrite !length_app; cbn [T list_ascii_of_string length]; lia).
  unfold strip_ws, strip_by.
  rewrite rstrip_by_id by (rewrite app_assoc, last_is_app by discriminate; reflexivity).
  rewrite lstrip_by_id by reflexivity.
  rewrite <- app_assoc.
  change (T "<div" ++ T ">" ++ inner ++ T "</div>")
    with (list_ascii_of_string "<div>" ++ inner ++ list_ascii_of_string "</div>").
  rewrite !string_of_app. reflexivity.
Qed.

Lemma plain_text_is_wrapped_witness :
  clean_html_response "Site is safe" = "<div>Site is safe</div>".
Proof. exact (plain_text_is_wrapped "Site is safe" eq_refl). Defined.

Lemma replace_from_all p old new : forallb p new = true -> forall s k,
  forallb p s = true -> forallb p (replace_from old new k s) = true.
Proof.
  intros Hnew. induction s as [|c s IH]; intros k H; [reflexivity|].
  cbn [forallb] in H. apply andb_true_iff in H as [Hc Hs].
  cbn [replace_from]. destruct k as [|k]; [|now apply IH].
  destruct (startswith old (c :: s)).
  - rewrite forallb_app, Hnew. now apply IH.
  - cbn [forallb]. rewrite Hc. now apply IH.
Qed.

Lemma split_from_blank : forall s, forallb isspace s = true -> split_from [] s = [].
Proof.
  induction s as [|c s IH]; intros H; [reflexivity|].
  cbn [forallb] in H. apply andb_true_iff in H as [Hc Hs].
  cbn [split_from]. rewrite Hc. now apply IH.
Qed.

(** X6. A text of whitespace only is cleaned to the empty string (and is
    not wrapped in a [div]). *)
Theorem blank_text_is_cleaned_to_empty (raw : string) :
  forallb isspace (list_ascii_of_string raw) = true ->
  clean_html_response raw = EmptyString.
Proof.
  intros H. destruct raw as [|c raw]; [reflexivity|].
  rewrite clean_html_response_text.
  set (y := list_ascii_of_string (String c raw)) in *. clearbody y.
  unfold clean_text, replace.
  set (t4 := replace_from ["009"%char] _ _ _).
  assert (H4 : forallb isspace t4 = true)
    by (unfold t4; repeat apply replace_from_all; (reflexivity || exact H)).
  clearbody t4. unfold split. rewrite (split_from_blank t4 H4). reflexivity.
Qed.

Lemma blank_text_is_cleaned_to_empty_witness :
  clean_html_response "   " = EmptyString.
Proof. exact (blank_text_is_cleaned_to_empty "   " eq_refl). Defined.

(** X7. The loop over the start patterns computes the least offset at
    which one of them occurs: the result is [-1] exactly when none occurs,
    and otherwise it is the offset of some pattern and no pattern occurs
    before it. *)
Theorem earliest_start_is_least (patterns : list text) (s : text) :
  let start_index := earliest_start patterns s in
  (start_index = (-1)%Z <-> Forall (fun p => find p s = (-1)%Z) patterns) /\
  (start_index <> (-1)%Z ->
   (exists p, In p patterns /\ find p s = start_index) /\
   Forall (fun p => find p s = (-1)%Z \/ (start_index <= find p s)%Z) patterns).
Proof.
  cbv zeta. rewrite earliest_start_fold.
  pose proof (fold_start_bounds s patterns (-1)%Z (or_introl eq_refl)) as H.
  cbv zeta in H. destruct H as (Hrange & _ & Hle & Hfrom).
  split; [split|].
  - intros Hr. apply List.Forall_forall. intros p Hp.
    destruct (Z.eq_dec (find p s) (-1)%Z) as [Hf | Hf]; [exact Hf|].
    destruct (Hle p Hp Hf) as [Hne _]. contradiction.
  - intros Hall.
    destruct (Z.eq_dec (fold_left (start_step s) patterns (-1)%Z) (-1)%Z) as [Hr | Hr];
      [exact Hr|].
    destruct (Hfrom Hr) as [Heq | (p & Hp & Hf)]; [exact Heq|].
    rewrite List.Forall_forall in Hall. rewrite <- Hf. now apply Hall.
  - intros Hr. split.
    + destruct (Hfrom Hr) as [Heq | Hex]; [contradiction | exact Hex].
    + apply List.Forall_forall. intros p Hp.
      destruct (Z.eq_dec (find p s) (-1)%Z) as [Hf | Hf]; [now left | right].
      now apply Hle.
Qed.

(** ** The entry point *)

Ltac default_route Hcset Hbset Hobj :=
  unfold lambda_handler, try_catch at 1;
  cbn [requestContext body routeKey connectionId domainName stage];
  rewrite Hcset; cbn [set_str negb orb fmt_opt];
  change (negb (negb ("$default" =? EmptyString)%string) || false) with false;
  change ("$default" =? "$connect")%string with false;
  change ("$default" =? "$disconnect")%string with false;
  change ("$default" =? "$default")%string with true;
  cbn [set_str] in Hbset; rewrite Hbset; cbn [negb];
  unfold guard, loads; rewrite Hobj; cbn [ret].

(** X8. A heartbeat (a text of the [$default] route whose object has
    [messageType] [heartbeat]) is acknowledged with status 200, before the
    push endpoint and the token are looked at, and the world is exactly as
    it was: no call, no log line above info level, no clock reading. *)
Theorem heartbeat_is_acknowledged (E : env) (cfg : config) (event : event)
    (rc : request_context) (connection_id b : string)
    (fields : list (string * json)) (w : world) :
  inbound_text E event rc connection_id b (JObj fields) ->
  is_heartbeat fields = true ->
  lambda_handler E cfg event w
  = (Ok (status 200 (json_dumps
           (JObj [("message", JStr "Heartbeat received, no action taken")]))), w).
Proof.
  intros [Hctx Hroute Hconn Hcset Hbody Hbset Hobj] Hbeat.
  destruct event as [ctx bd]. destruct rc as [rk ci dn st].
  cbn [requestContext body routeKey connectionId domainName stage] in *. subst.
  default_route Hcset Hbset Hobj.
  unfold bind at 1, lift, py_get. unfold is_heartbeat in Hbeat. rewrite Hbeat.
  reflexivity.
Qed.

Lemma heartbeat_is_acknowledged_witness :
  lambda_handler
    (demo_env [("{}", JObj [("messageType", JStr "heartbeat")])] no_stream no_answer)
    demo_cfg (message_event "C1" "{}") empty_world
  = (Ok (status 200 (json_dumps
           (JObj [("message", JStr "Heartbeat received, no action taken")]))),
     empty_world).
Proof.
  refine (heartbeat_is_acknowledged _ demo_cfg (message_event "C1" "{}")
            {| routeKey := Some "$default"; connectionId := Some "C1";
               domainName := Some "ws.example.com"; stage := Some "prod" |}
            "C1" "{}" [("messageType", JStr "heartbeat")] empty_world _ _).
  - split; reflexivity.
  - reflexivity.
Defined.

(** X9. An event without [requestContext], without route key or
    connection id, with an unsupported route, with no or an empty body, or
    with a body that is not JSON is answered with status 400 and the text
    of its case; a data message without domain name or stage with status
    500. In each case no call is made, the registry and the work orders
    are as they were, and one line is logged. *)
Theorem malformed_event_is_refused (E : env) (cfg : config) (event : event)
    (code : Z) (text : string) (w : world) :
  refused E event code text ->
  exists w' line,
    lambda_handler E cfg event w = (Ok (status code text), w') /\
    calls w' = calls w /\ registry w' = registry w /\
    work_orders w' = work_orders w /\
    logged w' = logged w ++ [line].
Proof.
  intros H. destruct event as [ctx bd].
  destruct H as [Hctx | rc Hctx Hset | rc route Hctx Hroute Hset H1 H2 H3
                 | rc Hctx Hroute Hcset Hbody | rc b Hctx Hroute Hcset Hbody Hbset Hnone
                 | rc connection_id b fields Hin Hbeat Hend];
    cbn [requestContext body] in *.
  - subst. eexists _, _. split; [reflexivity|]. repeat split.
  - subst. unfold lambda_handler, try_catch at 1. cbn [requestContext].
    apply andb_false_iff in Hset.
    assert (Hc : negb (set_str (routeKey rc)) || negb (set_str (connectionId rc)) = true)
      by (destruct Hset as [-> | ->]; [reflexivity | apply orb_true_r]).
    rewrite Hc. eexists _, _. split; [reflexivity|]. repeat split.
  - subst. unfold lambda_handler, try_catch at 1. cbn [requestContext].
    apply andb_true_iff in Hset as [Hr Hc]. rewrite Hr, Hc. cbn [negb orb].
    rewrite Hroute. cbn [fmt_opt]. rewrite H1, H2, H3.
    eexists _, _. split; [reflexivity|]. repeat split.
  - subst. destruct rc as [rk ci dn st].
    cbn [routeKey connectionId] in *. subst.
    unfold lambda_handler, try_catch at 1.
    cbn [requestContext body routeKey connectionId domainName stage].
    rewrite Hcset, Hbody. eexists _, _. split; [reflexivity|]. repeat split.
  - subst. destruct rc as [rk ci dn st].
    cbn [routeKey connectionId] in *. subst.
    unfold lambda_handler, try_catch at 1.
    cbn [requestContext body routeKey connectionId domainName stage].
    rewrite Hcset. cbn [set_str] in Hbset. cbn [set_str]. rewrite Hbset.
    cbn [negb orb fmt_opt].
    change ("$default" =? "$connect")%string with false.
    change ("$default" =? "$disconnect")%string with false.
    change ("$default" =? "$default")%string with true.
    change (negb (negb ("$default" =? EmptyString)%string) || false) with false.
    cbn iota. unfold guard, loads. rewrite Hnone.
    eexists _, _. split; [reflexivity|]. repeat split.
  - destruct Hin as [Hctx Hroute Hconn Hcset Hbody Hbset Hobj].
    destruct rc as [rk ci dn st].
    cbn [requestContext body routeKey connectionId domainName stage] in *. subst.
    default_route Hcset Hbset Hobj.
    unfold bind at 1, lift, py_get. unfold is_heartbeat in Hbeat. rewrite Hbeat, Hend.
    eexists _, _. split; [reflexivity|]. repeat split.
Qed.

Lemma malformed_event_is_refused_witness :
  exists w' line,
    lambda_handler demo_deployment demo_cfg
      {| requestContext := Some {| routeKey := Some "$ping"; connectionId := Some "C1";
                                   domainName := None; stage := None |};
         body := None |} empty_world
    = (Ok (status 400 "Unsupported route: $ping"), w') /\
    calls w' = calls empty_world /\ registry w' = registry empty_world /\
    work_orders w' = work_orders empty_world /\
    logged w' = logged empty_world ++ [line].
Proof.
  apply (malformed_event_is_refused demo_deployment demo_cfg _ 400
           "Unsupported route: $ping" empty_world).
  apply (refused_route _ _ {| routeKey := Some "$ping"; connectionId := Some "C1";
                             domainName := None; stage := None |} "$ping");
    reflexivity.
Defined.

Lemma wp_any {A} (m : M A) (Q : result A -> world -> Prop) w :
  (forall r w', Q r w') -> wp m Q w.
Proof. intros H. apply H. Qed.

Lemma handle_message_returns E cfg api connection_id event b fields w :
  body event = Some b ->
  json_loads E b = Some (JObj fields) ->
  exists w',
    handle_message E cfg api connection_id event w
    = (Ok (status 200 "Message sent"), w').
Proof.
  intros Hb Hl. rewrite (handle_message_processed E cfg api connection_id event b fields w Hb Hl).
  destruct (handle_message_main_run E cfg api connection_id fields
              (session_of fields (uuid4 E (draws w))) (next_draw (next_draw w)))
    as (? & ? & ? & ? & ? & ? & ? & w' & _ & _ & _ & _ & _ & _ & _ & _ & Hrun).
  now exists w'.
Qed.

Lemma lifecycle_returns E connection_id w :
  (exists w', handle_connect E connection_id w = (Ok connected, w')) /\
  (exists w', handle_disconnect E connection_id w = (Ok disconnected, w')).
Proof.
  split.
  - unfold handle_connect, try_catch, bind, now, table_put_item, outbound, ret,
      logger_error, log.
    destruct (put_item E _); eexists; reflexivity.
  - unfold handle_disconnect, try_catch, bind, table_delete_item, outbound, ret,
      logger_error, log.
    destruct (delete_item E _); eexists; reflexivity.
Qed.

(** X10. For every event and every behaviour of the collaborators,
    [lambda_handler] returns a response whose status is 200, 400, 403 or
    500. *)
Theorem lambda_handler_status_codes (E : env) (cfg : config) (event : event)
    (w : world) :
  answers_with status_codes (fst (lambda_handler E cfg event w)).
Proof.
  change (wp (lambda_handler E cfg event)
            (fun r _ => answers_with status_codes r) w).
  unfold lambda_handler. apply wp_try_catch.
  apply (wp_mono _ (fun r _ => match r with
                               | Ok a => In (statusCode a) status_codes
                               | Raise _ => True
                               end)).
  { intros [a|e] w' H; [exact H|].
    apply wp_bind, wp_log. intros w2 _ _. apply wp_ret. cbn. tauto. }
  destruct (requestContext event) as [rc|].
  2:{ apply wp_bind, wp_log. intros w2 _ _. apply wp_ret. cbn. tauto. }
  destruct (negb (set_str (routeKey rc)) || negb (set_str (connectionId rc))).
  { apply wp_bind, wp_log. intros w2 _ _. apply wp_ret. cbn. tauto. }
  destruct (String.eqb (fmt_opt (routeKey rc)) "$connect").
  { destruct (lifecycle_returns E (fmt_opt (connectionId rc)) w) as [[w' H] _].
    unfold wp. rewrite H. cbn. tauto. }
  destruct (String.eqb (fmt_opt (routeKey rc)) "$disconnect").
  { destruct (lifecycle_returns E (fmt_opt (connectionId rc)) w) as [_ [w' H]].
    unfold wp. rewrite H. cbn. tauto. }
  destruct (String.eqb (fmt_opt (routeKey rc)) "$default").
  2:{ apply wp_bind, wp_log. intros w2 _ _. apply wp_ret. cbn. tauto. }
  destruct (body event) as [b|] eqn:Hbody.
  2:{ cbn [set_str negb]. apply wp_bind, wp_log. intros w2 _ _. apply wp_ret. cbn. tauto. }
  destruct (negb (set_str (Some b))).
  { apply wp_bind, wp_log. intros w2 _ _. apply wp_ret. cbn. tauto. }
  cbn [fmt_opt]. apply wp_guard. unfold loads.
  destruct (json_loads E b) as [message|] eqn:Hloads.
  2:{ apply wp_raise. cbn [exn_cls]. apply wp_bind, wp_log. intros w2 _ _.
      apply wp_ret. cbn. tauto. }
  apply wp_ret. apply wp_bind, wp_lift.
  destruct message as [| | | | |fields]; cbn [py_get]; try exact I.
  destruct (is_str _ "heartbeat"); [apply wp_ret; cbn; tauto|].
  destruct (set_str (domainName rc) && set_str (stage rc)).
  2:{ apply wp_bind, wp_log. intros w2 _ _. apply wp_ret. cbn. tauto. }
  apply wp_bind, wp_lift.
  destruct (negb (truthy_opt (lookup_field "token" fields))).
  { apply wp_bind, wp_log. intros w2 _ _. apply wp_ret. cbn. tauto. }
  apply wp_try_catch.
  apply (wp_mono _ (fun r _ => match r with
                               | Ok a => In (statusCode a) status_codes
                               | Raise _ => True
                               end)).
  { intros [a|e] w' H; [exact H|].
    apply wp_bind, wp_log. intros w2 _ _. apply wp_ret. cbn. tauto. }
  apply wp_bind, wp_any. intros [decoded|e] w1; [|exact I].
  apply wp_bind, wp_lift. destruct (py_get_default decoded _ _); [|exact I].
  destruct (handle_message_returns E cfg
              {| endpoint_url := "https://" +:+ fmt_opt (domainName rc)
                                 +:+ "/" +:+ fmt_opt (stage rc) |}
              (fmt_opt (connectionId rc)) event b fields w1 Hbody Hloads) as [w' H].
  unfold wp. rewrite H. cbn. tauto.
Qed.

(** X11. A data message whose token [verify_token] accepts (it returns a
    dict of claims) is handed to [handle_message], from the world
    verification left, with the push client built from the domain name and
    the stage of the event; the answer is status 200. *)
Theorem verified_message_is_processed (E : env) (cfg : config) (event : event)
    (rc : request_context) (connection_id b : string)
    (fields claims : list (string * json)) (token : json) (w w1 : world) :
  data_message E event rc connection_id b fields ->
  lookup_field "token" fields = Some token ->
  truthy token = true ->
  verify_token E cfg token w = (Ok (JObj claims), w1) ->
  lambda_handler E cfg event w
  = handle_message E cfg (api_of rc) connection_id event w1 /\
  fst (lambda_handler E cfg event w) = Ok (status 200 "Message sent").
Proof.
  intros [[Hctx Hroute Hconn Hcset Hbody Hbset Hobj] [Hend Hbeat]] Htok Htruthy Hver.
  destruct event as [ctx bd]. destruct rc as [rk ci dn st].
  cbn [requestContext body routeKey connectionId domainName stage] in *. subst.
  destruct (handle_message_returns E cfg
              (api_of {| routeKey := Some "$default"; connectionId := Some connection_id;
                         domainName := dn; stage := st |})
              connection_id
              {| requestContext :=
                   Some {| routeKey := Some "$default";
                           connectionId := Some connection_id;
                           domainName := dn; stage := st |};
                 body := Some b |} b fields w1 eq_refl Hobj) as [w' Hrun].
  assert (Heq : lambda_handler E cfg
                  {| requestContext :=
                       Some {| routeKey := Some "$default";
                               connectionId := Some connection_id;
                               domainName := dn; stage := st |};
                     body := Some b |} w
                = (Ok (status 200 "Message sent"), w')).
  { default_route Hcset Hbset Hobj.
    unfold bind at 1, lift, py_get. rewrite Hbeat, Hend.
    unfold bind at 1. rewrite Htok. cbn [truthy_opt]. rewrite Htruthy. cbn [negb].
    unfold try_catch at 1, bind at 1. rewrite Hver.
    unfold bind at 1, lift, py_get_default, py_get.
    unfold api_of in Hrun. cbn [domainName stage] in Hrun.
    destruct (lookup_field "email" claims); rewrite Hrun; reflexivity. }
  rewrite Heq, Hrun. split; reflexivity.
Qed.

Lemma verified_message_is_processed_witness :
  fst (lambda_handler demo_deployment demo_cfg
         (message_event "C1" (json_dumps (request_via "Foo"))) empty_world)
  = Ok (status 200 "Message sent").
Proof.
  refine (proj2 (verified_message_is_processed demo_deployment demo_cfg
            (message_event "C1" (json_dumps (request_via "Foo")))
            {| routeKey := Some "$default"; connectionId := Some "C1";
               domainName := Some "ws.example.com"; stage := Some "prod" |}
            "C1" (json_dumps (request_via "Foo"))
            [("token", JStr "good"); ("agentFramework", JStr "Foo");
             ("workOrderDetails",
              JObj [("work_order_id", JStr "WO1"); ("location_name", JStr "Site1")])]
            [("email", JStr "worker@example.com")] (JStr "good") empty_world
            (snd (verify_token demo_deployment demo_cfg (JStr "good") empty_world))
            _ _ _ _)).
  - split; [|split; reflexivity]. split; reflexivity.
  - reflexivity.
  - reflexivity.
  - reflexivity.
Defined.

(** ** Token verification *)

Lemma matching_sound header kid :
  py_get header "kid" = Ok kid ->
  forall keys found,
  matching keys header = Ok found ->
  Forall (fun k => In k keys /\
                   exists k_kid,
                     py_get k "kid" = Ok k_kid /\
                     py_eq (match k_kid with Some x => x | None => JNull end)
                           (match kid with Some x => x | None => JNull end) = true)
         found.
Proof.
  intros Hh. induction keys as [|k keys IH]; intros found H.
  - injection H as <-. constructor.
  - cbn [matching] in H. rewrite Hh in H. unfold rbind in H.
    destruct (py_get k "kid") as [k_kid|] eqn:Hk; [|discriminate].
    destruct (matching keys header) as [others|] eqn:Hm; [|discriminate].
    specialize (IH others eq_refl).
    assert (Hothers : Forall (fun k0 => In k0 (k :: keys) /\
                   exists k_kid,
                     py_get k0 "kid" = Ok k_kid /\
                     py_eq (match k_kid with Some x => x | None => JNull end)
                           (match kid with Some x => x | None => JNull end) = true)
                 others).
    { revert IH. apply List.Forall_impl. intros a [Hin Ha]. split; [now right | exact Ha]. }
    destruct (py_eq _ _) eqn:Heq; injection H as <-; [|exact Hothers].
    constructor; [|exact Hothers]. split; [now left|].
    exists k_kid. now split.
Qed.

(** X12. [verify_token] returns claims only when the token is a string,
    the key set was fetched and holds a key whose [kid] equals the [kid]
    of the token's unverified header, and [jwt.decode] accepted the token
    with that key: the claims returned are the ones it decoded. *)
Theorem accepted_token_was_decoded (E : env) (cfg : config) (token claims : json)
    (w w' : world) :
  verify_token E cfg token w = (Ok claims, w') ->
  exists t jwks keys header key k_kid kid,
    token = JStr t /\
    requests_get E (length (calls w)) = Ok jwks /\
    py_get_default jwks "keys" (JArr []) = Ok (JArr keys) /\
    jwt_get_unverified_header E t = Ok header /\
    In key keys /\
    py_get key "kid" = Ok k_kid /\
    py_get header "kid" = Ok (Some kid) /\
    py_eq (match k_kid with Some x => x | None => JNull end) kid = true /\
    jwt_decode E t key = Ok claims.
Proof.
  unfold verify_token, try_catch, bind at 1, outbound_value.
  destruct (requests_get E (length (calls w))) as [jwks|e] eqn:Hget.
  2:{ destruct (exn_cls e); discriminate. }
  unfold bind at 1, lift.
  destruct (py_get_default jwks "keys" (JArr [])) as [keys|e] eqn:Hkeys.
  2:{ destruct (exn_cls e); discriminate. }
  unfold bind at 1.
  destruct (negb (truthy keys)) eqn:Htruthy.
  { cbn. discriminate. }
  cbn [ret]. unfold bind at 1.
  destruct token as [| | |t| |]; try (cbn; discriminate).
  destruct (jwt_get_unverified_header E t) as [header|e] eqn:Hheader.
  2:{ destruct (exn_cls e); discriminate. }
  unfold bind at 1.
  destruct (truthy header) eqn:Hth.
  2:{ cbn. discriminate. }
  destruct (py_in "kid" header) as [has_kid|e] eqn:Hin.
  2:{ destruct (exn_cls e); discriminate. }
  cbn [negb orb]. unfold bind at 1.
  destruct has_kid; [|cbn; discriminate].
  cbn [negb ret]. unfold bind at 1.
  destruct keys as [| | | |items|]; try (cbn; discriminate).
  cbn [ret]. unfold bind at 1.
  destruct (matching items header) as [found|e] eqn:Hmatch.
  2:{ destruct (exn_cls e); discriminate. }
  destruct found as [|key rest].
  { unfold bind. destruct (py_get header "kid") as [kid|e];
      [cbn; discriminate | destruct (exn_cls e); discriminate]. }
  destruct (jwt_decode E t key) as [decoded|e] eqn:Hdecode.
  2:{ destruct (exn_cls e); discriminate. }
  intros H. injection H as <- <-.
  assert (Hkid : exists x, py_get header "kid" = Ok (Some x)).
  { destruct items as [|k0 items0]; [discriminate|].
    cbn [matching] in Hmatch. unfold rbind in Hmatch.
    destruct (py_get k0 "kid"); [|discriminate].
    destruct header; try discriminate. cbn in Hin |- *.
    injection Hin as Hin. destruct (lookup_field "kid" fields); [eauto | discriminate]. }
  destruct Hkid as [x Hh].
  pose proof (matching_sound header (Some x) Hh items _ Hmatch) as Hs.
  inversion Hs as [|? ? [Hkey (k_kid & Hk & Heq)] _]; subst.
  exists t, jwks, items, header, key, k_kid, x. repeat split; assumption.
Qed.

Lemma accepted_token_was_decoded_witness :
  exists t jwks keys header key k_kid kid,
    JStr "good" = JStr t /\
    requests_get demo_deployment (length (calls empty_world)) = Ok jwks /\
    py_get_default jwks "keys" (JArr []) = Ok (JArr keys) /\
    jwt_get_unverified_header demo_deployment t = Ok header /\
    In key keys /\
    py_get key "kid" = Ok k_kid /\
    py_get header "kid" = Ok (Some kid) /\
    py_eq (match k_kid with Some x => x | None => JNull end) kid = true /\
    jwt_decode demo_deployment t key = Ok (JObj [("email", JStr "worker@example.com")]).
Proof.
  exact (accepted_token_was_decoded demo_deployment demo_cfg (JStr "good")
           (JObj [("email", JStr "worker@example.com")]) empty_world _ eq_refl).
Defined.

Lemma wp_log_exact level msg (Q : result unit -> world -> Prop) w :
  Q (Ok tt) (snd (log level msg w)) -> wp (log level msg) Q w.
Proof. intros H. exact H. Qed.

Ltac wp_exact :=
  match goal with
  | |- wp (bind _ _) _ _ => apply wp_bind
  | |- wp (try_catch _ _) _ _ => apply wp_try_catch
  | |- wp (ret _) _ _ => apply wp_ret
  | |- wp (raise _) _ _ => apply wp_raise
  | |- wp (lift ?r) _ _ => apply wp_lift; destruct r
  | |- wp (logger_error _) _ _ => apply wp_log_exact
  | |- wp (logger_warning _) _ _ => apply wp_log_exact
  | |- wp (log _ _) _ _ => apply wp_log_exact
  | |- wp (match exn_cls (Exn _ _) with _ => _ end) _ _ => cbn [exn_cls]
  | |- wp (match exn_cls ?e with _ => _ end) _ _ => destruct (exn_cls e) eqn:?
  | |- wp (if ?c then _ else _) _ _ => destruct c
  | |- wp (match ?x with _ => _ end) _ _ => destruct x
  end.

(** X13. [verify_token] makes exactly one call, the GET of the key set at
    the URL of the configured region and user pool; it leaves the registry,
    the work orders and the clock as they were; it logs nothing when it
    returns and one error line, naming the exception it re-raises, when it
    fails. *)
Theorem verify_token_footprint (E : env) (cfg : config) (token : json) (w : world) :
  let run := verify_token E cfg token w in
  calls (snd run) = calls w ++ [RequestsGet (jwks_url cfg)] /\
  registry (snd run) = registry w /\
  work_orders (snd run) = work_orders w /\
  draws (snd run) = draws w /\
  logged (snd run) = logged w ++ match fst run with
                                 | Ok _ => []
                                 | Raise e => [verification_log e]
                                 end.
Proof.
  cbv zeta.
  change (wp (verify_token E cfg token)
            (fun r w' =>
               calls w' = calls w ++ [RequestsGet (jwks_url cfg)] /\
               registry w' = registry w /\
               work_orders w' = work_orders w /\
               draws w' = draws w /\
               logged w' = logged w ++ match r with
                                       | Ok _ => []
                                       | Raise e => [verification_log e]
                                       end) w).
  unfold verify_token. apply wp_try_catch, wp_bind, wp_outbound_value.
  fold (jwks_url cfg).
  set (w1 := with_calls _ w).
  assert (H1 : calls w1 = calls w ++ [RequestsGet (jwks_url cfg)]) by reflexivity.
  assert (H2 : registry w1 = registry w) by reflexivity.
  assert (H3 : work_orders w1 = work_orders w) by reflexivity.
  assert (H4 : draws w1 = draws w) by reflexivity.
  assert (H5 : logged w1 = logged w) by reflexivity.
  clearbody w1. unfold verification_log.
  destruct (requests_get E (length (calls w))) as [jwks|e];
    repeat wp_exact;
    cbn [snd log calls registry work_orders draws logged exn_cls exn_str];
    repeat match goal with Hc : exn_cls _ = _ |- _ => rewrite Hc; clear Hc end;
    rewrite ?app_nil_r; repeat split; congruence.
Qed.

(** ** Isolation of connections *)

Lemma send_to_client_keeps E api connection_id message w other :
  other <> connection_id ->
  registry (snd (send_to_client E api connection_id message w)) !! other
  = registry w !! other.
Proof.
  intros Hne. destruct w as [reg wo cs lg d].
  unfold send_to_client, try_catch, bind, now, api_post_to_connection,
    table_delete_item, outbound, logger_warning, logger_error, log.
  world_simpl.
  destruct (post_to_connection E _) as [e|]; [|reflexivity].
  destruct (exn_cls e); world_simpl; try reflexivity.
  destruct (delete_item E _); world_simpl; [reflexivity|].
  now apply lookup_delete_ne.
Qed.

(** X14. [send_to_client] hands its frame to the transport exactly once
    (no retry), calls no backend and never touches the work orders; the
    only registry entry it can change is the one of its own connection. *)
Theorem send_to_client_footprint (E : env) (api : api_client)
    (connection_id : string) (message : json) (w : world) (other : string) :
  other <> connection_id ->
  let w' := snd (send_to_client E api connection_id message w) in
  registry w' !! other = registry w !! other /\
  work_orders w' = work_orders w /\
  frames_of (calls w') = frames_of (calls w) ++ [message] /\
  services_of (calls w') = services_of (calls w).
Proof.
  intros Hne. cbv zeta. split; [now apply send_to_client_keeps|].
  split; [apply send_to_client_work_orders|].
  destruct (send_to_client_calls E api connection_id message w)
    as (w' & tail & Hrun & Hcalls & Hf & Hs).
  rewrite Hrun. cbn [snd]. rewrite Hcalls.
  rewrite frames_of_app, services_of_app.
  change (?a :: tail) with ([a] ++ tail).
  rewrite frames_of_app, services_of_app, Hf, Hs. cbn.
  now rewrite !app_nil_r.
Qed.

Lemma send_to_client_footprint_witness :
  let w' := snd (send_to_client
                   (failing_env (demo_env [] no_stream no_answer)
                      (fun _ => Some gone) (fun _ => None) (fun _ => None))
                   demo_api "C1" (JStr "hello")
                   (with_registry {[ "C1" := stale_item; "C2" := stale_item ]}
                      empty_world)) in
  registry w' !! "C2" = Some stale_item /\
  work_orders w' = ∅ /\
  frames_of (calls w') = [JStr "hello"] /\
  services_of (calls w') = [].
Proof.
  exact (send_to_client_footprint
           (failing_env (demo_env [] no_stream no_answer)
              (fun _ => Some gone) (fun _ => None) (fun _ => None))
           demo_api "C1" (JStr "hello")
           (with_registry {[ "C1" := stale_item; "C2" := stale_item ]} empty_world)
           "C2" ltac:(discriminate)).
Defined.

(** X15. [handle_connect] and [handle_disconnect] leave the registry
    entries of the other connections and the work orders as they were,
    send no frame and call no backend. *)
Theorem lifecycle_footprint (E : env) (connection_id : string) (w : world)
    (other : string) :
  other <> connection_id ->
  (let w' := snd (handle_connect E connection_id w) in
   registry w' !! other = registry w !! other /\
   work_orders w' = work_orders w /\
   frames_of (calls w') = frames_of (calls w) /\
   services_of (calls w') = services_of (calls w)) /\
  (let w' := snd (handle_disconnect E connection_id w) in
   registry w' !! other = registry w !! other /\
   work_orders w' = work_orders w /\
   frames_of (calls w') = frames_of (calls w) /\
   services_of (calls w') = services_of (calls w)).
Proof.
  intros Hne. cbv zeta. destruct w as [reg wo cs lg d]. split.
  - unfold handle_connect, try_catch, bind, now, table_put_item, outbound, ret,
      logger_error, log.
    world_simpl.
    destruct (put_item E _); world_simpl;
      rewrite ?frames_of_app, ?services_of_app; cbn [frames_of services_of flat_map posted service app];
      rewrite ?app_nil_r; repeat split.
    now apply lookup_insert_ne.
  - unfold handle_disconnect, try_catch, bind, table_delete_item, outbound, ret,
      logger_error, log.
    world_simpl.
    destruct (delete_item E _); world_simpl;
      rewrite ?frames_of_app, ?services_of_app; cbn [frames_of services_of flat_map posted service app];
      rewrite ?app_nil_r; repeat split.
    now apply lookup_delete_ne.
Qed.

Lemma lifecycle_footprint_witness :
  let E := demo_env [] no_stream no_answer in
  let w := with_registry {[ "C2" := stale_item ]} empty_world in
  (let w' := snd (handle_connect E "C1" w) in
   registry w' !! "C2" = registry w !! "C2" /\
   work_orders w' = work_orders w /\
   frames_of (calls w') = frames_of (calls w) /\
   services_of (calls w') = services_of (calls w)) /\
  (let w' := snd (handle_disconnect E "C1" w) in
   registry w' !! "C2" = registry w !! "C2" /\
   work_orders w' = work_orders w /\
   frames_of (calls w') = frames_of (calls w) /\
   services_of (calls w') = services_of (calls w)).
Proof.
  exact (lifecycle_footprint (demo_env [] no_stream no_answer) "C1"
           (with_registry {[ "C2" := stale_item ]} empty_world) "C2"
           ltac:(discriminate)).
Defined.

(** X16. Connect followed by disconnect of the same connection, when the
    table accepts both calls: the entry exists in between and the registry
    ends as the initial one without that connection; it is the initial
    registry when the connection was not registered before. *)
Theorem connect_then_disconnect (E : env) (connection_id : string) (w : world) :
  put_item E (length (calls w)) = None ->
  delete_item E (S (length (calls w))) = None ->
  let w1 := snd (handle_connect E connection_id w) in
  let w2 := snd (handle_disconnect E connection_id w1) in
  registry w1 !! connection_id <> None /\
  registry w2 = delete connection_id (registry w) /\
  (registry w !! connection_id = None -> registry w2 = registry w).
Proof.
  intros Hput Hdel. cbv zeta. destruct w as [reg wo cs lg d].
  unfold handle_connect, handle_disconnect, try_catch, bind, now, table_put_item,
    table_delete_item, outbound, ret, logger_error, log.
  world_simpl. rewrite Hput. world_simpl.
  rewrite length_app, Nat.add_comm. cbn [length Nat.add]. rewrite Hdel.
  world_simpl.
  split; [now rewrite lookup_insert_eq|].
  split; [apply delete_insert_eq|].
  intros Hnone. now apply delete_insert_id.
Qed.

Lemma connect_then_disconnect_witness :
  let E := demo_env [] no_stream no_answer in
  let w1 := snd (handle_connect E "C1" empty_world) in
  let w2 := snd (handle_disconnect E "C1" w1) in
  registry w1 !! "C1" <> None /\
  registry w2 = delete "C1" (registry empty_world) /\
  (registry empty_world !! "C1" = None -> registry w2 = registry empty_world).
Proof.
  exact (connect_then_disconnect (demo_env [] no_stream no_answer) "C1" empty_world
           eq_refl eq_refl).
Defined.

(** ** What a request leaves as it was *)

Section Frame.

Variable R : world -> world -> Prop.
Hypothesis R_tables : forall w w',
  registry w' = registry w -> work_orders w' = work_orders w -> R w w'.
Hypothesis R_trans : forall w1 w2 w3, R w1 w2 -> R w2 w3 -> R w1 w3.

Lemma preserves_ret {A} (a : A) : preserves R (ret a).
Proof. intros w. now apply R_tables. Qed.

Lemma preserves_raise {A} e : preserves R (@raise A e).
Proof. intros w. now apply R_tables. Qed.

Lemma preserves_lift {A} (r : result A) : preserves R (lift r).
Proof. intros w. now apply R_tables. Qed.

Lemma preserves_log level msg : preserves R (log level msg).
Proof. intros w. now apply R_tables. Qed.

Lemma preserves_now E : preserves R (now E).
Proof. intros w. now apply R_tables. Qed.

Lemma preserves_uuid E : preserves R (uuid E).
Proof. intros w. now apply R_tables. Qed.

Lemma preserves_outbound_value {A} c (outcome : nat -> result A) :
  preserves R (outbound_value c outcome).
Proof. intros w. now apply R_tables. Qed.

Lemma preserves_outbound c outcome effect :
  (forall w, R w (effect w)) -> preserves R (outbound c outcome effect).
Proof.
  intros He w. unfold outbound.
  destruct (outcome (length (calls w))); cbn [snd].
  - now apply R_tables.
  - apply (R_trans _ (with_calls c w)); [now apply R_tables | apply He].
Qed.

Lemma preserves_bind {A B} (m : M A) (k : A -> M B) :
  preserves R m -> (forall a, preserves R (k a)) -> preserves R (bind m k).
Proof.
  intros Hm Hk w. unfold bind. specialize (Hm w).
  destruct (m w) as [[a|e] w1]; cbn [snd] in *; [|exact Hm].
  apply (R_trans _ w1); [exact Hm | apply Hk].
Qed.

Lemma preserves_try_catch {A} (m : M A) (h : exn -> M A) :
  preserves R m -> (forall e, preserves R (h e)) -> preserves R (try_catch m h).
Proof.
  intros Hm Hh w. unfold try_catch. specialize (Hm w).
  destruct (m w) as [[a|e] w1]; cbn [snd] in *; [exact Hm|].
  apply (R_trans _ w1); [exact Hm | apply Hh].
Qed.

Lemma preserves_guard {A B} (m : M A) (h : exn -> M B) (k : A -> M B) :
  preserves R m -> (forall e, preserves R (h e)) -> (forall a, preserves R (k a)) ->
  preserves R (guard m h k).
Proof.
  intros Hm Hh Hk w. unfold guard. specialize (Hm w).
  destruct (m w) as [[a|e] w1]; cbn [snd] in *.
  - apply (R_trans _ w1); [exact Hm | apply Hk].
  - apply (R_trans _ w1); [exact Hm | apply Hh].
Qed.

Lemma preserves_bind_lift {A B} (r : result A) (k : A -> M B) :
  (forall a, r = Ok a -> preserves R (k a)) -> preserves R (bind (lift r) k).
Proof.
  intros Hk w. unfold bind, lift.
  destruct r as [a|e]; [now apply Hk | now apply R_tables].
Qed.

Lemma preserves_bind_ret {A B} (a : A) (k : A -> M B) :
  preserves R (k a) -> preserves R (bind (ret a) k).
Proof. intros Hk w. apply Hk. Qed.

Lemma preserves_guard_ret {A B} (a : A) (h : exn -> M B) (k : A -> M B) :
  preserves R (k a) -> preserves R (guard (ret a) h k).
Proof. intros Hk w. apply Hk. Qed.

Lemma preserves_guard_raise {A B} e (h : exn -> M B) (k : A -> M B) :
  preserves R (h e) -> preserves R (guard (raise e) h k).
Proof. intros Hh w. apply Hh. Qed.

End Frame.

Ltac frame_step R_tables R_trans :=
  cbv beta;
  match goal with
  | |- preserves _ (bind _ _) => apply (preserves_bind _ R_trans); [|intros ?]
  | |- preserves _ (try_catch _ _) => apply (preserves_try_catch _ R_trans); [|intros ?]
  | |- preserves _ (guard _ _ _) =>
      apply (preserves_guard _ R_trans); [|intros ?|intros ?]
  | |- preserves _ (ret _) => apply (preserves_ret _ R_tables)
  | |- preserves _ (raise _) => apply (preserves_raise _ R_tables)
  | |- preserves _ (lift _) => apply (preserves_lift _ R_tables)
  | |- preserves _ (logger_error _) => apply (preserves_log _ R_tables)
  | |- preserves _ (logger_warning _) => apply (preserves_log _ R_tables)
  | |- preserves _ (log _ _) => apply (preserves_log _ R_tables)
  | |- preserves _ (now _) => apply (preserves_now _ R_tables)
  | |- preserves _ (uuid _) => apply (preserves_uuid _ R_tables)
  | |- preserves _ (loads _ _) => unfold loads
  | |- preserves _ (loads_value _ _) => unfold loads_value
  | |- preserves _ (decode_utf8 _) => unfold decode_utf8
  | |- preserves _ (outbound_value _ _) => apply (preserves_outbound_value _ R_tables)
  | |- preserves _ (if ?c then _ else _) => destruct c
  | |- preserves _ (match ?x with _ => _ end) => destruct x
  end.

Section Confined.

Variable E : env.
Variable cfg : config.
Variable connection_id : string.
Variable R : world -> world -> Prop.
Hypothesis R_tables : forall w w',
  registry w' = registry w -> work_orders w' = work_orders w -> R w w'.
Hypothesis R_trans : forall w1 w2 w3, R w1 w2 -> R w2 w3 -> R w1 w3.
Hypothesis R_delete : forall w,
  R w (with_registry (delete connection_id (registry w)) w).
Hypothesis R_put : forall item w,
  R w (with_registry (<[connection_id := item]> (registry w)) w).

Lemma send_to_client_preserves api message :
  preserves R (send_to_client E api connection_id message).
Proof.
  unfold send_to_client, api_post_to_connection, table_delete_item.
  repeat first
    [ apply (preserves_outbound _ R_tables R_trans);
      [first [exact R_delete | intros w0; now apply R_tables]]
    | frame_step R_tables R_trans ].
Qed.

Lemma lifecycle_preserves :
  preserves R (handle_connect E connection_id) /\
  preserves R (handle_disconnect E connection_id).
Proof.
  split.
  - unfold handle_connect, table_put_item.
    repeat first
      [ apply (preserves_outbound _ R_tables R_trans); apply R_put
      | frame_step R_tables R_trans ].
  - unfold handle_disconnect, table_delete_item.
    repeat first
      [ apply (preserves_outbound _ R_tables R_trans); exact R_delete
      | frame_step R_tables R_trans ].
Qed.

Lemma process_events_preserves api us : forall completion,
  preserves R (process_events E api connection_id us completion).
Proof.
  induction us as [|u us IH]; intros completion; cbn [process_events].
  - apply (preserves_ret _ R_tables).
  - apply (preserves_bind _ R_trans); [|intros c; apply IH].
    unfold process_event.
    repeat first
      [ apply send_to_client_preserves
      | frame_step R_tables R_trans ].
Qed.

Lemma invoke_bedrock_agent_preserves payload session_id api :
  preserves R (invoke_bedrock_agent E cfg payload session_id api connection_id).
Proof.
  unfold invoke_bedrock_agent.
  repeat first
    [ apply send_to_client_preserves
    | apply process_events_preserves
    | frame_step R_tables R_trans ].
Qed.

Lemma invoke_strands_agent_preserves payload session_id api :
  preserves R (invoke_strands_agent E cfg payload session_id api connection_id).
Proof.
  unfold invoke_strands_agent.
  repeat first
    [ apply send_to_client_preserves
    | frame_step R_tables R_trans ].
Qed.

Lemma verify_token_preserves token : preserves R (verify_token E cfg token).
Proof.
  unfold verify_token.
  repeat frame_step R_tables R_trans.
Qed.

Lemma build_payload_preserves event_body : preserves R (build_payload event_body).
Proof.
  unfold build_payload. repeat frame_step R_tables R_trans.
Qed.

Lemma handle_message_except_preserves api event_body request_id e :
  preserves R (handle_message_except E api connection_id event_body request_id e).
Proof.
  unfold handle_message_except.
  repeat first
    [ apply send_to_client_preserves
    | frame_step R_tables R_trans ].
Qed.

Lemma persist_preserves event_body completion current_time :
  (forall k values w,
      work_order_id_of event_body = Some (JStr k) ->
      R w (with_work_orders (<[k := values]> (work_orders w)) w)) ->
  preserves R (persist E cfg event_body completion current_time).
Proof.
  intros Hup. unfold persist.
  apply (preserves_try_catch _ R_trans); [|intros e; apply (preserves_log _ R_tables)].
  destruct (work_orders_table cfg); cbv iota.
  2:{ apply (preserves_bind_ret R). cbn [negb].
      apply (preserves_log _ R_tables). }
  apply (preserves_bind_lift _ R_tables). intros has_details Hin.
  destruct has_details; [|repeat frame_step R_tables R_trans].
  apply (preserves_bind_lift _ R_tables). intros details Hdetails.
  apply (preserves_bind_lift _ R_tables). intros work_order_id Hid.
  destruct work_order_id as [id|]; [|apply (preserves_log _ R_tables)].
  destruct (truthy id); [|apply (preserves_log _ R_tables)].
  unfold table_update_item.
  destruct event_body as [| | | | |fields]; try discriminate.
  cbn [py_getitem] in Hdetails.
  destruct (lookup_field "workOrderDetails" fields) as [d|] eqn:Hd; [|discriminate].
  injection Hdetails as <-.
  destruct d as [| | | | |inner]; try discriminate.
  cbn [py_get] in Hid. injection Hid as Hid.
  destruct id; apply (preserves_outbound _ R_tables R_trans);
    try (intros w0; now apply R_tables).
  intros w0. apply Hup. cbn [work_order_id_of]. now rewrite Hd.
Qed.

Lemma handle_message_main_preserves api event_body session_id :
  (forall k values w,
      work_order_id_of event_body = Some (JStr k) ->
      R w (with_work_orders (<[k := values]> (work_orders w)) w)) ->
  preserves R (handle_message_main E cfg api connection_id event_body session_id).
Proof.
  intros Hup. unfold handle_message_main.
  repeat first
    [ apply build_payload_preserves
    | apply invoke_strands_agent_preserves
    | apply invoke_bedrock_agent_preserves
    | apply send_to_client_preserves
    | apply persist_preserves; exact Hup
    | frame_step R_tables R_trans ].
Qed.

Lemma handle_message_preserves api event :
  (forall k values w,
      work_order_of E event = Some (JStr k) ->
      R w (with_work_orders (<[k := values]> (work_orders w)) w)) ->
  preserves R (handle_message E cfg api connection_id event).
Proof.
  intros Hup. unfold handle_message, work_order_of in *.
  destruct (body event) as [b|].
  2:{ apply preserves_guard_raise, handle_message_except_preserves. }
  unfold loads. destruct (json_loads E b) as [event_body|].
  2:{ apply preserves_guard_raise, handle_message_except_preserves. }
  apply preserves_guard_ret.
  apply (preserves_guard _ R_trans);
    [repeat frame_step R_tables R_trans
    |intros e; apply handle_message_except_preserves
    |intros locals].
  apply (preserves_guard _ R_trans);
    [now apply handle_message_main_preserves
    |intros e; apply handle_message_except_preserves
    |intros r; apply (preserves_ret _ R_tables)].
Qed.

Lemma lambda_handler_preserves event :
  (forall c, connection_of event = Some c -> c = connection_id) ->
  (forall k values w,
      work_order_of E event = Some (JStr k) ->
      R w (with_work_orders (<[k := values]> (work_orders w)) w)) ->
  preserves R (lambda_handler E cfg event).
Proof.
  intros Hconn Hup. unfold lambda_handler, connection_of in *.
  apply (preserves_try_catch _ R_trans);
    [|intros e; repeat frame_step R_tables R_trans].
  destruct (requestContext event) as [rc|];
    [|repeat frame_step R_tables R_trans].
  destruct (connectionId rc) as [c|].
  2:{ cbn [set_str negb]. rewrite orb_true_r. repeat frame_step R_tables R_trans. }
  rewrite (Hconn c eq_refl). cbn [fmt_opt].
  repeat first
    [ apply (proj1 lifecycle_preserves)
    | apply (proj2 lifecycle_preserves)
    | apply verify_token_preserves
    | apply handle_message_preserves; exact Hup
    | frame_step R_tables R_trans ].
Qed.

End Confined.

Lemma entry_kept_trans other w1 w2 w3 :
  entry_kept other w1 w2 -> entry_kept other w2 w3 -> entry_kept other w1 w3.
Proof. unfold entry_kept. congruence. Qed.

Lemma work_order_kept_trans k w1 w2 w3 :
  work_order_kept k w1 w2 -> work_order_kept k w2 w3 -> work_order_kept k w1 w3.
Proof. unfold work_order_kept. congruence. Qed.

Lemma string_cons_ne c : forall s, String c s <> s.
Proof.
  induction s as [|d s IH]; intros H; [discriminate|].
  injection H as -> H. now apply IH.
Qed.

(** X17. Whatever the event and whatever the collaborators do, a run of
    [lambda_handler] leaves the registry entry of every connection other
    than the one of the event as it was. *)
Theorem request_keeps_other_connections (E : env) (cfg : config) (event : event)
    (w : world) (other : string) :
  connection_of event <> Some other ->
  registry (snd (lambda_handler E cfg event w)) !! other = registry w !! other.
Proof.
  intros Hne.
  set (c := match connection_of event with
            | Some c => c
            | None => String "x" other
            end).
  assert (Hc : c <> other).
  { unfold c. destruct (connection_of event); [congruence | apply string_cons_ne]. }
  apply (lambda_handler_preserves E cfg c (entry_kept other)).
  - intros w0 w' Hr _. unfold entry_kept. now rewrite Hr.
  - apply entry_kept_trans.
  - intros w0. unfold entry_kept. cbn [registry with_registry].
    now apply lookup_delete_ne.
  - intros item w0. unfold entry_kept. cbn [registry with_registry].
    now apply lookup_insert_ne.
  - intros c0 H0. unfold c. now rewrite H0.
  - intros k values w0 _. reflexivity.
Qed.

Lemma request_keeps_other_connections_witness :
  let w := with_registry {[ "C2" := stale_item ]} empty_world in
  registry (snd (lambda_handler demo_deployment demo_cfg
                   (message_event "C1" (json_dumps (request_via "StrandsSDK"))) w))
    !! "C2"
  = registry w !! "C2".
Proof.
  exact (request_keeps_other_connections demo_deployment demo_cfg
           (message_event "C1" (json_dumps (request_via "StrandsSDK")))
           (with_registry {[ "C2" := stale_item ]} empty_world) "C2"
           ltac:(discriminate)).
Defined.

(** X18. Whatever the event and whatever the collaborators do, a run of
    [lambda_handler] leaves the stored safety check of every work order
    other than the one its body names
    ([workOrderDetails.work_order_id]) as it was. *)
Theorem request_keeps_other_work_orders (E : env) (cfg : config) (event : event)
    (w : world) (k : string) :
  work_order_of E event <> Some (JStr k) ->
  work_orders (snd (lambda_handler E cfg event w)) !! k = work_orders w !! k.
Proof.
  intros Hne.
  apply (lambda_handler_preserves E cfg
           (match connection_of event with Some c => c | None => EmptyString end)
           (work_order_kept k)).
  - intros w0 w' _ Hw. unfold work_order_kept. now rewrite Hw.
  - apply work_order_kept_trans.
  - intros w0. reflexivity.
  - intros item w0. reflexivity.
  - intros c ->. reflexivity.
  - intros k' values w0 Hk. unfold work_order_kept.
    cbn [work_orders with_work_orders]. apply lookup_insert_ne. congruence.
Qed.

Lemma request_keeps_other_work_orders_witness :
  work_orders (snd (lambda_handler demo_deployment demo_cfg
                      (message_event "C1" (json_dumps (request_via "Foo")))
                      empty_world)) !! "WO2"
  = work_orders empty_world !! "WO2".
Proof.
  exact (request_keeps_other_work_orders demo_deployment demo_cfg
           (message_event "C1" (json_dumps (request_via "Foo"))) empty_world "WO2"
           ltac:(vm_compute; discriminate)).
Defined.

(** ** Outcomes of the streaming variant *)

(** X19. When the agent id or the alias id is not configured,
    [invoke_bedrock_agent] does not call the backend: it sends one [error]
    frame whose [message] is the text naming the two ids, and returns that
    text. *)
Theorem unconfigured_agent_is_not_called (E : env) (cfg : config) (payload : string)
    (session_id : json) (api : api_client) (connection_id : string) (w : world) :
  agent_configured cfg = false ->
  exists w',
    invoke_bedrock_agent E cfg payload session_id api connection_id w
    = (Ok (unconfigured_message cfg), w') /\
    frames_of (calls w')
    = frames_of (calls w)
      ++ [JObj [("type", JStr "error");
                ("message", JStr (unconfigured_message cfg));
                ("agentFramework", JStr "BedrockAgent")]] /\
    services_of (calls w') = services_of (calls w).
Proof.
  intros Hcfg.
  assert (Hc : negb (set_str (BEDROCK_AGENT_ID cfg))
               || negb (set_str (BEDROCK_AGENT_ALIAS_ID cfg)) = true).
  { unfold agent_configured in Hcfg. apply andb_false_iff in Hcfg.
    destruct Hcfg as [-> | ->]; [reflexivity | apply orb_true_r]. }
  set (frame := JObj [("type", JStr "error");
                      ("message", JStr (unconfigured_message cfg));
                      ("agentFramework", JStr "BedrockAgent")]).
  assert (H : wp (invoke_bedrock_agent E cfg payload session_id api connection_id)
                (fun r w' => r = Ok (unconfigured_message cfg) /\ adds w w' [frame] [])
                w).
  { unfold invoke_bedrock_agent. apply wp_try_catch. rewrite Hc.
    apply log_send_ret_wp. intros w' Ha. now split. }
  destruct (wp_elim _ _ _ H) as (r & w' & Hrun & -> & [Hf Hs]).
  exists w'. rewrite app_nil_r in Hs. now repeat split.
Qed.

Lemma unconfigured_agent_is_not_called_witness :
  let cfg := {| REGION := "us-east-1"; USER_POOL_ID := "pool-1"; CLIENT_ID := "client-1";
                BEDROCK_AGENT_ID := Some "AGENT1"; BEDROCK_AGENT_ALIAS_ID := None;
                STRANDS_AGENT_ID := None; STRANDS_AGENT_ALIAS_ID := None;
                WORK_ORDERS_TABLE_NAME := None |} in
  exists w',
    invoke_bedrock_agent demo_deployment cfg "{}" (JStr "s-1") demo_api "C1" empty_world
    = (Ok (unconfigured_message cfg), w') /\
    frames_of (calls w')
    = frames_of (calls empty_world)
      ++ [JObj [("type", JStr "error");
                ("message", JStr (unconfigured_message cfg));
                ("agentFramework", JStr "BedrockAgent")]] /\
    services_of (calls w') = services_of (calls empty_world).
Proof.
  exact (unconfigured_agent_is_not_called demo_deployment
           {| REGION := "us-east-1"; USER_POOL_ID := "pool-1"; CLIENT_ID := "client-1";
              BEDROCK_AGENT_ID := Some "AGENT1"; BEDROCK_AGENT_ALIAS_ID := None;
              STRANDS_AGENT_ID := None; STRANDS_AGENT_ALIAS_ID := None;
              WORK_ORDERS_TABLE_NAME := None |}
           "{}" (JStr "s-1") demo_api "C1" empty_world eq_refl).
Defined.

Lemma process_event_undecodable E api connection_id bad reason completion Q w :
  chunk bad = Some {| bytes := Some (NotUtf8 reason) |} ->
  Q (Raise (Exn UnicodeDecodeError reason)) w ->
  wp (process_event E api connection_id bad completion) Q w.
Proof.
  intros Hbad HQ. unfold process_event. rewrite Hbad. cbn [bytes decode_utf8].
  apply wp_bind, wp_bind, wp_raise. exact HQ.
Qed.

Lemma wp_process_events_app E api connection_id pre post completion Q w :
  wp (bind (process_events E api connection_id pre completion)
        (fun c => process_events E api connection_id post c)) Q w ->
  wp (process_events E api connection_id (pre ++ post) completion) Q w.
Proof. unfold wp. now rewrite process_events_app. Qed.

(** X20. When the streaming backend fails (the call raises, the iterator
    raises after its units, or a chunk is not UTF-8), the trace frames of
    the units handled before the failure have been sent, one [error] frame
    with the text of the exception follows, and that text is returned:
    the chunk texts gathered so far are dropped, and so is the trace of
    the unit whose chunk cannot be decoded. *)
Theorem broken_stream_is_reported (E : env) (cfg : config) (payload : string)
    (session_id : json) (api : api_client) (connection_id : string) (w : world)
    (seen : list event_item) (e : exn) :
  agent_configured cfg = true ->
  stream_breaks (invoke_agent E (length (calls w))) seen e ->
  let error_msg := "Error invoking Bedrock agent: " +:+ exn_str e in
  exists w',
    invoke_bedrock_agent E cfg payload session_id api connection_id w
    = (Ok error_msg, w') /\
    frames_of (calls w')
    = frames_of (calls w) ++ trace_frames seen ++ [bedrock_error_frame error_msg] /\
    services_of (calls w')
    = services_of (calls w) ++ [agent_request cfg payload session_id].
Proof.
  intros Hcfg Hbreak. cbv zeta.
  assert (Hc : negb (set_str (BEDROCK_AGENT_ID cfg))
               || negb (set_str (BEDROCK_AGENT_ALIAS_ID cfg)) = false).
  { unfold agent_configured in Hcfg. apply andb_true_iff in Hcfg as [-> ->].
    reflexivity. }
  set (c := agent_request cfg payload session_id).
  set (msg := "Error invoking Bedrock agent: " +:+ exn_str e).
  assert (H : wp (invoke_bedrock_agent E cfg payload session_id api connection_id)
                (fun r w' => r = Ok msg /\
                             adds w w' (trace_frames seen ++ [bedrock_error_frame msg]) [c])
                w).
  { unfold invoke_bedrock_agent. apply wp_try_catch. rewrite Hc.
    apply wp_bind, wp_outbound_value. fold (agent_request cfg payload session_id).
    fold c.
    assert (Hfail : forall w1,
               adds w w1 (trace_frames seen) [c] ->
               wp (bind (logger_error msg)
                     (fun _ => bind (send_to_client E api connection_id
                                       (bedrock_error_frame msg))
                                 (fun _ => ret msg)))
                  (fun r w' => r = Ok msg /\
                     adds w w' (trace_frames seen ++ [bedrock_error_frame msg]) [c])
                  w1).
    { intros w1 H1. apply log_send_ret_wp. intros w' Ha. split; [reflexivity|].
      pose proof (adds_trans _ _ _ _ _ _ _ H1 Ha) as Ht. now rewrite app_nil_r in Ht. }
    inversion Hbreak as [e0 He | stream e0 Hf Hd He | stream seen0 bad rest reason Hu Hd Hb He];
      subst.
    - apply (Hfail _ (adds_call w c)).
    - apply wp_bind, process_events_wp; [exact Hd|]. intros w1 H1.
      rewrite Hf. apply wp_raise, Hfail.
      exact (adds_trans _ _ _ [] _ _ _ (adds_call w c) H1).
    - rewrite Hu. apply wp_bind, wp_process_events_app.
      apply wp_bind, process_events_wp; [exact Hd|]. intros w1 H1.
      cbn [process_events]. apply wp_bind.
      apply (process_event_undecodable _ _ _ _ reason); [exact Hb|].
      apply Hfail.
      exact (adds_trans _ _ _ [] _ _ _ (adds_call w c) H1). }
  destruct (wp_elim _ _ _ H) as (r & w' & Hrun & -> & [Hf Hs]).
  exists w'. now repeat split.
Qed.

Lemma broken_stream_is_reported_witness :
  exists w',
    invoke_bedrock_agent (demo_env [] (Ok broken_stream) no_answer) demo_cfg
      "{}" (JStr "s-1") demo_api "C1" empty_world
    = (Ok "Error invoking Bedrock agent: invalid start byte", w') /\
    frames_of (calls w')
    = [bedrock_trace_frame (JObj [("orchestrationTrace", JStr "calling weather agent")]);
       bedrock_error_frame "Error invoking Bedrock agent: invalid start byte"] /\
    services_of (calls w') = [agent_request demo_cfg "{}" (JStr "s-1")].
Proof.
  refine (broken_stream_is_reported (demo_env [] (Ok broken_stream) no_answer) demo_cfg
            "{}" (JStr "s-1") demo_api "C1" empty_world
            [ {| chunk := Some {| bytes := Some (Utf8 "<div>") |};
                 trace := Some (JObj [("orchestrationTrace",
                                       JStr "calling weather agent")]) |} ]
            (Exn UnicodeDecodeError "invalid start byte") eq_refl _).
  apply (breaks_at_chunk broken_stream _
           {| chunk := Some {| bytes := Some (NotUtf8 "invalid start byte") |};
              trace := Some (JObj [("orchestrationTrace", JStr "lost")]) |} []
           "invalid start byte").
  - reflexivity.
  - repeat constructor.
  - reflexivity.
Defined.

Lemma wp_bind_run {A B} (m : M A) (k : A -> M B) Q w a w1 :
  m w = (Ok a, w1) -> wp (k a) Q w1 -> wp (bind m k) Q w.
Proof. intros Hm Hk. unfold wp, bind. now rewrite Hm. Qed.

Lemma send_to_client_run E api connection_id message w :
  send_to_client E api connection_id message w
  = (Ok tt, snd (send_to_client E api connection_id message w)) /\
  adds w (snd (send_to_client E api connection_id message w)) [message] [] /\
  draws (snd (send_to_client E api connection_id message w)) = S (draws w).
Proof.
  destruct (send_to_client_calls E api connection_id message w)
    as (w' & tail & Hrun & Hcalls & Hf & Hs).
  rewrite Hrun. cbn [snd]. split; [reflexivity|]. split.
  - split; rewrite Hcalls.
    + rewrite frames_of_app. change (?a :: tail) with ([a] ++ tail).
      now rewrite frames_of_app, Hf.
    + rewrite services_of_app. change (?a :: tail) with ([a] ++ tail).
      now rewrite services_of_app, Hs.
  - pose proof (send_to_client_draws E api connection_id message w) as Hd.
    now rewrite Hrun in Hd.
Qed.

(** ** Outcomes of the delegating variant *)

(** X21. When the delegated service answers with status 200 and a body
    that parses, [invoke_strands_agent] returns the cleaned text extracted
    from the body; it has sent its opening trace frame and then one
    [final] frame carrying that cleaned text, tagged StrandsSDK; the one
    call to the service carries the prompt, the session id, the connection
    id and the push endpoint. *)
Theorem delegating_variant_result (E : env) (cfg : config) (payload : string)
    (session_id : json) (api : api_client) (connection_id : string) (w : world)
    (body : json) (completion : string) :
  let w1 := after_init_trace E api connection_id w in
  delegation_answers E (lambda_invoke E (length (calls w1))) body ->
  extract_completion body = Ok completion ->
  let request_id := "ws-strands-" +:+ connection_id +:+ "-"
                    +:+ str_of_int (now_epoch (clock E (S (draws w)))) in
  let t := now_iso (clock E (S (S (draws w)))) in
  exists w',
    invoke_strands_agent E cfg payload session_id api connection_id w
    = (Ok (clean_html_response completion), w') /\
    frames_of (calls w')
    = frames_of (calls w)
      ++ [strands_init_trace;
          final_frame request_id (clean_html_response completion) t
            (JStr "StrandsSDK")] /\
    services_of (calls w')
    = services_of (calls w)
      ++ [delegated_request cfg payload session_id api connection_id].
Proof.
  cbv zeta. unfold after_init_trace.
  intros Hanswers Hextract.
  destruct (send_to_client_run E api connection_id strands_init_trace w)
    as (Hrun & Ha & Hd).
  set (w1 := snd (send_to_client E api connection_id strands_init_trace w)) in *.
  set (c := delegated_request cfg payload session_id api connection_id).
  set (request_id := "ws-strands-" +:+ connection_id +:+ "-"
                     +:+ str_of_int (now_epoch (clock E (S (draws w))))).
  set (t := now_iso (clock E (S (S (draws w))))).
  set (frame := final_frame request_id (clean_html_response completion) t
                  (JStr "StrandsSDK")).
  assert (H : wp (invoke_strands_agent E cfg payload session_id api connection_id)
                (fun r w' => r = Ok (clean_html_response completion) /\
                             adds w w' [strands_init_trace; frame] [c]) w).
  { unfold invoke_strands_agent. apply wp_try_catch.
    apply (wp_bind_run _ _ _ _ _ _ Hrun).
    apply wp_bind, wp_outbound_value. fold c.
    inversion Hanswers as [raw fields btext body0 Hparsed Herr Hstatus Hbody Hbparsed Hret];
      subst body0.
    apply wp_bind. unfold loads at 1. rewrite Hparsed. apply wp_ret.
    apply wp_bind, wp_lift. cbn [py_in]. rewrite Herr.
    apply wp_bind, wp_ret.
    apply wp_bind, wp_lift. cbn [py_get]. rewrite Hstatus.
    apply wp_bind, wp_lift. cbn [py_getitem]. rewrite Hbody.
    apply wp_bind. unfold loads_value, loads. rewrite Hbparsed. apply wp_ret.
    apply wp_bind, wp_lift. rewrite Hextract.
    apply wp_bind, wp_now, wp_bind, wp_now, wp_bind, send_to_client_wp.
    intros w' Ha' _. apply wp_ret. split; [reflexivity|].
    cbn [draws next_draw with_calls] in Ha'. rewrite Hd in Ha'.
    assert (H2 : adds w (next_draw (next_draw (with_calls c w1)))
                   [strands_init_trace] [c]).
    { apply (adds_same w (with_calls c w1)); [|reflexivity].
      exact (adds_trans _ _ _ _ [] [] _ Ha (adds_call w1 c)). }
    exact (adds_trans _ _ _ _ _ _ _ H2 Ha'). }
  destruct (wp_elim _ _ _ H) as (r & w' & Hrun' & -> & [Hf Hs]).
  exists w'. now repeat split.
Qed.

Lemma delegating_variant_result_witness :
  exists w',
    invoke_strands_agent demo_deployment demo_cfg "{}" (JStr "s-1") demo_api "C1"
      empty_world
    = (Ok "<div>Report</div>", w') /\
    frames_of (calls w')
    = [strands_init_trace;
       final_frame ("ws-strands-C1-" +:+ str_of_int (now_epoch (demo_clock 1)))
         "<div>Report</div>" (now_iso (demo_clock 2)) (JStr "StrandsSDK")] /\
    services_of (calls w')
    = [delegated_request demo_cfg "{}" (JStr "s-1") demo_api "C1"].
Proof.
  refine (delegating_variant_result demo_deployment demo_cfg "{}" (JStr "s-1")
            demo_api "C1" empty_world strands_body "<div>Report</div>" _ eq_refl).
  apply (answers demo_deployment (json_dumps strands_answer)
           [("statusCode", JNum 200); ("body", JStr (json_dumps strands_body))]
           (json_dumps strands_body) strands_body); reflexivity.
Defined.

(** X22. When the delegation fails (the call raises, the answer is not
    JSON, the answer has an [error] key, or its status is not 200),
    [invoke_strands_agent] sends its opening trace frame and then one
    [error] frame with the text of the failure, and returns that text. *)
Theorem failed_delegation_is_reported (E : env) (cfg : config) (payload : string)
    (session_id : json) (api : api_client) (connection_id : string) (w : world)
    (error_msg : string) :
  let w1 := after_init_trace E api connection_id w in
  delegation_fails E (lambda_invoke E (length (calls w1))) error_msg ->
  exists w',
    invoke_strands_agent E cfg payload session_id api connection_id w
    = (Ok error_msg, w') /\
    frames_of (calls w')
    = frames_of (calls w) ++ [strands_init_trace; strands_error_frame error_msg] /\
    services_of (calls w')
    = services_of (calls w)
      ++ [delegated_request cfg payload session_id api connection_id].
Proof.
  cbv zeta. unfold after_init_trace. intros Hfails.
  destruct (send_to_client_run E api connection_id strands_init_trace w)
    as (Hrun & Ha & Hd).
  set (w1 := snd (send_to_client E api connection_id strands_init_trace w)) in *.
  set (c := delegated_request cfg payload session_id api connection_id).
  assert (H : wp (invoke_strands_agent E cfg payload session_id api connection_id)
                (fun r w' => r = Ok error_msg /\
                             adds w w' [strands_init_trace; strands_error_frame error_msg]
                               [c]) w).
  { unfold invoke_strands_agent. apply wp_try_catch.
    apply (wp_bind_run _ _ _ _ _ _ Hrun).
    apply wp_bind, wp_outbound_value. fold c.
    assert (H2 : adds w (with_calls c w1) [strands_init_trace] [c]).
    { exact (adds_trans _ _ _ _ [] [] _ Ha (adds_call w1 c)). }
    assert (Hend : forall msg,
               wp (bind (logger_error msg)
                     (fun _ => bind (send_to_client E api connection_id
                                       (strands_error_frame msg))
                                 (fun _ => ret msg)))
                  (fun r w' => r = Ok msg /\
                     adds w w' [strands_init_trace; strands_error_frame msg] [c])
                  (with_calls c w1)).
    { intros msg. apply log_send_ret_wp. intros w' Ha'. split; [reflexivity|].
      exact (adds_trans _ _ _ _ _ _ _ H2 Ha'). }
    inversion Hfails as [e He | raw Hl He | raw fields err Hl Herr He
                         | raw fields Hl Herr Hst He]; subst.
    - apply Hend.
    - apply wp_bind. unfold loads. rewrite Hl. apply wp_raise. apply Hend.
    - apply wp_bind. unfold loads. rewrite Hl. apply wp_ret.
      apply wp_bind, wp_lift. cbn [py_in]. rewrite Herr.
      apply wp_bind, wp_bind, wp_lift. cbn [py_getitem]. rewrite Herr.
      apply wp_raise. cbn [exn_str]. apply Hend.
    - apply wp_bind. unfold loads. rewrite Hl. apply wp_ret.
      apply wp_bind, wp_lift. cbn [py_in]. rewrite Herr.
      apply wp_bind, wp_ret.
      apply wp_bind, wp_lift. cbn [py_get]. rewrite Hst.
      apply wp_bind, wp_lift. unfold py_get_default. cbn [py_get].
      destruct (lookup_field "body" fields); apply log_send_ret_wp;
        intros w' Ha'; (split; [reflexivity|]);
        exact (adds_trans _ _ _ _ _ _ _ H2 Ha'). }
  destruct (wp_elim _ _ _ H) as (r & w' & Hrun' & -> & [Hf Hs]).
  exists w'. now repeat split.
Qed.

Lemma failed_delegation_is_reported_witness :
  exists w',
    invoke_strands_agent (demo_env [] no_stream no_answer) demo_cfg "{}" (JStr "s-1")
      demo_api "C1" empty_world
    = (Ok "Error invoking Strands agent: An error occurred (ResourceNotFoundException)",
       w') /\
    frames_of (calls w')
    = [strands_init_trace;
       strands_error_frame
         "Error invoking Strands agent: An error occurred (ResourceNotFoundException)"] /\
    services_of (calls w')
    = [delegated_request demo_cfg "{}" (JStr "s-1") demo_api "C1"].
Proof.
  refine (failed_delegation_is_reported (demo_env [] no_stream no_answer) demo_cfg
            "{}" (JStr "s-1") demo_api "C1" empty_world _ _).
  apply (fails_at_call _
           (Exn ClientError "An error occurred (ResourceNotFoundException)")).
Defined.

(** ** The calls of a request *)

Ltac svc_step :=
  match goal with
  | |- wp (bind _ _) _ _ => apply wp_bind
  | |- wp (try_catch _ _) _ _ => apply wp_try_catch
  | |- wp (ret _) _ _ => apply wp_ret
  | |- wp (raise _) _ _ => apply wp_raise
  | |- wp (lift ?r) _ _ => apply wp_lift; destruct r
  | |- wp (logger_error _) _ _ => apply wp_log; intros ? ? ?
  | |- wp (logger_warning _) _ _ => apply wp_log; intros ? ? ?
  | |- wp (now _) _ _ => apply wp_now
  | |- wp (loads _ _) _ _ => unfold loads
  | |- wp (loads_value _ _) _ _ => unfold loads_value
  | |- wp (send_to_client _ _ _ _) _ _ => apply send_to_client_wp; intros ? ? ?
  | |- wp (if ?c then _ else _) _ _ => destruct c
  | |- wp (match ?x with _ => _ end) _ _ => destruct x
  end.

Ltac svc_done :=
  repeat match goal with
         | H : adds _ _ _ [] |- _ =>
             apply adds_services in H; rewrite app_nil_r in H
         end;
  world_simpl; congruence.

Lemma invoke_strands_agent_services E cfg payload session_id api connection_id w :
  services_of (calls (snd (invoke_strands_agent E cfg payload session_id api
                             connection_id w)))
  = services_of (calls w)
    ++ [delegated_request cfg payload session_id api connection_id].
Proof.
  set (c := delegated_request cfg payload session_id api connection_id).
  change (wp (invoke_strands_agent E cfg payload session_id api connection_id)
            (fun _ w' => services_of (calls w') = services_of (calls w) ++ [c]) w).
  unfold invoke_strands_agent.
  apply wp_try_catch, wp_bind, send_to_client_wp. intros w1 H1 _.
  apply wp_bind, wp_outbound_value. change (LambdaInvoke _ _) with c.
  assert (H2 : services_of (calls (with_calls c w1)) = services_of (calls w) ++ [c]).
  { cbn [calls with_calls]. rewrite services_of_app.
    apply adds_services in H1. rewrite app_nil_r in H1. now rewrite H1. }
  set (w2 := with_calls c w1) in *. clearbody w2. clear H1.
  destruct (lambda_invoke E (length (calls w1))); repeat svc_step; svc_done.
Qed.

Lemma invoke_bedrock_agent_services E cfg payload session_id api connection_id w :
  services_of (calls (snd (invoke_bedrock_agent E cfg payload session_id api
                             connection_id w)))
  = services_of (calls w)
    ++ (if agent_configured cfg then [agent_request cfg payload session_id] else []).
Proof.
  set (c := agent_request cfg payload session_id).
  change (wp (invoke_bedrock_agent E cfg payload session_id api connection_id)
            (fun _ w' => services_of (calls w')
                         = services_of (calls w)
                           ++ (if agent_configured cfg then [c] else [])) w).
  unfold invoke_bedrock_agent, agent_configured.
  apply wp_try_catch.
  destruct (set_str (BEDROCK_AGENT_ID cfg)), (set_str (BEDROCK_AGENT_ALIAS_ID cfg));
    cbn [negb orb andb]; rewrite ?app_nil_r;
    try (repeat svc_step; svc_done).
  apply wp_bind, wp_outbound_value. change (InvokeAgent _) with c.
  assert (H2 : services_of (calls (with_calls c w)) = services_of (calls w) ++ [c]).
  { cbn [calls with_calls]. now rewrite services_of_app. }
  set (w2 := with_calls c w) in *. clearbody w2.
  destruct (invoke_agent E (length (calls w))) as [stream|e];
    [|repeat svc_step; svc_done].
  apply wp_bind, process_events_frames. intros r w3 fs H3 _.
  destruct r; repeat svc_step; svc_done.
Qed.

Lemma persist_services E cfg event_body completion current_time w :
  let run := persist E cfg event_body completion current_time w in
  fst run = Ok tt /\
  services_of (calls (snd run))
  = services_of (calls w)
    ++ match work_order_to_update cfg event_body with
       | Some id =>
           [UpdateItem id {| safetyCheckResponse := extract_html_content completion;
                             safetyCheckPerformedAt := current_time |}]
       | None => []
       end /\
  frames_of (calls (snd run)) = frames_of (calls w) /\
  registry (snd run) = registry w /\
  (work_order_to_update cfg event_body = None ->
   work_orders (snd run) = work_orders w /\ calls (snd run) = calls w).
Proof.
  cbv zeta. destruct w as [reg wo cs lg d].
  unfold persist, work_order_to_update, work_order_id_of, try_catch, bind, lift, ret,
    logger_warning, logger_error, log, table_update_item, outbound.
  destruct (work_orders_table cfg); world_simpl;
    [|rewrite app_nil_r; repeat split].
  destruct event_body as [| | |s|items|fields]; cbn [py_in py_getitem]; world_simpl;
    rewrite ?app_nil_r; try (repeat split; fail).
  - destruct (contains _ _); world_simpl; repeat split.
  - destruct (existsb _ _); world_simpl; repeat split.
  - destruct (lookup_field "workOrderDetails" fields) as [details|]; world_simpl;
      rewrite ?app_nil_r; [|repeat split].
    destruct details as [| | | | |inner]; cbn [py_get]; world_simpl;
      rewrite ?app_nil_r; try (repeat split; fail).
    destruct (lookup_field "work_order_id" inner) as [id|]; world_simpl;
      rewrite ?app_nil_r; [|repeat split].
    destruct (truthy id); world_simpl; rewrite ?app_nil_r; [|repeat split].
    destruct id as [| | |k| |]; world_simpl;
      try (destruct (update_item E (length cs)); world_simpl);
      rewrite ?services_of_app, ?frames_of_app; cbn [services_of frames_of flat_map service posted app];
      rewrite ?app_nil_r; repeat split; discriminate.
Qed.

(** X23. The update of the work-order table never raises and never sends
    a frame. It calls [update_item] exactly when the table is configured
    and the body is an object whose [workOrderDetails] is an object with
    a truthy [work_order_id], and then once, with the extracted HTML and
    the given time; in every other case no call is made and the work
    orders are as they were. *)
Theorem persist_decision (E : env) (cfg : config) (event_body : json)
    (completion current_time : string) (w : world) :
  let run := persist E cfg event_body completion current_time w in
  fst run = Ok tt /\
  services_of (calls (snd run))
  = services_of (calls w)
    ++ match work_order_to_update cfg event_body with
       | Some id =>
           [UpdateItem id {| safetyCheckResponse := extract_html_content completion;
                             safetyCheckPerformedAt := current_time |}]
       | None => []
       end /\
  frames_of (calls (snd run)) = frames_of (calls w) /\
  registry (snd run) = registry w /\
  (work_order_to_update cfg event_body = None ->
   work_orders (snd run) = work_orders w /\ calls (snd run) = calls w).
Proof. apply persist_services. Qed.

Lemma run_services {A} (m : M A) w r w' sv :
  m w = (r, w') ->
  services_of (calls (snd (m w))) = services_of (calls w) ++ sv ->
  services_of (calls w') = services_of (calls w) ++ sv.
Proof. intros ->. exact (fun H => H). Qed.

(** X24. The calls of a processed request to the backends and the
    work-order table, in order: the call of the selected backend (the
    delegated service for StrandsSDK; otherwise the agent, when its ids are
    configured), carrying as prompt [workOrderDetails] alone when the body
    has it and the whole body otherwise, and as session the [session_id]
    of the body or a fresh uuid; then the table update, when one is due. *)
Theorem processed_request_calls (E : env) (cfg : config) (api : api_client)
    (connection_id : string) (event : event) (b : string)
    (fields : list (string * json)) (w : world) :
  body event = Some b ->
  json_loads E b = Some (JObj fields) ->
  exists w' completion current_time,
    handle_message E cfg api connection_id event w
    = (Ok (status 200 "Message sent"), w') /\
    services_of (calls w')
    = services_of (calls w)
      ++ backend_requests cfg fields (session_of fields (uuid4 E (draws w)))
           api connection_id
      ++ stored_update cfg (JObj fields) completion current_time.
Proof.
  intros Hb Hl.
  rewrite (handle_message_processed E cfg api connection_id event b fields w Hb Hl).
  set (session_id := session_of fields (uuid4 E (draws w))).
  destruct (handle_message_main_run E cfg api connection_id fields session_id
              (next_draw (next_draw w)))
    as (payload & w1 & completion & w2 & w3 & sv & request_id & w'
        & Hbuild & Hc1 & Hstrat & Hpersist & _ & _ & Ha3 & _ & Hrun).
  destruct (build_payload_run fields (next_draw (next_draw w)))
    as (payload' & w1' & Hbuild' & _ & _ & Hpayload).
  rewrite Hbuild in Hbuild'. injection Hbuild' as <- <-.
  fold (prompt_of fields) in Hpayload. subst payload.
  exists w', completion, (now_iso (clock E (draws w2))). split; [exact Hrun|].
  apply adds_services in Ha3. rewrite app_nil_r in Ha3. rewrite Ha3.
  destruct (persist_services E cfg (JObj fields) completion
              (now_iso (clock E (draws w2))) (next_draw w2))
    as (_ & Hps & _).
  rewrite Hpersist in Hps. cbn [snd calls next_draw] in Hps.
  fold (stored_update cfg (JObj fields) completion (now_iso (clock E (draws w2))))
    in Hps.
  rewrite Hps, app_assoc. f_equal.
  assert (Hw1 : services_of (calls w1) = services_of (calls w))
    by (rewrite Hc1; reflexivity).
  rewrite <- Hw1. unfold backend_requests, selected_strategy in *.
  destruct (is_str (requested_framework fields) "StrandsSDK").
  - apply (run_services _ _ _ _ _ Hstrat), invoke_strands_agent_services.
  - apply (run_services _ _ _ _ _ Hstrat), invoke_bedrock_agent_services.
Qed.

Lemma processed_request_calls_witness :
  exists w' completion current_time,
    handle_message demo_deployment demo_cfg demo_api "C1"
      (message_event "C1" (json_dumps (request_via "Foo"))) empty_world
    = (Ok (status 200 "Message sent"), w') /\
    services_of (calls w')
    = [agent_request demo_cfg
         (json_dumps (JObj [("work_order_id", JStr "WO1");
                            ("location_name", JStr "Site1")]))
         (JStr "uuid-0");
       UpdateItem (JStr "WO1")
         {| safetyCheckResponse := extract_html_content completion;
            safetyCheckPerformedAt := current_time |}].
Proof.
  exact (processed_request_calls demo_deployment demo_cfg demo_api "C1"
           (message_event "C1" (json_dumps (request_via "Foo")))
           (json_dumps (request_via "Foo"))
           [("token", JStr "good"); ("agentFramework", JStr "Foo");
            ("workOrderDetails",
             JObj [("work_order_id", JStr "WO1"); ("location_name", JStr "Site1")])]
           empty_world eq_refl eq_refl).
Defined.

Lemma invoke_bedrock_agent_streams E cfg payload session_id api connection_id w stream :
  agent_configured cfg = true ->
  invoke_agent E (length (calls w)) = Ok stream ->
  failure stream = None ->
  Forall decodable (units stream) ->
  exists w',
    invoke_bedrock_agent E cfg payload session_id api connection_id w
    = (Ok (chunk_texts (units stream)), w') /\
    adds w w' (trace_frames (units stream)) [agent_request cfg payload session_id].
Proof.
  intros Hcfg Hinvoke Hf Hd.
  assert (Hc : negb (set_str (BEDROCK_AGENT_ID cfg))
               || negb (set_str (BEDROCK_AGENT_ALIAS_ID cfg)) = false).
  { unfold agent_configured in Hcfg. apply andb_true_iff in Hcfg as [-> ->].
    reflexivity. }
  set (c := agent_request cfg payload session_id).
  assert (H : wp (invoke_bedrock_agent E cfg payload session_id api connection_id)
                (fun r w' => r = Ok (chunk_texts (units stream)) /\
                             adds w w' (trace_frames (units stream)) [c]) w).
  { unfold invoke_bedrock_agent. apply wp_try_catch. rewrite Hc.
    apply wp_bind, wp_outbound_value. change (InvokeAgent _) with c.
    rewrite Hinvoke. apply wp_bind, process_events_wp; [exact Hd|]. intros w1 H1.
    rewrite Hf. apply wp_ret. split; [reflexivity|].
    exact (adds_trans _ _ _ [] _ _ _ (adds_call w c) H1). }
  destruct (wp_elim _ _ _ H) as (r & w' & Hrun & -> & Ha).
  now exists w'.
Qed.

(** X25. A request served by the streaming variant whose stream ends
    normally: the frames sent are the trace frames of the stream in order
    and then the dispatcher's [final] frame carrying the concatenated
    chunk texts, the one terminal frame of the request; the agent is
    called once, and the update of the work order, when due, stores the
    HTML extracted from that same text under the time of the frame. *)
Theorem streamed_request_end_to_end (E : env) (cfg : config) (api : api_client)
    (connection_id : string) (event : event) (b : string)
    (fields : list (string * json)) (w : world) (stream : event_stream) :
  body event = Some b ->
  json_loads E b = Some (JObj fields) ->
  is_str (requested_framework fields) "StrandsSDK" = false ->
  agent_configured cfg = true ->
  invoke_agent E (length (calls w)) = Ok stream ->
  failure stream = None ->
  Forall decodable (units stream) ->
  let answer := chunk_texts (units stream) in
  exists w' request_id current_time,
    handle_message E cfg api connection_id event w
    = (Ok (status 200 "Message sent"), w') /\
    frames_of (calls w')
    = frames_of (calls w) ++ trace_frames (units stream)
      ++ [final_frame request_id answer current_time (requested_framework fields)] /\
    count_terminal
      (trace_frames (units stream)
       ++ [final_frame request_id answer current_time (requested_framework fields)])
    = 1 /\
    services_of (calls w')
    = services_of (calls w)
      ++ [agent_request cfg (prompt_of fields)
            (session_of fields (uuid4 E (draws w)))]
      ++ stored_update cfg (JObj fields) answer current_time.
Proof.
  intros Hb Hl Hvariant Hcfg Hinvoke Hf Hd. cbv zeta.
  rewrite (handle_message_processed E cfg api connection_id event b fields w Hb Hl).
  set (session_id := session_of fields (uuid4 E (draws w))).
  destruct (handle_message_main_run E cfg api connection_id fields session_id
              (next_draw (next_draw w)))
    as (payload & w1 & completion & w2 & w3 & sv & request_id & w'
        & Hbuild & Hc1 & Hstrat & Hpersist & _ & _ & Ha3 & _ & Hrun).
  destruct (build_payload_run fields (next_draw (next_draw w)))
    as (payload' & w1' & Hbuild' & _ & _ & Hpayload).
  rewrite Hbuild in Hbuild'. injection Hbuild' as <- <-.
  fold (prompt_of fields) in Hpayload. subst payload.
  cbn [calls next_draw] in Hc1.
  unfold selected_strategy in Hstrat. rewrite Hvariant in Hstrat.
  destruct (invoke_bedrock_agent_streams E cfg (prompt_of fields) session_id api
              connection_id w1 stream Hcfg ltac:(now rewrite Hc1) Hf Hd)
    as (w2' & Hstream & Ha12).
  rewrite Hstrat in Hstream. injection Hstream as -> <-.
  destruct (persist_services E cfg (JObj fields) (chunk_texts (units stream))
              (now_iso (clock E (draws w2))) (next_draw w2))
    as (_ & Hps & Hpf & _).
  rewrite Hpersist in Hps, Hpf. cbn [snd calls next_draw] in Hps, Hpf.
  exists w', request_id, (now_iso (clock E (draws w2))).
  split; [exact Hrun|]. destruct Ha3 as [F3 S3]. destruct Ha12 as [F12 S12].
  rewrite Hc1 in F12, S12. split; [|split].
  - rewrite F3, Hpf, F12. now rewrite <- app_assoc.
  - rewrite count_terminal_app, count_terminal_traces.
    + reflexivity.
    + pose proof (trace_frames_tagged (units stream)) as Ht.
      revert Ht. apply List.Forall_impl. now intros m [Hm _].
  - rewrite S3, app_nil_r, Hps, S12. now rewrite <- app_assoc.
Qed.

Lemma streamed_request_end_to_end_witness :
  exists w' request_id current_time,
    handle_message demo_deployment demo_cfg demo_api "C1"
      (message_event "C1" (json_dumps (request_via "Foo"))) empty_world
    = (Ok (status 200 "Message sent"), w') /\
    frames_of (calls w')
    = [bedrock_trace_frame (JObj [("orchestrationTrace", JStr "calling weather agent")]);
       final_frame request_id "<div>Report</div>" current_time (JStr "Foo")] /\
    count_terminal
      [bedrock_trace_frame (JObj [("orchestrationTrace", JStr "calling weather agent")]);
       final_frame request_id "<div>Report</div>" current_time (JStr "Foo")]
    = 1 /\
    services_of (calls w')
    = [agent_request demo_cfg
         (json_dumps (JObj [("work_order_id", JStr "WO1");
                            ("location_name", JStr "Site1")]))
         (JStr "uuid-0");
       UpdateItem (JStr "WO1")
         {| safetyCheckResponse := "<div>Report</div>";
            safetyCheckPerformedAt := current_time |}].
Proof.
  refine (streamed_request_end_to_end demo_deployment demo_cfg demo_api "C1"
            (message_event "C1" (json_dumps (request_via "Foo")))
            (json_dumps (request_via "Foo"))
            [("token", JStr "good"); ("agentFramework", JStr "Foo");
             ("workOrderDetails",
              JObj [("work_order_id", JStr "WO1"); ("location_name", JStr "Site1")])]
            empty_world demo_stream eq_refl eq_refl eq_refl eq_refl eq_refl eq_refl _).
  repeat constructor.
Defined.

(** X26. Called on an event whose body is absent, is not JSON or is not
    an object, [handle_message] does not return its 500 response: its
    [except] block itself raises ([request_id] is not bound yet, or
    [event_body] has no [get]), and no frame is sent. ([lambda_handler]
    never calls it on such an event.) *)
Theorem unreadable_body_escapes_handle_message (E : env) (cfg : config)
    (api : api_client) (connection_id : string) (event : event) (w : world) :
  unreadable_body E event ->
  exists e w',
    handle_message E cfg api connection_id event w = (Raise e, w') /\
    calls w' = calls w /\
    (exn_cls e = UnboundLocalError \/ exn_cls e = AttributeError).
Proof.
  unfold unreadable_body, handle_message. intros H.
  destruct (body event) as [b|].
  2:{ eexists _, _. split; [reflexivity|]. split; [reflexivity | now left]. }
  unfold loads. destruct (json_loads E b) as [v|].
  2:{ eexists _, _. split; [reflexivity|]. split; [reflexivity | now left]. }
  destruct v; try discriminate;
    eexists _, _; (split; [reflexivity|]); (split; [reflexivity | now right]).
Qed.

Lemma unreadable_body_escapes_handle_message_witness :
  exists e w',
    handle_message demo_deployment demo_cfg demo_api "C1" (message_event "C1" "[1]")
      empty_world
    = (Raise e, w') /\
    calls w' = calls empty_world /\
    (exn_cls e = UnboundLocalError \/ exn_cls e = AttributeError).
Proof.
  exact (unreadable_body_escapes_handle_message demo_deployment demo_cfg demo_api "C1"
           (message_event "C1" "[1]") empty_world eq_refl).
Defined.

(** ** The weather action group *)

Section WeatherAction.

Import WeatherAgent.


Lemma read_parameter_pair name value l :
  read_parameter (parameter name value) l
  = Ok {| lat := if String.eqb name "lat" then value else lat l;
          long := if String.eqb name "lat" then long l
                  else if String.eqb name "long" then value else long l;
          target_datetime :=
            if String.eqb name "lat" then target_datetime l
            else if String.eqb name "long" then target_datetime l
            else if String.eqb name "target_datetime" then value
            else target_datetime l |}.
Proof.
  unfold read_parameter, parameter. cbn [py_getitem].
  change (lookup_field "name" [("name", JStr name); ("type", JStr "string");
                               ("value", value)])
    with (Some (JStr name)).
  change (lookup_field "value" [("name", JStr name); ("type", JStr "string");
                                ("value", value)])
    with (Some value).
  cbn [rbind is_str].
  destruct (String.eqb name "lat"); [reflexivity|].
  destruct (String.eqb name "long"); [reflexivity|].
  destruct (String.eqb name "target_datetime"); [reflexivity|].
  now destruct l.
Qed.

Lemma find_snoc {A} (f : A -> bool) l x :
  List.find f (l ++ [x])
  = match List.find f l with
    | Some y => Some y
    | None => if f x then Some x else None
    end.
Proof.
  induction l as [|a l IH]; cbn [app List.find]; [reflexivity|].
  now destruct (f a).
Qed.

Lemma read_parameters_pairs : forall pairs l,
  read_parameters (map (fun kv => parameter (fst kv) (snd kv)) pairs) l
  = Ok {| lat := match List.find (fun kv => String.eqb (fst kv) "lat") (rev pairs) with
                 | Some kv => snd kv
                 | None => lat l
                 end;
          long := match List.find (fun kv => String.eqb (fst kv) "long") (rev pairs) with
                  | Some kv => snd kv
                  | None => long l
                  end;
          target_datetime :=
            match List.find (fun kv => String.eqb (fst kv) "target_datetime")
                    (rev pairs) with
            | Some kv => snd kv
            | None => target_datetime l
            end |}.
Proof.
  induction pairs as [|[name value] pairs IH]; intros l.
  - now destruct l.
  - cbn [map read_parameters fst snd]. rewrite read_parameter_pair. cbn [rbind].
    rewrite IH. cbn [rev lat long target_datetime]. rewrite !find_snoc. cbn [fst snd].
    destruct (List.find _ (rev pairs)), (List.find _ (rev pairs)),
      (List.find _ (rev pairs));
      destruct (String.eqb name "lat") eqn:H1;
      try (apply String.eqb_eq in H1; subst name;
           change (("lat" =? "long")%string) with false;
           change (("lat" =? "target_datetime")%string) with false;
           reflexivity);
      destruct (String.eqb name "long") eqn:H2;
      try (apply String.eqb_eq in H2; subst name;
           change (("long" =? "target_datetime")%string) with false;
           reflexivity);
      destruct (String.eqb name "target_datetime"); reflexivity.
Qed.

(** X27. The loop over the parameters of the weather action keeps, for
    each of [lat], [long] and [target_datetime], the value of the last
    parameter of that name, and [None] when there is none; parameters of
    other names are ignored. *)
Theorem last_parameter_value_wins (pairs : list (string * json)) :
  read_parameters (map (fun kv => parameter (fst kv) (snd kv)) pairs) unassigned
  = Ok {| lat := last_value "lat" pairs;
          long := last_value "long" pairs;
          target_datetime := last_value "target_datetime" pairs |}.
Proof. apply read_parameters_pairs. Qed.






End WeatherAction.
